(** * jpg2png: a shallow embedding of [src/App.jsx]

    The React component [App] is modelled as explicit state passing over a
    record holding its [useState] cells.  Every [setFiles (prev => ...)]
    updater of the source is a function on the item list; asynchronous
    handlers ([convertOne], [convertAll]) are split at their [await]s into
    the pieces that run between two suspensions, and a small event system
    interleaves them with user events.  JavaScript numbers that take part
    in the resize arithmetic are IEEE-754 binary64 values
    ([SpecFloat.spec_float] at precision 53). *)

From Stdlib Require Import ZArith List String Ascii Bool Lia.
From Stdlib Require Import DecimalString.
From Stdlib Require Import Sorting.Permutation.
From Stdlib Require Import Floats.SpecFloat.
Import ListNotations.

Local Open Scope string_scope.
Local Open Scope Z_scope.

(* ================================================================== *)
(** * Strings and the two regular expressions of the source *)
(* ================================================================== *)

(** JavaScript strings are modelled by their UTF-8 bytes.  Both regular
    expressions of the source carry the [i] flag without [u]; there a
    pattern letter matches exactly its two ASCII cases, so bytes above 127
    never match a pattern character. *)

Module Str.

Definition is_upper (c : ascii) : bool :=
  let n := nat_of_ascii c in (Nat.leb 65 n && Nat.leb n 90)%bool.

Definition lower (c : ascii) : ascii :=
  if is_upper c then ascii_of_nat (nat_of_ascii c + 32) else c.

Fixpoint lowercase (s : string) : string :=
  match s with
  | EmptyString => EmptyString
  | String c s' => String (lower c) (lowercase s')
  end.

(** [eqb_ci p s]: [s] equals the lower-case pattern [p] up to ASCII case. *)
Definition eqb_ci (p s : string) : bool := String.eqb p (lowercase s).

(** [drop n s]: [s] without its first [n] characters. *)
Definition drop (n : nat) (s : string) : string :=
  substring n (String.length s - n) s.

Definition take (n : nat) (s : string) : string := substring 0 n s.

(** [ends_ci p s]: the last [length p] characters of [s] are [p] up to
    ASCII case (and [s] is at least that long). *)
Definition ends_ci (p s : string) : bool :=
  (Nat.leb (String.length p) (String.length s)
   && eqb_ci p (drop (String.length s - String.length p) s))%bool.

(** Decimal rendering of an integer inside a template literal.  A
    template literal prints a number with the digits of the nearest
    double: every digit for an integer below [2^53], which the size and
    the modification time of a [File] are; above [2^53] the two
    renderings differ. *)
Definition of_Z (z : Z) : string := NilZero.string_of_int (Z.to_int z).

End Str.

(** [/^image\/(jpeg|jpg)$/i.test(t)] *)
Definition test_jpeg_type (t : string) : bool :=
  (Str.eqb_ci "image/jpeg" t || Str.eqb_ci "image/jpg" t)%bool.

(** [/\.(jpe?g)$/i.test(n)] *)
Definition test_jpeg_ext (n : string) : bool :=
  (Str.ends_ci ".jpg" n || Str.ends_ci ".jpeg" n)%bool.

(** [n.replace(/\.(jpe?g)$/i, '')]: the matched suffix is removed; a name
    cannot end in both [.jpg] and [.jpeg], so the match is unique. *)
Definition strip_jpeg_ext (n : string) : string :=
  if Str.ends_ci ".jpg" n then Str.take (String.length n - 4) n
  else if Str.ends_ci ".jpeg" n then Str.take (String.length n - 5) n
  else n.

(** [s || 'image'] on strings: the empty string is falsy. *)
Definition or_image (s : string) : string :=
  if String.eqb s "" then "image" else s.

(* ================================================================== *)
(** * Data model *)
(* ================================================================== *)

(** The browser [File] fields the component reads. *)
Record File := mkFile {
  name : string;
  type : string;
  size : Z;
  lastModified : Z
}.

Inductive Status := idle | converting | done | error.

Definition Status_eqb (a b : Status) : bool :=
  match a, b with
  | idle, idle | converting, converting | done, done | error, error => true
  | _, _ => false
  end.

(** One element of the [files] state: the object built by [createItem].
    [errorMsg] is the item's [error] field (the constructor [error] of
    [Status] already uses that name); [width]/[height] hold the decoded
    pixel size (integers, [naturalWidth]/[naturalHeight]). *)
Record Item := mkItem {
  id : string;
  file : File;
  previewUrl : string;
  pngUrl : string;
  status : Status;
  errorMsg : string;
  width : Z;
  height : Z
}.

Inductive Format := png | webp | jpeg.
Inductive FitMode := contain | stretch.

(** A JavaScript number: IEEE-754 binary64. *)
Definition number := spec_float.

(** The six settings cells (lines 12-19). *)
Record Settings := mkSettings {
  outputFormat : Format;
  quality : number;
  maxWidth : number;
  maxHeight : number;
  fitMode : FitMode;
  keepAspect : bool
}.

(** The component state.  [appError] is the [error] cell (the banner),
    [inputValue] the value of the hidden file input reached through
    [inputRef], and [revoked] the log of [URL.revokeObjectURL] calls, most
    recent first: those of [revokeUrls] (lines 170-171) and the one of
    [downloadAllZip] (line 209). *)
Record App := mkApp {
  files : list Item;
  isConvertingAll : bool;
  appError : string;
  settings : Settings;
  inputValue : string;
  revoked : list string
}.

Definition setFiles (f : list Item -> list Item) (st : App) : App :=
  mkApp (f (files st)) (isConvertingAll st) (appError st) (settings st)
        (inputValue st) (revoked st).

Definition setError (e : string) (st : App) : App :=
  mkApp (files st) (isConvertingAll st) e (settings st)
        (inputValue st) (revoked st).

Definition setIsConvertingAll (b : bool) (st : App) : App :=
  mkApp (files st) b (appError st) (settings st)
        (inputValue st) (revoked st).

Definition setSettings (s : Settings) (st : App) : App :=
  mkApp (files st) (isConvertingAll st) (appError st) s
        (inputValue st) (revoked st).

Definition setInputValue (v : string) (st : App) : App :=
  mkApp (files st) (isConvertingAll st) (appError st) (settings st)
        v (revoked st).

Definition logRevoke (u : string) (st : App) : App :=
  mkApp (files st) (isConvertingAll st) (appError st) (settings st)
        (inputValue st) (u :: revoked st).

(* ================================================================== *)
(** * Validator: [onSelectFiles] (lines 43-64) *)
(* ================================================================== *)

Definition MAX_FILES : Z := 20.
Definition MAX_SIZE_MB : Z := 50.

Definition isJpg (f : File) : bool :=
  (test_jpeg_type (type f) || test_jpeg_ext (name f))%bool.

Definition underSize (f : File) : bool :=
  size f <=? MAX_SIZE_MB * 1024 * 1024.

(** The [valid] array built by the [for] loop of lines 46-51. *)
Definition valid_of (lst : list File) : list File :=
  filter (fun f => (isJpg f && underSize f)%bool) lst.

(** What the browser hands out for one new item: the object URL returned
    by [URL.createObjectURL] and the six characters cut from
    [Math.random().toString(36)]. *)
Record Fresh := mkFresh { objectUrl : string; rnd : string }.

(** [createItem] (lines 29-41). *)
Definition createItem (f : File) (x : Fresh) : Item :=
  mkItem (name f ++ "-" ++ Str.of_Z (size f) ++ "-"
            ++ Str.of_Z (lastModified f) ++ "-" ++ rnd x)
         f (objectUrl x) "" idle "" 0 0.

(** [toAdd.map(createItem)], the [k]-th call drawing [fresh k]. *)
Fixpoint createItems (fresh : nat -> Fresh) (k : nat) (l : list File)
  : list Item :=
  match l with
  | [] => []
  | f :: l' => createItem f (fresh k) :: createItems fresh (S k) l'
  end.

(** [valid.slice(0, Math.max(0, availableSlots))]. *)
Definition toAdd_of (prev : list Item) (valid : list File) : list File :=
  let availableSlots := MAX_FILES - Z.of_nat (List.length prev) in
  firstn (Z.to_nat (Z.max 0 availableSlots)) valid.

Definition onSelectFiles (fresh : nat -> Fresh) (lst : list File)
  (st : App) : App :=
  let st := setError "" st in
  match lst with
  | [] => st
  | _ =>
    let valid := valid_of lst in
    match valid with
    | [] => setError "Please choose JPG/JPEG images up to 50 MB each." st
    | _ =>
      let prev := files st in
      let toAdd := toAdd_of prev valid in
      let st :=
        if (List.length toAdd <? List.length valid)%nat
        then setError "Only 20 images allowed at once." st else st in
      setFiles (fun prev => (prev ++ createItems fresh 0 toAdd)%list) st
    end
  end.

(* ================================================================== *)
(** * JavaScript numbers *)
(* ================================================================== *)

Module JS.

Definition prec : Z := 53.
Definition emax : Z := 1024.

(** The double nearest to an integer (exact below [2^53]). *)
Definition of_Z (n : Z) : number := binary_normalize prec emax n 0 false.

Definition zero : number := S754_zero false.
Definition one : number := of_Z 1.
Definition Infinity : number := S754_infinity false.

Definition mul : number -> number -> number := SFmul prec emax.
Definition div : number -> number -> number := SFdiv prec emax.

(** [a > b] *)
Definition gt (a b : number) : bool := SFltb b a.

(** [Number.isFinite] *)
Definition isFinite (x : number) : bool :=
  match x with
  | S754_zero _ | S754_finite _ _ _ => true
  | S754_infinity _ | S754_nan => false
  end.

(** [x || 0]: a number is falsy when it is [0], [-0] or [NaN]. *)
Definition or_zero (x : number) : number :=
  match x with
  | S754_zero _ | S754_nan => zero
  | _ => x
  end.

(** [Math.min]: [NaN] if either argument is, and [-0] below [+0]. *)
Definition Math_min (a b : number) : number :=
  match SFcompare a b with
  | None => S754_nan
  | Some Lt => a
  | Some Gt => b
  | Some Eq =>
      match a, b with
      | S754_zero sa, S754_zero sb => S754_zero (sa || sb)
      | _, _ => a
      end
  end.

(** [Math.max]: [NaN] if either argument is, and [+0] above [-0]. *)
Definition Math_max (a b : number) : number :=
  match SFcompare a b with
  | None => S754_nan
  | Some Lt => b
  | Some Gt => a
  | Some Eq =>
      match a, b with
      | S754_zero sa, S754_zero sb => S754_zero (sa && sb)
      | _, _ => a
      end
  end.

(** [Math.round]: the nearest integer, ties towards [+Infinity]; an
    integral argument, an infinity and [NaN] are returned as they are,
    and a result of zero keeps the sign of the argument.  For a finite
    [(-1)^s * m * 2^e] with [e < 0] the result is
    [floor ((+-m + 2^(-e-1)) / 2^(-e))]. *)
Definition Math_round (x : number) : number :=
  match x with
  | S754_finite s m e =>
      if 0 <=? e then x
      else
        let n := Z.shiftr (cond_Zopp s (Zpos m) + 2 ^ (- e - 1)) (- e) in
        if n =? 0 then S754_zero s else of_Z n
  | _ => x
  end.

(** The literal [1e6]. *)
Definition lit_1e6 : number := of_Z 1000000.

End JS.

(* ================================================================== *)
(** * Geometry: the target size computed by [convertItem] (lines 97-116) *)
(* ================================================================== *)

Definition resolveTarget (s : Settings) (srcW srcH : number)
  : number * number :=
  let limitW := JS.or_zero (maxWidth s) in
  let limitH := JS.or_zero (maxHeight s) in
  match fitMode s with
  | stretch =>
      (if JS.gt limitW JS.zero then limitW else srcW,
       if JS.gt limitH JS.zero then limitH else srcH)
  | contain =>
      if (JS.gt limitW JS.zero || JS.gt limitH JS.zero)%bool then
        let scaleW :=
          if JS.gt limitW JS.zero then JS.div limitW srcW else JS.Infinity in
        let scaleH :=
          if JS.gt limitH JS.zero then JS.div limitH srcH else JS.Infinity in
        let scale :=
          if keepAspect s then JS.Math_min scaleW scaleH else scaleW in
        let finalScale :=
          if JS.isFinite scale then JS.Math_min scale JS.lit_1e6
          else JS.one in
        (JS.Math_max JS.one
           (JS.Math_round
              (JS.mul (if keepAspect s then srcW
                       else if JS.gt limitW JS.zero then limitW else srcW)
                      finalScale)),
         JS.Math_max JS.one
           (JS.Math_round
              (JS.mul (if keepAspect s then srcH
                       else if JS.gt limitH JS.zero then limitH else srcH)
                      finalScale)))
      else (srcW, srcH)
  end.

(** [mime] and [q] handed to [canvas.toBlob] (lines 126-127); [None] is
    [undefined]. *)
Definition mime_of (f : Format) : string :=
  match f with
  | png => "image/png"
  | webp => "image/webp"
  | jpeg => "image/jpeg"
  end.


(* ================================================================== *)
(** * Item store updaters *)
(* ================================================================== *)

Definition id_is (i : string) (it : Item) : bool := String.eqb (id it) i.

(** [prev.map((it) => (it.id === i ? f it : it))] *)
Definition mapItem (i : string) (f : Item -> Item) (prev : list Item)
  : list Item :=
  map (fun it => if id_is i it then f it else it) prev.

(** [{ ...it, status: 'converting', error: '' }] (line 146) *)
Definition markConverting (it : Item) : Item :=
  mkItem (id it) (file it) (previewUrl it) (pngUrl it)
         converting "" (width it) (height it).

(** [{ ...it, width: srcW, height: srcH }] (line 95) *)
Definition withSize (srcW srcH : Z) (it : Item) : Item :=
  mkItem (id it) (file it) (previewUrl it) (pngUrl it)
         (status it) (errorMsg it) srcW srcH.

(** [{ ...it, pngUrl: url, status: 'done' }] (line 151) *)
Definition markDone (url : string) (it : Item) : Item :=
  mkItem (id it) (file it) (previewUrl it) url
         done (errorMsg it) (width it) (height it).

(** [{ ...it, status: 'error', error: 'Failed to convert' }] (line 153) *)
Definition markError (it : Item) : Item :=
  mkItem (id it) (file it) (previewUrl it) (pngUrl it)
         error "Failed to convert" (width it) (height it).

(** [l.find((f) => f.id === i)] *)
Definition findItem (i : string) (l : list Item) : option Item :=
  find (id_is i) l.

(** [l.findIndex((f) => f.id === i)], [None] standing for [-1]. *)
Fixpoint findIndex (i : string) (l : list Item) : option nat :=
  match l with
  | [] => None
  | it :: l' =>
      if id_is i it then Some O
      else match findIndex i l' with
           | Some k => Some (S k)
           | None => None
           end
  end.

(* ================================================================== *)
(** * Reordering and removal (lines 133-143, 169-188, 21-27) *)
(* ================================================================== *)

(** [next.splice(k, 1)] *)
Definition removeAt (k : nat) (l : list Item) : list Item :=
  (firstn k l ++ skipn (S k) l)%list.

(** [next.splice(k, 0, item)] *)
Definition insertAt (k : nat) (item : Item) (l : list Item) : list Item :=
  (firstn k l ++ item :: skipn k l)%list.

Definition moveItem (i : string) (delta : Z) (st : App) : App :=
  setFiles (fun prev =>
    match findIndex i prev with
    | None => prev
    | Some index =>
        let newIndex :=
          Z.min (Z.of_nat (List.length prev) - 1)
                (Z.max 0 (Z.of_nat index + delta)) in
        match nth_error prev index with
        | Some item =>
            insertAt (Z.to_nat newIndex) item (removeAt index prev)
        | None => prev
        end
    end) st.

(** [u && URL.revokeObjectURL(u)] *)
Definition revokeIfSet (u : string) (st : App) : App :=
  if String.eqb u "" then st else logRevoke u st.

Definition revokeUrls (item : Item) (st : App) : App :=
  revokeIfSet (pngUrl item) (revokeIfSet (previewUrl item) st).

Definition removeOne (i : string) (st : App) : App :=
  let st :=
    match findItem i (files st) with
    | Some target => revokeUrls target st
    | None => st
    end in
  setFiles (filter (fun f => negb (id_is i f))) st.

Definition reset (st : App) : App :=
  setInputValue "" (setError "" (setFiles (fun _ => []) st)).

(** [prev.forEach(revokeUrls)] *)
Definition revokeAll (prev : list Item) (st : App) : App :=
  fold_left (fun acc it => revokeUrls it acc) prev st.

Definition clearAll (st : App) : App :=
  reset (setFiles (fun _ => []) (revokeAll (files st) st)).

(* ================================================================== *)
(** * Converter (lines 83-131, 145-155) *)
(* ================================================================== *)

(** A [convertOne] call is suspended twice inside [convertItem]: on the
    image load (line 87) and on [canvas.toBlob] (line 128). *)
Inductive Phase :=
| AwaitLoad
| AwaitBlob (targetW targetH : number).

(** A suspended [convertOne(i)]: the [target] it found in the [files] it
    closed over, the settings its [convertItem] closed over, and where it
    waits. *)
Record Conv := mkConv {
  conv_id : string;
  conv_target : Item;
  conv_settings : Settings;
  conv_phase : Phase
}.

(** Line 146. *)
Definition convertOne_start (i : string) (st : App) : App :=
  setFiles (mapItem i markConverting) st.

(** Lines 146-150 up to the first suspension: [snapshot] and [s] are the
    [files] and the settings of the render the callback belongs to.
    [None]: the call returned at line 149. *)
Definition convertOne_call (snapshot : list Item) (s : Settings)
  (i : string) (st : App) : App * option Conv :=
  (convertOne_start i st,
   match findItem i snapshot with
   | Some target => Some (mkConv i target s AwaitLoad)
   | None => None
   end).

(** Line 153. *)
Definition convertOne_failed (i : string) (st : App) : App :=
  setFiles (mapItem i markError) st.

(** Line 151. *)
Definition convertOne_done (i : string) (url : string) (st : App) : App :=
  setFiles (mapItem i (markDone url)) st.

(** The image settles: [Some (w, h)] is [onload] with the natural size,
    [None] is [onerror].  On load the size is stored (line 95) and the
    target size resolved (lines 97-116). *)
Definition conv_loaded (c : Conv) (r : option (Z * Z)) (st : App)
  : App * option Conv :=
  match r with
  | None => (convertOne_failed (conv_id c) st, None)
  | Some (srcW, srcH) =>
      let st := setFiles (mapItem (id (conv_target c)) (withSize srcW srcH)) st in
      let '(targetW, targetH) :=
        resolveTarget (conv_settings c) (JS.of_Z srcW) (JS.of_Z srcH) in
      (st, Some (mkConv (conv_id c) (conv_target c) (conv_settings c)
                        (AwaitBlob targetW targetH)))
  end.

(** [toBlob] settles: [Some url] is a blob, wrapped by
    [URL.createObjectURL] into [url]; [None] is [null] (line 129 throws). *)
Definition conv_blob (c : Conv) (r : option string) (st : App) : App :=
  match r with
  | Some url => convertOne_done (conv_id c) url st
  | None => convertOne_failed (conv_id c) st
  end.

(* ================================================================== *)
(** * Batch orchestrator (lines 157-167) *)
(* ================================================================== *)

(** An asynchronous call in flight. *)
Inductive Thread :=
| RunOne (c : Conv)
    (* convertOne started by an item's Convert button *)
| RunAll (c : Conv) (rest snapshot : list Item)
    (* convertAll awaiting convertOne; [rest] is what its [for] loop has
       still to visit of the [files] array [snapshot] it closed over *)
| Finished.

(** The [for] loop of [convertAll] from the items [rest] on, up to its
    next suspension or to line 166. *)
Fixpoint convertAll_loop (snapshot : list Item) (s : Settings)
  (rest : list Item) (st : App) : App * Thread :=
  match rest with
  | [] => (setIsConvertingAll false st, Finished)
  | it :: rest' =>
      if String.eqb (pngUrl it) "" then
        match convertOne_call snapshot s (id it) st with
        | (st', Some c) => (st', RunAll c rest' snapshot)
        | (st', None) => convertAll_loop snapshot s rest' st'
        end
      else convertAll_loop snapshot s rest' st
  end.

Definition convertAll (st : App) : App * Thread :=
  match files st with
  | [] => (st, Finished)
  | _ =>
      convertAll_loop (files st) (settings st) (files st)
                      (setIsConvertingAll true st)
  end.

(* ================================================================== *)
(** * Archiver and download names (lines 190-210, 292-293) *)
(* ================================================================== *)

Definition hasOutput (it : Item) : bool := negb (String.eqb (pngUrl it) "").

(** Line 198: the entry name handed to [folder.file]. *)
Definition zipEntryName (it : Item) : string :=
  or_image (strip_jpeg_ext (name (file it))) ++ ".png".

(** The calls [folder.file(name, blob)] of one [downloadAllZip], in
    order; the blob is identified by the handle it is fetched from.  The
    folder is [zip.folder('png')]. *)
Definition zipEntries (l : list Item) : list (string * string) :=
  map (fun it => (zipEntryName it, pngUrl it)) (filter hasOutput l).

(** Line 292. *)
Definition ext_of (f : Format) : string :=
  match f with
  | png => "png"
  | webp => "webp"
  | jpeg => "jpg"
  end.

(** Line 293: the [download] attribute of an item's link. *)
Definition downloadName (f : Format) (it : Item) : string :=
  or_image (strip_jpeg_ext (name (file it))) ++ "." ++ ext_of f.

(* ================================================================== *)
(** * What the render shows (lines 212-214, 306-315, 342-355) *)
(* ================================================================== *)

Definition anySelected (st : App) : bool :=
  match files st with [] => false | _ => true end.

Definition allConverted (st : App) : bool :=
  (anySelected st && forallb hasOutput (files st))%bool.

Definition convertedCount (st : App) : nat :=
  List.length (filter hasOutput (files st)).

(** The per-item conversion trigger (lines 306-312): [None] when the card
    shows the Download link instead of the button, [Some d] when it shows
    the Convert button with [disabled = d]. *)
Definition convertButton (it : Item) : option bool :=
  if hasOutput it then None else Some (Status_eqb (status it) converting).

(** [disabled] of the Convert All button (line 342). *)
Definition convertAllDisabled (st : App) : bool :=
  (isConvertingAll st || allConverted st)%bool.

(** The Convert & Download All button (lines 351-353) is rendered under
    this condition and has no [disabled] attribute. *)
Definition convertDownloadAllShown (st : App) : bool :=
  (negb (allConverted st) && anySelected st)%bool.

(* ================================================================== *)
(** * The component as an event system *)
(* ================================================================== *)

(** The state cells together with the asynchronous calls in flight.  A
    handler runs to its first [await]; each later event settles one
    pending promise and runs the continuation to the next [await].  A
    click handler belongs to the latest render, so the [files] and the
    settings it closes over are those of the state at the click; a
    continuation keeps the closure of the call it belongs to. *)
Record World := mkWorld {
  app : App;
  threads : list Thread
}.

Inductive Event :=
| SelectFiles (fresh : nat -> Fresh) (lst : list File)
    (* file picker or drop, both through onSelectFiles *)
| ClickConvert (i : string)
| ClickConvertAll
| ClickConvertDownloadAll
| ClickRemove (i : string)
| ClickMove (i : string) (delta : Z)
| ClickClearAll
| ClickNewConversion            (* the header link, bound to reset *)
| ChangeSettings (s : Settings) (* the settings setters *)
| TimerFired                    (* the 60-minute timeout of lines 224-227 *)
| ImageSettled (k : nat) (r : option (Z * Z))
| BlobSettled (k : nat) (r : option string).

(** Some card with id [i] shows an enabled Convert button. *)
Definition convertEnabled (i : string) (st : App) : bool :=
  existsb (fun it =>
    (id_is i it &&
     match convertButton it with Some false => true | _ => false end)%bool)
    (files st).

(** Some card with id [i] shows an enabled arrow for [delta]: the up arrow
    ([-1]) is disabled on the first card, the down arrow ([1]) on the
    last. *)
Definition moveEnabled (i : string) (delta : Z) (st : App) : bool :=
  let n := List.length (files st) in
  existsb (fun p : nat * Item =>
    (id_is i (snd p) &&
     ((delta =? -1) && negb (Nat.eqb (fst p) 0)
      || (delta =? 1) && negb (Nat.eqb (fst p) (n - 1))))%bool)
    (combine (seq 0 n) (files st)).

Definition setThread (k : nat) (t : Thread) (ths : list Thread)
  : list Thread :=
  (firstn k ths ++ t :: skipn (S k) ths)%list.

Definition threadOfConv (oc : option Conv) : Thread :=
  match oc with
  | Some c => RunOne c
  | None => Finished
  end.

(** A settled promise resumes thread [t]; [None] when [t] does not wait
    for that promise. *)
Definition resumeLoaded (t : Thread) (r : option (Z * Z)) (st : App)
  : option (App * Thread) :=
  match t with
  | RunOne c =>
      match conv_phase c with
      | AwaitLoad =>
          let '(st', oc) := conv_loaded c r st in
          Some (st', threadOfConv oc)
      | AwaitBlob _ _ => None
      end
  | RunAll c rest snapshot =>
      match conv_phase c with
      | AwaitLoad =>
          match conv_loaded c r st with
          | (st', Some c') => Some (st', RunAll c' rest snapshot)
          | (st', None) =>
              Some (convertAll_loop snapshot (conv_settings c) rest st')
          end
      | AwaitBlob _ _ => None
      end
  | Finished => None
  end.

Definition resumeBlob (t : Thread) (r : option string) (st : App)
  : option (App * Thread) :=
  match t with
  | RunOne c =>
      match conv_phase c with
      | AwaitBlob _ _ => Some (conv_blob c r st, Finished)
      | AwaitLoad => None
      end
  | RunAll c rest snapshot =>
      match conv_phase c with
      | AwaitBlob _ _ =>
          Some (convertAll_loop snapshot (conv_settings c) rest
                                (conv_blob c r st))
      | AwaitLoad => None
      end
  | Finished => None
  end.

Definition guarded (b : bool) (w : World) : option World :=
  if b then Some w else None.

Definition step (w : World) (e : Event) : option World :=
  let st := app w in
  match e with
  | SelectFiles fresh lst =>
      Some (mkWorld (onSelectFiles fresh lst st) (threads w))
  | ClickConvert i =>
      let '(st', oc) := convertOne_call (files st) (settings st) i st in
      guarded (convertEnabled i st)
              (mkWorld st' (threads w ++ [threadOfConv oc])%list)
  | ClickConvertAll =>
      let '(st', t) := convertAll st in
      guarded (anySelected st && negb (convertAllDisabled st))%bool
              (mkWorld st' (threads w ++ [t])%list)
  | ClickConvertDownloadAll =>
      let '(st', t) := convertAll st in
      guarded (convertDownloadAllShown st)
              (mkWorld st' (threads w ++ [t])%list)
  | ClickRemove i =>
      guarded (existsb (id_is i) (files st))
              (mkWorld (removeOne i st) (threads w))
  | ClickMove i delta =>
      guarded (moveEnabled i delta st)
              (mkWorld (moveItem i delta st) (threads w))
  | ClickClearAll =>
      guarded (anySelected st) (mkWorld (clearAll st) (threads w))
  | ClickNewConversion =>
      guarded (anySelected st) (mkWorld (reset st) (threads w))
  | ChangeSettings s =>
      Some (mkWorld (setSettings s st) (threads w))
  | TimerFired =>
      guarded (anySelected st)
        (mkWorld (setError "Session cleared automatically after 60 minutes."
                           (clearAll st))
                 (threads w))
  | ImageSettled k r =>
      match nth_error (threads w) k with
      | Some t =>
          match resumeLoaded t r st with
          | Some (st', t') => Some (mkWorld st' (setThread k t' (threads w)))
          | None => None
          end
      | None => None
      end
  | BlobSettled k r =>
      match nth_error (threads w) k with
      | Some t =>
          match resumeBlob t r st with
          | Some (st', t') => Some (mkWorld st' (setThread k t' (threads w)))
          | None => None
          end
      | None => None
      end
  end.

Fixpoint run (w : World) (es : list Event) : option World :=
  match es with
  | [] => Some w
  | e :: es' =>
      match step w e with
      | Some w' => run w' es'
      | None => None
      end
  end.

(** Lines 12-19: ['png'], [0.9], [0], [0], ['contain'], [true]. *)
Definition initialSettings : Settings :=
  mkSettings png (JS.div (JS.of_Z 9) (JS.of_Z 10)) JS.zero JS.zero
             contain true.

Definition initialApp : App := mkApp [] false "" initialSettings "" [].

Definition initialWorld : World := mkWorld initialApp [].

Inductive reachable : World -> Prop :=
| reach_init : reachable initialWorld
| reach_step w e w' : reachable w -> step w e = Some w' -> reachable w'.

(* ================================================================== *)
(** * Uninterrupted runs *)
(* ================================================================== *)

(** How the browser settles the two promises of one conversion. *)
Inductive Outcome :=
| LoadFails                               (* img.onerror *)
| BlobFails (w h : Z)                     (* loaded, toBlob gave null *)
| Succeeds (w h : Z) (url : string).      (* loaded and encoded *)

(** The events that settle thread [k] as the outcome says. *)
Definition settleEvents (k : nat) (o : Outcome) : list Event :=
  match o with
  | LoadFails => [ImageSettled k None]
  | BlobFails w h => [ImageSettled k (Some (w, h)); BlobSettled k None]
  | Succeeds w h url =>
      [ImageSettled k (Some (w, h)); BlobSettled k (Some url)]
  end.

(** A batch over the items [l] running as thread [k] with no other event
    in between: each item without output is settled as [oracle] says. *)
Definition batchSchedule (oracle : Item -> Outcome) (k : nat)
  (l : list Item) : list Event :=
  flat_map (fun it => if hasOutput it then [] else settleEvents k (oracle it))
           l.

(** What one conversion settled as [o] leaves in the item. *)
Definition converted (o : Outcome) (it : Item) : Item :=
  match o with
  | LoadFails => markError (markConverting it)
  | BlobFails w h => markError (withSize w h (markConverting it))
  | Succeeds w h url => markDone url (withSize w h (markConverting it))
  end.

(** What a batch leaves in an item: untouched when it already has an
    output, converted otherwise. *)
Definition attempt (oracle : Item -> Outcome) (it : Item) : Item :=
  if hasOutput it then it else converted (oracle it) it.

(** How a batch leaves the item [it'] that it met as [it]: identity,
    file and preview are kept; an item that had an output is untouched;
    otherwise the item ends in [error] with the message, or in [done]
    with the new output handle. *)
Definition settledAs (oracle : Item -> Outcome) (it it' : Item) : Prop :=
  id it' = id it /\ file it' = file it /\ previewUrl it' = previewUrl it /\
  if hasOutput it then it' = it
  else match oracle it with
       | LoadFails | BlobFails _ _ =>
           status it' = error /\ errorMsg it' = "Failed to convert"
           /\ pngUrl it' = ""
       | Succeeds _ _ url => status it' = done /\ pngUrl it' = url
       end.

(* ================================================================== *)
(** * Observations on states, and the readings of two claims *)
(* ================================================================== *)

(** [files.length] *)
Definition storeSize (st : App) : Z := Z.of_nat (List.length (files st)).

(** The handles [revokeUrls] releases for one item, in release order. *)
Definition handlesOf (it : Item) : list string :=
  ((if String.eqb (previewUrl it) "" then [] else [previewUrl it])
   ++ (if String.eqb (pngUrl it) "" then [] else [pngUrl it]))%list.

(** The conversions in flight. *)
Definition convOf (t : Thread) : option Conv :=
  match t with
  | RunOne c | RunAll c _ _ => Some c
  | Finished => None
  end.

Definition inFlight (i : string) (w : World) : nat :=
  List.length
    (filter (fun t => match convOf t with
                      | Some c => String.eqb (conv_id c) i
                      | None => false
                      end)
            (threads w)).

(** The conversion thread [k] is running, if any. *)
Definition threadConv (w : World) (k : nat) : option Conv :=
  match nth_error (threads w) k with
  | Some t => convOf t
  | None => None
  end.

(** The target size an attempt has resolved, once it waits for the
    encoder. *)
Definition resolvedSize (c : Conv) : option (number * number) :=
  match conv_phase c with
  | AwaitBlob targetW targetH => Some (targetW, targetH)
  | AwaitLoad => None
  end.




(** No item of the store has the id [i]. *)
Definition absent (i : string) (st : App) : Prop :=
  forall it, In it (files st) -> id it <> i.

(* ================================================================== *)
(** * Integers as doubles *)
(* ================================================================== *)

(** An integer [n] with [1 <= n < 2^53] is the double with a 53-bit
    mantissa [m = n * 2^(-e)] and an exponent [-52 <= e <= 0]. *)
Definition normalInt (n : Z) (m : positive) (e : Z) : Prop :=
  Zpos (digits2_pos m) = 53 /\ -52 <= e <= 0 /\ Zpos m = n * 2 ^ (- e).

(** A dimension [n] scaled by the ratio [lw / w] and rounded to the
    nearest integer, with nothing else applied. *)
Definition scaledByWidthRatio (lw w n : Z) : number :=
  JS.Math_round (JS.mul (JS.of_Z n) (JS.div (JS.of_Z lw) (JS.of_Z w))).

(** "In contain mode with aspect locked and only a maximum width set,
    both axes are scaled by the ratio width-limit/source-width, each
    result rounded to the nearest integer." *)
Definition widthLimitScalesBoth : Prop :=
  forall (f : Format) (q : number) (w h lw : Z),
    0 < w -> 0 < h -> 0 < lw ->
    resolveTarget (mkSettings f q (JS.of_Z lw) JS.zero contain true)
                  (JS.of_Z w) (JS.of_Z h)
    = (scaledByWidthRatio lw w w, scaledByWidthRatio lw w h).

(** "In contain mode with aspect unlocked and only a maximum height set
    (width limit 0), the target width is exactly the source width and
    the target height exactly the height limit": the limit is whatever
    number the height field holds, set when it is greater than zero. *)
Definition heightLimitIsTarget : Prop :=
  forall (f : Format) (q : number) (w h : Z) (limit : number),
    0 < w -> 0 < h -> JS.gt limit JS.zero = true ->
    resolveTarget (mkSettings f q JS.zero limit contain false)
                  (JS.of_Z w) (JS.of_Z h)
    = (JS.of_Z w, limit).

(** The doubles [2.5] and [0.5]. *)
Definition lit_2_5 : number := JS.div (JS.of_Z 5) (JS.of_Z 2).
Definition lit_0_5 : number := JS.div (JS.of_Z 1) (JS.of_Z 2).

(* ================================================================== *)
(** * Sample data for the concrete scenarios *)
(* ================================================================== *)

Module Sample.

Definition jpg (n : string) : File := mkFile n "image/jpeg" 1000 0.

Definition fresh (tag : string) (k : nat) : Fresh :=
  mkFresh ("blob:" ++ tag ++ Str.of_Z (Z.of_nat k)) "abc123".

Definition names5 : list string :=
  ["a.jpg"; "b.jpg"; "c.jpg"; "d.jpg"; "e.jpg"].

Definition idOf (n : string) : string := n ++ "-1000-0-abc123".

(** Nineteen accepted files in the store. *)
Definition world19 : World :=
  mkWorld (onSelectFiles (fresh "p") (repeat (jpg "x.jpg") 19) initialApp)
          [].

(** Two JPEGs, an oversized JPEG, a PNG and a JPEG known by its
    extension only. *)
Definition offer : list File :=
  [ jpg "one.jpg"; jpg "two.JPEG";
    mkFile "big.jpg" "image/jpeg" 52428801 0;
    mkFile "pic.png" "image/png" 10 0;
    mkFile "three.jpeg" "" 52428800 0 ].

(** Five items selected together. *)
Definition world5 : World :=
  mkWorld (onSelectFiles (fresh "p") (map jpg names5) initialApp) [].

(** The second fails to decode, the others convert to 640x480. *)
Definition oracle5 (it : Item) : Outcome :=
  if String.eqb (name (file it)) "b.jpg" then LoadFails
  else Succeeds 640 480 ("blob:out-" ++ name (file it)).

(** Two items selected together. *)
Definition world2 : World :=
  mkWorld (onSelectFiles (fresh "p") (map jpg ["a.jpg"; "b.jpg"]) initialApp)
          [].

(** Convert All is clicked, then the Convert button of the second item
    while the first is being converted. *)
Definition clickDuringBatch : list Event :=
  [ ClickConvertAll; ClickConvert (idOf "b.jpg") ].

(** ... then the first item's conversion completes, and the batch goes
    on to the second item while the click's conversion is in flight. *)
Definition doubleStart : list Event :=
  (clickDuringBatch
   ++ [ ImageSettled 0 (Some (640, 480)); BlobSettled 0 (Some "blob:a1") ])%list.

(** ... or the click's conversion completes first, then the first
    item's, and the batch goes on to the second item. *)
Definition staleRestart : list Event :=
  (clickDuringBatch
   ++ [ ImageSettled 1 (Some (640, 480)); BlobSettled 1 (Some "blob:b1");
        ImageSettled 0 (Some (640, 480)) ])%list.

Definition settings800 : Settings :=
  mkSettings jpeg (JS.div (JS.of_Z 1) (JS.of_Z 2))
             (JS.of_Z 800) JS.zero contain true.

Definition photo (n : string) (url : string) : Item :=
  mkItem (idOf n) (jpg n) "blob:p0" url done "" 640 480.

(** An item a closure still holds after it left the store. *)
Definition ghost : Item :=
  mkItem "ghost" (jpg "ghost.jpg") "blob:g" "" idle "" 0 0.

Definition ghostConv : Conv := mkConv "ghost" ghost initialSettings AwaitLoad.

(** A first attempt on an idle item and a retry of the same item after
    a failure, both under [settings800]. *)
Definition firstTry : Conv :=
  mkConv (idOf "a.jpg")
         (mkItem (idOf "a.jpg") (jpg "a.jpg") "blob:p0" "" idle "" 0 0)
         settings800 AwaitLoad.

Definition retry : Conv :=
  mkConv (idOf "a.jpg")
         (mkItem (idOf "a.jpg") (jpg "a.jpg") "blob:p0" "" error
                 "Failed to convert" 1600 1200)
         settings800 AwaitLoad.

End Sample.

(* ================================================================== *)
(** * Archive downloads (lines 190-210, 348-353) *)
(* ================================================================== *)

(** A [downloadAllZip] call is suspended on the dynamic import (line
    191), on the fetch of each output (line 197) and on
    [zip.generateAsync] (line 201).  [snapshot] is the [files] array the
    callback closed over; [calls] are the calls [folder.file(name, blob)]
    made so far, in order, each blob named by the handle it was fetched
    from. *)
Inductive Download :=
| AwaitImport (snapshot : list Item)
| AwaitFetch (it : Item) (rest : list Item) (calls : list (string * string))
| AwaitGenerate (calls : list (string * string))
| Ended.

(** Line 190: the call up to its first suspension. *)
Definition downloadAllZip (snapshot : list Item) : Download :=
  AwaitImport snapshot.

(** The [for] loop of lines 194-200 from the items [rest] on, up to its
    next fetch or to line 201.  A fetch from a released handle rejects:
    the call then ends at line 197, without an archive. *)
Fixpoint zipLoop (rest : list Item) (calls : list (string * string))
  (st : App) : Download :=
  match rest with
  | [] => AwaitGenerate calls
  | it :: rest' =>
      if hasOutput it then
        if existsb (String.eqb (pngUrl it)) (revoked st) then Ended
        else AwaitFetch it rest' calls
      else zipLoop rest' calls st
  end.

(** The component together with what it has handed to the browser for
    download.  [awaiting] holds the Convert & Download All handlers
    (line 352) suspended on [await convertAll()]: the batch thread each
    waits for and the [files] array its [downloadAllZip] closed over.
    [downloads] are the [downloadAllZip] calls made so far.  [archives]
    lists the archives saved as [converted_pngs.zip] so far, most recent
    first, each by the calls [folder.file(name, blob)] that built it. *)
Record Desk := mkDesk {
  world : World;
  awaiting : list (nat * list Item);
  downloads : list Download;
  archives : list (list (string * string))
}.

Inductive DeskEvent :=
| Ev (e : Event)
| ClickDownloadAll
    (* the Download All (ZIP) button, lines 348-350 *)
| ImportSettled (j : nat) (ok : bool)
    (* the import of download [j] settles; [false]: it rejects *)
| FetchSettled (j : nat)
    (* the blob download [j] fetches has arrived *)
| ArchiveBuilt (j : nat) (url : string).
    (* [generateAsync] of download [j] resolves; [url] is the object URL
       the browser creates for the archive (line 202) *)

Definition threadFinished (w : World) (k : nat) : bool :=
  match nth_error (threads w) k with
  | Some Finished => true
  | _ => false
  end.

Definition setDownload (j : nat) (dl : Download) (dls : list Download)
  : list Download :=
  (firstn j dls ++ dl :: skipn (S j) dls)%list.

(** The handlers whose batch has returned go on to [downloadAllZip()]:
    those still waiting, and the calls started. *)
Fixpoint settleDownloads (w : World) (aw : list (nat * list Item))
  : list (nat * list Item) * list Download :=
  match aw with
  | [] => ([], [])
  | (k, snapshot) :: aw' =>
      let '(rest, started) := settleDownloads w aw' in
      if threadFinished w k then (rest, downloadAllZip snapshot :: started)
      else ((k, snapshot) :: rest, started)
  end.

Definition deskStep (d : Desk) (e : DeskEvent) : option Desk :=
  let st := app (world d) in
  match e with
  | ClickDownloadAll =>
      if allConverted st
      then Some (mkDesk (world d) (awaiting d)
                        (downloads d ++ [downloadAllZip (files st)])
                        (archives d))
      else None
  | Ev e =>
      match step (world d) e with
      | None => None
      | Some w' =>
          let aw :=
            match e with
            | ClickConvertDownloadAll =>
                (awaiting d
                 ++ [(List.length (threads (world d)),
                      files (app (world d)))])%list
            | _ => awaiting d
            end in
          let '(aw', started) := settleDownloads w' aw in
          Some (mkDesk w' aw' (downloads d ++ started) (archives d))
      end
  | ImportSettled j ok =>
      match nth_error (downloads d) j with
      | Some (AwaitImport snapshot) =>
          Some (mkDesk (world d) (awaiting d)
                       (setDownload j
                          (if ok then zipLoop snapshot [] st else Ended)
                          (downloads d))
                       (archives d))
      | _ => None
      end
  | FetchSettled j =>
      match nth_error (downloads d) j with
      | Some (AwaitFetch it rest calls) =>
          Some (mkDesk (world d) (awaiting d)
                       (setDownload j
                          (zipLoop rest
                             (calls ++ [(zipEntryName it, pngUrl it)]) st)
                          (downloads d))
                       (archives d))
      | _ => None
      end
  | ArchiveBuilt j url =>
      (* lines 202-209: the archive is saved through a link to [url],
         and [url] is released *)
      match nth_error (downloads d) j with
      | Some (AwaitGenerate calls) =>
          Some (mkDesk (mkWorld (logRevoke url st) (threads (world d)))
                       (awaiting d)
                       (setDownload j Ended (downloads d))
                       (calls :: archives d))
      | _ => None
      end
  end.

Fixpoint deskRun (d : Desk) (es : list DeskEvent) : option Desk :=
  match es with
  | [] => Some d
  | e :: es' =>
      match deskStep d e with
      | Some d' => deskRun d' es'
      | None => None
      end
  end.

(** No output of [snapshot] has been released. *)
Definition outputsLive (snapshot : list Item) (st : App) : bool :=
  forallb (fun it => negb (existsb (String.eqb (pngUrl it)) (revoked st)))
          (filter hasOutput snapshot).

(** The events of download [j] when nothing fails: the import, one
    fetch for each output of [snapshot], and the archive under [url]. *)
Definition downloadSchedule (j : nat) (snapshot : list Item) (url : string)
  : list DeskEvent :=
  (ImportSettled j true
   :: repeat (FetchSettled j) (List.length (filter hasOutput snapshot))
   ++ [ArchiveBuilt j url])%list.

(* ================================================================== *)
(** * More observations on items *)
(* ================================================================== *)

(** What a card shows of an item besides its conversion state. *)
Definition identity (it : Item) : string * File * string :=
  (id it, file it, previewUrl it).

(** How status, error message and output handle go together. *)
Definition coherent (it : Item) : Prop :=
  match status it with
  | idle => pngUrl it = "" /\ errorMsg it = ""
  | converting => errorMsg it = ""
  | error => errorMsg it = "Failed to convert"
  | done => True
  end.

(** The item [x] is the first of the list with the id [i]. *)
Definition firstWithId (i : string) (pre : list Item) (x : Item) : Prop :=
  id x = i /\ forall y, In y pre -> id y <> i.

(** The handles an event releases. *)
Definition releasedBy (e : Event) (st : App) : list string :=
  match e with
  | ClickRemove i =>
      match findItem i (files st) with
      | Some target => rev (handlesOf target)
      | None => []
      end
  | ClickClearAll | TimerFired => rev (flat_map handlesOf (files st))
  | _ => []
  end.

(** Every conversion a batch over [l] starts succeeds with a handle. *)
Definition allSucceed (oracle : Item -> Outcome) (l : list Item) : Prop :=
  forall it, In it l -> hasOutput it = false ->
             exists sw sh url, oracle it = Succeeds sw sh url /\ url <> "".

(** The events that settle a promise. *)
Definition isSettle (e : Event) : bool :=
  match e with
  | ImageSettled _ _ | BlobSettled _ _ => true
  | _ => false
  end.

(** A Convert & Download All handler that waits for thread [k] with the
    files [snapshot], or has gone on to [downloadAllZip] after the calls
    [dls]. *)
Definition downloadPending (k : nat) (snapshot : list Item)
  (dls : list Download) (d : Desk) : Prop :=
  (awaiting d = [(k, snapshot)] /\ downloads d = dls
   /\ threadFinished (world d) k = false)
  \/ (awaiting d = []
      /\ downloads d = (dls ++ [downloadAllZip snapshot])%list).

(** The handles released at an event of the desk. *)
Definition releasedAt (e : DeskEvent) (st : App) : list string :=
  match e with
  | Ev e => releasedBy e st
  | ArchiveBuilt _ url => [url]
  | _ => []
  end.

(** The value of the positive double [m * 2^e], scaled by [2^200] (an
    integer for [e >= -200]). *)
Definition mag (m : positive) (e : Z) : Z := Zpos m * 2 ^ (e + 200).

(** The double [t] is an integer between 1 and [limit]. *)
Definition fitsLimit (t : number) (limit : Z) : Prop :=
  exists n, t = JS.of_Z n /\ 1 <= n <= limit.

(** A [convertAll] call that has not returned yet. *)
Definition isRunAll (t : Thread) : bool :=
  match t with
  | RunAll _ _ _ => true
  | _ => false
  end.

Definition batchRunning (w : World) : bool := existsb isRunAll (threads w).

(* ================================================================== *)
(** * More sample data *)
(* ================================================================== *)

Module Cases.

(** The [k]-th item of a selection made from the empty store. *)
Definition itemOf (n : string) (k : nat) : Item :=
  createItem (Sample.jpg n) (Sample.fresh "p" k).

(** Every conversion succeeds. *)
Definition oracleOk (it : Item) : Outcome :=
  Succeeds 640 480 ("blob:out-" ++ name (file it)).

(** Two items, the first converted from its own button. *)
Definition firstConverted : World :=
  match run Sample.world2
            [ ClickConvert (Sample.idOf "a.jpg");
              ImageSettled 0 (Some (640, 480));
              BlobSettled 0 (Some "blob:a1") ] with
  | Some w => w
  | None => initialWorld
  end.

Definition desk : Desk := mkDesk firstConverted [] [] [].

(** The state in which the batch restarts the second item. *)
Definition restarted : World :=
  match run Sample.world2
            (Sample.staleRestart ++ [BlobSettled 0 (Some "blob:a1")]) with
  | Some w => w
  | None => initialWorld
  end.

(** Convert All, then Convert & Download All while the first item
    loads; both images of the first batch then fail to decode. *)
Definition twoBatches : list Event :=
  [ ClickConvertAll; ClickConvertDownloadAll;
    ImageSettled 0 None; ImageSettled 0 None ].

End Cases.

(* ================================================================== *)
(** * Basic facts about the store updaters *)
(* ================================================================== *)

Lemma mapItem_length i f l : List.length (mapItem i f l) = List.length l.
Proof. unfold mapItem. apply length_map. Qed.

Lemma createItems_length fresh k l :
  List.length (createItems fresh k l) = List.length l.
Proof. revert k. induction l as [|f l IH]; intros k; simpl; auto. Qed.

Lemma createItems_file fresh k l : map file (createItems fresh k l) = l.
Proof.
  revert k. induction l as [|f l IH]; intros k; simpl; [reflexivity|].
  now rewrite IH.
Qed.

Lemma files_onSelectFiles fresh lst st :
  files (onSelectFiles fresh lst st)
  = (files st ++ createItems fresh 0 (toAdd_of (files st) (valid_of lst)))%list.
Proof.
  unfold onSelectFiles.
  destruct lst as [|f0 lst0].
  - unfold toAdd_of, valid_of. simpl. rewrite firstn_nil. simpl.
    now rewrite app_nil_r.
  - destruct (valid_of (f0 :: lst0)) as [|v vs] eqn:Hv.
    + unfold toAdd_of. rewrite firstn_nil. simpl. now rewrite app_nil_r.
    + destruct (List.length _ <? List.length _)%nat; reflexivity.
Qed.

Lemma toAdd_of_length prev valid :
  Z.of_nat (List.length (toAdd_of prev valid))
  = Z.min (Z.max 0 (MAX_FILES - Z.of_nat (List.length prev)))
          (Z.of_nat (List.length valid)).
Proof. unfold toAdd_of. rewrite length_firstn. lia. Qed.

Lemma onSelectFiles_size fresh lst st :
  storeSize (onSelectFiles fresh lst st)
  = storeSize st
    + Z.min (Z.max 0 (MAX_FILES - storeSize st))
            (Z.of_nat (List.length (valid_of lst))).
Proof.
  unfold storeSize. rewrite files_onSelectFiles, length_app.
  rewrite createItems_length, Nat2Z.inj_add, toAdd_of_length. reflexivity.
Qed.

Lemma convertOne_call_size snapshot s i st :
  storeSize (fst (convertOne_call snapshot s i st)) = storeSize st.
Proof. unfold storeSize. simpl. now rewrite mapItem_length. Qed.

Lemma convertAll_loop_size snapshot s rest st :
  storeSize (fst (convertAll_loop snapshot s rest st)) = storeSize st.
Proof.
  revert st. induction rest as [|it rest IH]; intros st; simpl.
  - reflexivity.
  - destruct (String.eqb (pngUrl it) "").
    + destruct (findItem (id it) snapshot); simpl.
      * unfold storeSize. simpl. now rewrite mapItem_length.
      * rewrite IH. unfold storeSize. simpl. now rewrite mapItem_length.
    + apply IH.
Qed.

Lemma convertAll_size st : storeSize (fst (convertAll st)) = storeSize st.
Proof.
  unfold convertAll. destruct (files st) eqn:E; [reflexivity|].
  rewrite <- E, convertAll_loop_size. reflexivity.
Qed.

Lemma conv_loaded_size c r st :
  storeSize (fst (conv_loaded c r st)) = storeSize st.
Proof.
  unfold conv_loaded, storeSize. destruct r as [[w h]|]; simpl.
  - destruct (resolveTarget _ _ _). simpl. now rewrite mapItem_length.
  - now rewrite mapItem_length.
Qed.

Lemma conv_blob_size c r st : storeSize (conv_blob c r st) = storeSize st.
Proof.
  unfold conv_blob, storeSize. destruct r; simpl; now rewrite mapItem_length.
Qed.

Lemma files_revokeUrls it st : files (revokeUrls it st) = files st.
Proof.
  unfold revokeUrls, revokeIfSet.
  destruct (String.eqb (pngUrl it) ""), (String.eqb (previewUrl it) "");
    reflexivity.
Qed.

Lemma removeOne_size i st : storeSize (removeOne i st) <= storeSize st.
Proof.
  unfold removeOne, storeSize. simpl.
  destruct (findItem i (files st)); rewrite ?files_revokeUrls;
    apply Nat2Z.inj_le, filter_length_le.
Qed.

Lemma findIndex_lt i l k : findIndex i l = Some k -> (k < List.length l)%nat.
Proof.
  revert k. induction l as [|it l IH]; intros k; simpl; [discriminate|].
  destruct (id_is i it).
  - intros [= <-]. lia.
  - destruct (findIndex i l) as [k'|]; [|discriminate].
    intros [= <-]. specialize (IH k' eq_refl). lia.
Qed.

Lemma moveItem_size i delta st : storeSize (moveItem i delta st) = storeSize st.
Proof.
  unfold moveItem, storeSize. simpl.
  destruct (findIndex i (files st)) as [k|] eqn:Hk; [|reflexivity].
  pose proof (findIndex_lt _ _ _ Hk) as Hlt.
  destruct (nth_error (files st) k) as [item|] eqn:Hn; [|reflexivity].
  f_equal. unfold insertAt, removeAt.
  set (l := files st) in *.
  assert (Hr : List.length (firstn k l ++ skipn (S k) l)%list
               = (List.length l - 1)%nat).
  { rewrite length_app, length_firstn, length_skipn. lia. }
  revert Hr. generalize (firstn k l ++ skipn (S k) l)%list as l'.
  intros l' Hr.
  rewrite length_app. simpl. rewrite length_firstn, length_skipn, Hr. lia.
Qed.

Lemma clearAll_files st : files (clearAll st) = [].
Proof. reflexivity. Qed.

Lemma resumeLoaded_size t r st st' t' :
  resumeLoaded t r st = Some (st', t') -> storeSize st' = storeSize st.
Proof.
  destruct t as [c|c rest snap|]; simpl; [| |discriminate];
    destruct (conv_phase c); try discriminate.
  - pose proof (conv_loaded_size c r st) as H.
    destruct (conv_loaded c r st) as [s1 oc]. intros [= <- <-]. exact H.
  - pose proof (conv_loaded_size c r st) as H.
    destruct (conv_loaded c r st) as [s1 [c'|]].
    + intros [= <- <-]. exact H.
    + pose proof (convertAll_loop_size snap (conv_settings c) rest s1) as H2.
      destruct (convertAll_loop _ _ _ _). intros [= <- <-].
      simpl in *. lia.
Qed.

Lemma resumeBlob_size t r st st' t' :
  resumeBlob t r st = Some (st', t') -> storeSize st' = storeSize st.
Proof.
  destruct t as [c|c rest snap|]; simpl; [| |discriminate];
    destruct (conv_phase c); try discriminate.
  - intros [= <- <-]. apply conv_blob_size.
  - pose proof (convertAll_loop_size snap (conv_settings c) rest
                  (conv_blob c r st)) as H2.
    destruct (convertAll_loop _ _ _ _). intros [= <- <-].
    simpl in *. rewrite H2. apply conv_blob_size.
Qed.

(** No event makes a store of at most [MAX_FILES] items larger than
    [MAX_FILES]. *)
(** A guarded event that happened: its guard held, and the new world is
    the one built under it. *)
Ltac pass_guard H :=
  match type of H with
  | (if ?b then _ else _) = Some _ =>
      destruct b eqn:?; [|discriminate H]; injection H as <-
  end.

Lemma step_size w e w' :
  step w e = Some w' ->
  storeSize (app w) <= MAX_FILES -> storeSize (app w') <= MAX_FILES.
Proof.
  unfold step, guarded. intros H Hle.
  destruct e; simpl in H.
  - injection H as <-. simpl. rewrite onSelectFiles_size. lia.
  - pass_guard H.
    simpl. unfold storeSize in *. simpl. now rewrite mapItem_length.
  - pose proof (convertAll_size (app w)) as Hs.
    destruct (convertAll (app w)). pass_guard H. simpl in *. lia.
  - pose proof (convertAll_size (app w)) as Hs.
    destruct (convertAll (app w)). pass_guard H. simpl in *. lia.
  - pass_guard H. simpl. pose proof (removeOne_size i (app w)). lia.
  - pass_guard H. simpl. rewrite moveItem_size. exact Hle.
  - pass_guard H. unfold storeSize, MAX_FILES. simpl. lia.
  - pass_guard H. unfold storeSize, MAX_FILES. simpl. lia.
  - injection H as <-. exact Hle.
  - pass_guard H. unfold storeSize, MAX_FILES. simpl. lia.
  - destruct (nth_error _ _) as [t|]; [|discriminate].
    destruct (resumeLoaded t r (app w)) as [[s1 t1]|] eqn:E; [|discriminate].
    injection H as <-. simpl. rewrite (resumeLoaded_size _ _ _ _ _ E). exact Hle.
  - destruct (nth_error _ _) as [t|]; [|discriminate].
    destruct (resumeBlob t r (app w)) as [[s1 t1]|] eqn:E; [|discriminate].
    injection H as <-. simpl. rewrite (resumeBlob_size _ _ _ _ _ E). exact Hle.
Qed.

Lemma reachable_size w : reachable w -> storeSize (app w) <= MAX_FILES.
Proof.
  induction 1 as [|w e w' _ IH Hs].
  - unfold storeSize, MAX_FILES. simpl. lia.
  - exact (step_size _ _ _ Hs IH).
Qed.

Lemma In_valid_of f lst :
  In f (valid_of lst) <->
  In f lst /\
  (test_jpeg_type (type f) = true \/ test_jpeg_ext (name f) = true) /\
  size f <= 50 * 1024 * 1024.
Proof.
  unfold valid_of. rewrite filter_In, andb_true_iff.
  unfold isJpg, underSize, MAX_SIZE_MB.
  rewrite orb_true_iff, Z.leb_le. tauto.
Qed.

(* ================================================================== *)
(** * The validator *)
(* ================================================================== *)

Example test_jpeg_ext_samples :
  map test_jpeg_ext ["photo.JPG"; "a.jpeg"; "a.png"; "jpg"; ".jpg"; "a.jpg.txt"]
  = [true; true; false; false; true; false].
Proof. reflexivity. Qed.

Example test_jpeg_type_samples :
  map test_jpeg_type ["image/jpeg"; "IMAGE/JPG"; "image/png"; "image/jpeg ";
                      "ximage/jpeg"; ""]
  = [true; true; false; false; false; false].
Proof. reflexivity. Qed.

Lemma reachable_world19 : reachable Sample.world19.
Proof.
  apply (reach_step initialWorld
           (SelectFiles (Sample.fresh "p") (repeat (Sample.jpg "x.jpg") 19))).
  - exact reach_init.
  - reflexivity.
Defined.

(** C1.  In every reachable state and for every list of candidate files,
    the validator's [valid] list holds exactly the offered files whose
    media type or extension says JPEG and whose size is at most
    [50 * 1024 * 1024] bytes; the store grows by items for the first
    [20 - size] of them, in order, so every added file is a valid one,
    every valid one is added when the capacity suffices, and the store
    ends with [min 20 (size + number of valid files)] items, never more
    than 20. *)
Theorem C1_validator_admits_jpeg_under_cap :
  forall (fresh : nat -> Fresh) (lst : list File) (w : World),
    reachable w ->
    let st := app w in
    let st' := onSelectFiles fresh lst st in
    (forall f, In f (valid_of lst) <->
               In f lst /\
               (test_jpeg_type (type f) = true \/
                test_jpeg_ext (name f) = true) /\
               size f <= 52428800)
    /\ map file (files st')
       = (map file (files st)
          ++ firstn (Z.to_nat (20 - storeSize st)) (valid_of lst))%list
    /\ (storeSize st + Z.of_nat (List.length (valid_of lst)) <= 20 ->
        map file (files st') = (map file (files st) ++ valid_of lst)%list)
    /\ storeSize st' = Z.min 20 (storeSize st
                                 + Z.of_nat (List.length (valid_of lst)))
    /\ storeSize st' <= 20.
Proof.
  intros fresh lst w Hr st st'.
  pose proof (reachable_size w Hr) as Hle. fold st in Hle.
  unfold MAX_FILES in Hle.
  assert (Hfiles : map file (files st')
                   = (map file (files st)
                      ++ firstn (Z.to_nat (20 - storeSize st))
                                (valid_of lst))%list).
  { unfold st'. rewrite files_onSelectFiles, map_app, createItems_file.
    unfold toAdd_of, MAX_FILES. fold (storeSize st).
    now rewrite Z.max_r by lia. }
  assert (Hsize : storeSize st'
                  = Z.min 20 (storeSize st
                              + Z.of_nat (List.length (valid_of lst)))).
  { unfold st'. rewrite onSelectFiles_size. unfold MAX_FILES. lia. }
  split; [intro f; apply In_valid_of|].
  split; [exact Hfiles|].
  split.
  - intro Hcap. rewrite Hfiles. f_equal. apply firstn_all2. lia.
  - split; [exact Hsize | lia].
Qed.

Lemma C1_validator_witness :
  reachable Sample.world19 /\
  map name (map file (files (onSelectFiles (Sample.fresh "q") Sample.offer
                                            (app Sample.world19))))
  = (repeat "x.jpg" 19 ++ ["one.jpg"])%list /\
  map name (valid_of Sample.offer) = ["one.jpg"; "two.JPEG"; "three.jpeg"] /\
  storeSize (onSelectFiles (Sample.fresh "q") Sample.offer
                           (app Sample.world19)) = 20.
Proof.
  pose proof (C1_validator_admits_jpeg_under_cap
                (Sample.fresh "q") Sample.offer Sample.world19
                reachable_world19) as H.
  cbv zeta in H. destruct H as (_ & Hfiles & _ & Hsize & _).
  split; [exact reachable_world19|].
  split; [rewrite Hfiles; reflexivity|].
  split; [reflexivity|].
  rewrite Hsize. reflexivity.
Defined.

(* ================================================================== *)
(** * Clearing the batch *)
(* ================================================================== *)

Lemma revokeUrls_spec it st :
  revokeUrls it st
  = mkApp (files st) (isConvertingAll st) (appError st) (settings st)
          (inputValue st) (rev (handlesOf it) ++ revoked st)%list.
Proof.
  unfold revokeUrls, revokeIfSet, handlesOf, logRevoke.
  destruct st as [fs b e s v r]. simpl.
  destruct (String.eqb (pngUrl it) ""), (String.eqb (previewUrl it) "");
    reflexivity.
Qed.

Lemma revokeAll_spec l st :
  revokeAll l st
  = mkApp (files st) (isConvertingAll st) (appError st) (settings st)
          (inputValue st) (rev (flat_map handlesOf l) ++ revoked st)%list.
Proof.
  unfold revokeAll. revert st.
  induction l as [|it l IH]; intros st; simpl.
  - now destruct st.
  - rewrite IH, revokeUrls_spec. simpl.
    now rewrite rev_app_distr, <- app_assoc.
Qed.

(** C7.  In every state, Clear all releases each handle of each item (the
    preview handle and, where there is one, the output handle: the
    release log grows by exactly these, once each), leaves an empty
    store, an empty error banner and an empty file input, and leaves the
    six settings as they were. *)
Theorem C7_clearAll_keeps_settings :
  forall st : App,
    let st' := clearAll st in
    files st' = []
    /\ appError st' = ""
    /\ inputValue st' = ""
    /\ revoked st' = (rev (flat_map handlesOf (files st)) ++ revoked st)%list
    /\ incl (flat_map handlesOf (files st)) (revoked st')
    /\ settings st' = settings st
    /\ (outputFormat (settings st'), quality (settings st'),
        maxWidth (settings st'), maxHeight (settings st'),
        fitMode (settings st'), keepAspect (settings st'))
       = (outputFormat (settings st), quality (settings st),
          maxWidth (settings st), maxHeight (settings st),
          fitMode (settings st), keepAspect (settings st)).
Proof.
  intros st st'.
  assert (Hrev : revoked st'
                 = (rev (flat_map handlesOf (files st)) ++ revoked st)%list).
  { unfold st', clearAll, reset. simpl. now rewrite revokeAll_spec. }
  assert (Hset : settings st' = settings st).
  { unfold st', clearAll, reset. simpl. now rewrite revokeAll_spec. }
  repeat split; try reflexivity; try exact Hrev; try exact Hset.
  - intros u Hu. rewrite Hrev. apply in_or_app. left.
    now apply in_rev in Hu.
  - now rewrite Hset.
Qed.

(* ================================================================== *)
(** * Operations on an id the store does not hold *)
(* ================================================================== *)

Lemma absent_id_is i st it : absent i st -> In it (files st) -> id_is i it = false.
Proof. intros Ha Hin. apply String.eqb_neq. exact (Ha it Hin). Qed.

Lemma setFiles_same f st : f (files st) = files st -> setFiles f st = st.
Proof. unfold setFiles. intros ->. now destruct st. Qed.

Lemma mapItem_absent i f st : absent i st -> mapItem i f (files st) = files st.
Proof.
  intros Ha. unfold mapItem.
  rewrite <- (map_id (files st)) at 2.
  apply map_ext_in. intros it Hin. now rewrite (absent_id_is i st it).
Qed.

Lemma findIndex_absent i st : absent i st -> findIndex i (files st) = None.
Proof.
  unfold absent. induction (files st) as [|it l IH]; intros Ha; simpl.
  - reflexivity.
  - assert (H : id_is i it = false).
    { apply String.eqb_neq. apply Ha. now left. }
    rewrite H, IH; [reflexivity|]. intros x Hx. apply Ha. now right.
Qed.

Lemma findItem_absent i st : absent i st -> findItem i (files st) = None.
Proof.
  intros Ha. unfold findItem.
  destruct (find (id_is i) (files st)) as [it|] eqn:E; [|reflexivity].
  apply find_some in E. destruct E as [Hin Hid].
  now rewrite (absent_id_is i st it Ha Hin) in Hid.
Qed.

Lemma filter_absent i st :
  absent i st -> filter (fun f => negb (id_is i f)) (files st) = files st.
Proof.
  intros Ha. apply forallb_filter_id. apply forallb_forall.
  intros it Hin. now rewrite (absent_id_is i st it Ha Hin).
Qed.

(** C9.  When no item of the store has the id, [moveItem], [removeOne]
    and every piece of [convertOne] (its start, the stored size after a
    load, its completion with an output, its failure) return the state
    they were given: the items, their order and fields, and the release
    log are the same.  This holds whatever [files] snapshot the
    [convertOne] call closed over and however its promises settle. *)
Theorem C9_absent_id_leaves_store_unchanged :
  forall (i : string) (st : App),
    absent i st ->
    (forall delta, moveItem i delta st = st)
    /\ removeOne i st = st
    /\ (forall snapshot s, fst (convertOne_call snapshot s i st) = st)
    /\ (forall c r, conv_id c = i -> id (conv_target c) = i ->
                    fst (conv_loaded c r st) = st)
    /\ (forall c r, conv_id c = i -> conv_blob c r st = st).
Proof.
  intros i st Ha. repeat split.
  - intros delta. unfold moveItem. apply setFiles_same.
    now rewrite findIndex_absent.
  - unfold removeOne. rewrite findItem_absent by assumption.
    apply setFiles_same. now apply filter_absent.
  - intros snapshot s. simpl. unfold convertOne_start.
    apply setFiles_same. now apply mapItem_absent.
  - intros c r Hc Ht. unfold conv_loaded.
    destruct r as [[w h]|].
    + rewrite Ht. destruct (resolveTarget _ _ _). simpl.
      apply setFiles_same. now apply mapItem_absent.
    + simpl. rewrite Hc. unfold convertOne_failed.
      apply setFiles_same. now apply mapItem_absent.
  - intros c r Hc. unfold conv_blob. rewrite Hc.
    destruct r; [unfold convertOne_done | unfold convertOne_failed];
      apply setFiles_same; now apply mapItem_absent.
Qed.

Lemma C9_absent_id_witness :
  absent "ghost" (app Sample.world5)
  /\ moveItem "ghost" 1 (app Sample.world5) = app Sample.world5
  /\ removeOne "ghost" (app Sample.world5) = app Sample.world5
  /\ fst (convertOne_call [Sample.ghost] initialSettings
                          "ghost" (app Sample.world5))
     = app Sample.world5
  /\ fst (conv_loaded Sample.ghostConv (Some (640, 480)) (app Sample.world5))
     = app Sample.world5
  /\ conv_blob Sample.ghostConv (Some "blob:late") (app Sample.world5)
     = app Sample.world5.
Proof.
  assert (Ha : absent "ghost" (app Sample.world5)).
  { intros it Hin. vm_compute in Hin.
    repeat (destruct Hin as [<- | Hin]; [discriminate|]). contradiction. }
  destruct (C9_absent_id_leaves_store_unchanged "ghost" (app Sample.world5) Ha)
    as (Hm & Hr & Hc & Hl & Hb).
  split; [exact Ha|].
  split; [apply Hm|]. split; [exact Hr|]. split; [apply Hc|].
  split; [apply Hl; reflexivity | apply Hb; reflexivity].
Defined.

(* ================================================================== *)
(** * Archive entry names *)
(* ================================================================== *)

Lemma append_inj_l (p a b : string) : (p ++ a = p ++ b)%string -> a = b.
Proof.
  induction p as [|c p IH]; simpl; intros H; [exact H|].
  injection H as H. exact (IH H).
Qed.

(** C4 (what the code does).  The archive entry of an item is its file
    name with a final [.jpg]/[.jpeg] removed and [.png] appended, that
    is, the download name for the PNG format, whichever output format is
    selected; for WebP and JPEG it differs from the name the item's own
    download link carries.  With WebP selected [holiday.jpg] is archived
    as [holiday.png] while its link downloads [holiday.webp]. *)
Theorem C4_archive_entry_is_named_png :
  forall (f : Format) (it : Item),
    zipEntryName it = downloadName png it
    /\ (f <> png -> zipEntryName it <> downloadName f it)
    /\ zipEntries [Sample.photo "holiday.jpg" "blob:o1"]
       = [("holiday.png", "blob:o1")]
    /\ downloadName webp (Sample.photo "holiday.jpg" "blob:o1")
       = "holiday.webp".
Proof.
  intros f it. split; [reflexivity|]. split; [|split; reflexivity].
  intros Hf Heq. unfold zipEntryName, downloadName in Heq.
  apply append_inj_l in Heq. destruct f; [now apply Hf | discriminate..].
Qed.

(* ================================================================== *)
(** * Determinism of the resolved size *)
(* ================================================================== *)

Lemma conv_loaded_resolved c w h st :
  option_map resolvedSize (snd (conv_loaded c (Some (w, h)) st))
  = Some (Some (resolveTarget (conv_settings c) (JS.of_Z w) (JS.of_Z h))).
Proof.
  unfold conv_loaded. destruct (resolveTarget _ _ _) as [tw th]. reflexivity.
Qed.

Lemma nth_error_setThread k t ths :
  (k < List.length ths)%nat -> nth_error (setThread k t ths) k = Some t.
Proof.
  intros H. unfold setThread.
  rewrite nth_error_app2 by (rewrite length_firstn; lia).
  rewrite length_firstn, Nat.min_l, Nat.sub_diag by lia. reflexivity.
Qed.

Lemma step_ImageSettled_resolved w k c a b w' :
  threadConv w k = Some c ->
  step w (ImageSettled k (Some (a, b))) = Some w' ->
  option_map resolvedSize (threadConv w' k)
  = Some (Some (resolveTarget (conv_settings c) (JS.of_Z a) (JS.of_Z b))).
Proof.
  unfold threadConv, step.
  destruct (nth_error (threads w) k) as [t|] eqn:Hn; [|discriminate].
  assert (Hk : (k < List.length (threads w))%nat).
  { apply nth_error_Some. now rewrite Hn. }
  intros Hc.
  destruct t as [c0|c0 rest snapshot|]; simpl in Hc; [| |discriminate];
    injection Hc as ->; simpl;
    destruct (conv_phase c); try discriminate;
    destruct (resolveTarget _ _ _) as [tw th];
    intros [= <-]; simpl; rewrite nth_error_setThread by assumption;
    reflexivity.
Qed.

(** C8.  Two conversion attempts that run under equal settings and
    decode the same pixel size resolve the same target size, whatever
    the store holds at either time and whatever the item's fields were
    when each attempt closed over it; the size is
    [resolveTarget settings width height].  The same holds in the event
    system for any two conversions in flight, in the same or in
    different states, whether started from an item's button or by a
    batch. *)
Theorem C8_resolved_size_is_deterministic :
  (forall (c1 c2 : Conv) (w h : Z) (st1 st2 : App),
      conv_settings c1 = conv_settings c2 ->
      option_map resolvedSize (snd (conv_loaded c1 (Some (w, h)) st1))
      = option_map resolvedSize (snd (conv_loaded c2 (Some (w, h)) st2))
      /\ option_map resolvedSize (snd (conv_loaded c1 (Some (w, h)) st1))
         = Some (Some (resolveTarget (conv_settings c1)
                                     (JS.of_Z w) (JS.of_Z h))))
  /\ (forall (w1 w2 w1' w2' : World) (k1 k2 : nat) (c1 c2 : Conv)
             (w h : Z),
         threadConv w1 k1 = Some c1 ->
         threadConv w2 k2 = Some c2 ->
         conv_settings c1 = conv_settings c2 ->
         step w1 (ImageSettled k1 (Some (w, h))) = Some w1' ->
         step w2 (ImageSettled k2 (Some (w, h))) = Some w2' ->
         option_map resolvedSize (threadConv w1' k1)
         = option_map resolvedSize (threadConv w2' k2)).
Proof.
  split.
  - intros c1 c2 w h st1 st2 Hs.
    rewrite !conv_loaded_resolved, Hs. split; reflexivity.
  - intros w1 w2 w1' w2' k1 k2 c1 c2 w h H1 H2 Hs S1 S2.
    rewrite (step_ImageSettled_resolved _ _ _ _ _ _ H1 S1).
    rewrite (step_ImageSettled_resolved _ _ _ _ _ _ H2 S2).
    now rewrite Hs.
Qed.

Lemma C8_resolved_size_witness :
  option_map resolvedSize
    (snd (conv_loaded Sample.firstTry (Some (1600, 1200)) (app Sample.world2)))
  = option_map resolvedSize
      (snd (conv_loaded Sample.retry (Some (1600, 1200)) initialApp)).
Proof.
  exact (proj1 (proj1 C8_resolved_size_is_deterministic
                  Sample.firstTry Sample.retry 1600 1200
                  (app Sample.world2) initialApp eq_refl)).
Defined.

(* ================================================================== *)
(** * An uninterrupted batch *)
(* ================================================================== *)

Lemma run_app w es1 es2 :
  run w (es1 ++ es2)
  = match run w es1 with
    | Some w' => run w' es2
    | None => None
    end.
Proof.
  revert w. induction es1 as [|e es1 IH]; intros w; simpl; [reflexivity|].
  destruct (step w e); [apply IH | reflexivity].
Qed.

Lemma run_cons w e es :
  run w (e :: es)
  = match step w e with
    | Some w' => run w' es
    | None => None
    end.
Proof. reflexivity. Qed.

Lemma nth_error_last {A} (l : list A) (x : A) :
  nth_error (l ++ [x]) (List.length l) = Some x.
Proof. rewrite nth_error_app2, Nat.sub_diag by lia. reflexivity. Qed.

Lemma setThread_last ths t t' :
  setThread (List.length ths) t' (ths ++ [t]) = (ths ++ [t'])%list.
Proof.
  unfold setThread.
  rewrite firstn_app, Nat.sub_diag, firstn_all, skipn_app.
  rewrite skipn_all2 by lia.
  replace (S (List.length ths) - List.length ths)%nat with 1%nat by lia.
  simpl. now rewrite app_nil_r.
Qed.

Lemma step_ImageSettled_last st ths t r st' t' :
  resumeLoaded t r st = Some (st', t') ->
  step (mkWorld st (ths ++ [t])) (ImageSettled (List.length ths) r)
  = Some (mkWorld st' (ths ++ [t'])).
Proof.
  intros H. unfold step. simpl. rewrite nth_error_last, H.
  now rewrite setThread_last.
Qed.

Lemma step_BlobSettled_last st ths t r st' t' :
  resumeBlob t r st = Some (st', t') ->
  step (mkWorld st (ths ++ [t])) (BlobSettled (List.length ths) r)
  = Some (mkWorld st' (ths ++ [t'])).
Proof.
  intros H. unfold step. simpl. rewrite nth_error_last, H.
  now rewrite setThread_last.
Qed.

Lemma findItem_first i pre it post :
  id it = i -> (forall y, In y pre -> id y <> i) ->
  findItem i (pre ++ it :: post) = Some it.
Proof.
  intros Hid Hpre. unfold findItem.
  induction pre as [|y pre IH]; simpl.
  - unfold id_is. rewrite Hid, String.eqb_refl. reflexivity.
  - assert (Hy : id_is i y = false).
    { apply String.eqb_neq. apply Hpre. now left. }
    rewrite Hy. apply IH. intros z Hz. apply Hpre. now right.
Qed.

Lemma mapItem_others i f l :
  (forall y, In y l -> id y <> i) -> mapItem i f l = l.
Proof.
  intros H. unfold mapItem. rewrite <- (map_id l) at 2.
  apply map_ext_in. intros y Hy.
  assert (E : id_is i y = false) by (apply String.eqb_neq; auto).
  now rewrite E.
Qed.

Lemma mapItem_at i f pre x post :
  id x = i ->
  (forall y, In y pre -> id y <> i) ->
  (forall y, In y post -> id y <> i) ->
  mapItem i f (pre ++ x :: post) = (pre ++ f x :: post)%list.
Proof.
  intros Hx Hpre Hpost.
  pose proof (mapItem_others i f pre Hpre) as E1.
  pose proof (mapItem_others i f post Hpost) as E2.
  unfold mapItem in *. rewrite map_app. simpl. rewrite E1, E2.
  unfold id_is. rewrite Hx, String.eqb_refl. reflexivity.
Qed.

Lemma attempt_id oracle it : id (attempt oracle it) = id it.
Proof.
  unfold attempt, converted.
  destruct (hasOutput it); [reflexivity|]. now destruct (oracle it).
Qed.

Lemma NoDup_split_ids (pre : list Item) it post :
  NoDup (map id (pre ++ it :: post)) ->
  (forall y, In y pre -> id y <> id it)
  /\ (forall y, In y post -> id y <> id it).
Proof.
  rewrite map_app. simpl. intros H.
  apply NoDup_remove_2 in H.
  split; intros y Hy E; apply H, in_or_app.
  - left. rewrite <- E. now apply in_map.
  - right. rewrite <- E. now apply in_map.
Qed.

Lemma attempt_pre_ids oracle (pre : list Item) i :
  (forall y, In y pre -> id y <> i) ->
  forall y, In y (map (attempt oracle) pre) -> id y <> i.
Proof.
  intros H y Hy. apply in_map_iff in Hy. destruct Hy as (x & <- & Hx).
  rewrite attempt_id. auto.
Qed.

(** An update keyed by the id of the item that sits between the already
    visited items and the rest reaches that item only. *)
Lemma mapItem_mid oracle pre it post (g : Item -> Item) x :
  NoDup (map id (pre ++ it :: post)) ->
  id x = id it ->
  mapItem (id it) g (map (attempt oracle) pre ++ x :: post)
  = (map (attempt oracle) pre ++ g x :: post)%list.
Proof.
  intros Hnd Hx. destruct (NoDup_split_ids _ _ _ Hnd) as [Hpre Hpost].
  apply mapItem_at; auto. now apply attempt_pre_ids.
Qed.

Lemma attempt_snoc oracle pre it rest :
  (map (attempt oracle) (pre ++ [it]) ++ rest)%list
  = (map (attempt oracle) pre ++ attempt oracle it :: rest)%list.
Proof. rewrite map_app, <- app_assoc. reflexivity. Qed.

Lemma batch_loop_runs oracle snapshot s ths :
  NoDup (map id snapshot) ->
  forall rest pre st,
    snapshot = (pre ++ rest)%list ->
    files st = (map (attempt oracle) pre ++ rest)%list ->
    exists st2,
      run (mkWorld (fst (convertAll_loop snapshot s rest st))
                   (ths ++ [snd (convertAll_loop snapshot s rest st)]))
          (batchSchedule oracle (List.length ths) rest)
      = Some (mkWorld st2 (ths ++ [Finished]))
      /\ files st2 = map (attempt oracle) snapshot
      /\ isConvertingAll st2 = false.
Proof.
  intros Hnd. induction rest as [|it rest IH]; intros pre st Hsnap Hfiles.
  - simpl. exists (setIsConvertingAll false st). repeat split.
    simpl. rewrite Hfiles, Hsnap, !app_nil_r. reflexivity.
  - assert (Hsnap' : snapshot = ((pre ++ [it]) ++ rest)%list)
      by (rewrite <- app_assoc; exact Hsnap).
    pose proof Hnd as Hnd'. rewrite Hsnap in Hnd'.
    destruct (NoDup_split_ids _ _ _ Hnd') as [Hpre _].
    unfold batchSchedule. simpl flat_map. fold (batchSchedule oracle (List.length ths) rest).
    simpl convertAll_loop. unfold hasOutput.
    destruct (String.eqb (pngUrl it) "") eqn:Hp; simpl negb; cbv iota.
    + assert (Hatt : attempt oracle it = converted (oracle it) it).
      { unfold attempt, hasOutput. now rewrite Hp. }
      assert (Hfind : findItem (id it) snapshot = Some it).
      { rewrite Hsnap. now apply findItem_first. }
      rewrite Hfind. simpl fst. simpl snd.
      set (c := mkConv (id it) it s AwaitLoad).
      set (st1 := convertOne_start (id it) st).
      assert (Hf1 : files st1
                    = (map (attempt oracle) pre ++ markConverting it :: rest)%list).
      { unfold st1. simpl. rewrite Hfiles. now apply mapItem_mid. }
      destruct (oracle it) as [|w h|w h url] eqn:Ho; simpl settleEvents.
      * cbn [List.app]. rewrite run_cons.
        rewrite (step_ImageSettled_last st1 ths (RunAll c rest snapshot) None
                   (fst (convertAll_loop snapshot s rest
                           (convertOne_failed (id it) st1)))
                   (snd (convertAll_loop snapshot s rest
                           (convertOne_failed (id it) st1))))
          by (simpl; now rewrite <- surjective_pairing).
        apply (IH (pre ++ [it])%list); [exact Hsnap'|].
        change (files (convertOne_failed (id it) st1))
          with (mapItem (id it) markError (files st1)).
        rewrite Hf1, attempt_snoc, Hatt.
        now apply (mapItem_mid oracle pre it rest markError (markConverting it)).
      * cbn [List.app].
        set (st2 := setFiles (mapItem (id it) (withSize w h)) st1).
        destruct (resolveTarget s (JS.of_Z w) (JS.of_Z h)) as [tw th] eqn:Hres.
        set (c' := mkConv (id it) it s (AwaitBlob tw th)).
        rewrite run_cons.
        rewrite (step_ImageSettled_last st1 ths (RunAll c rest snapshot)
                   (Some (w, h)) st2 (RunAll c' rest snapshot))
          by (simpl; rewrite Hres; reflexivity).
        rewrite run_cons.
        rewrite (step_BlobSettled_last st2 ths (RunAll c' rest snapshot) None
                   (fst (convertAll_loop snapshot s rest
                           (convertOne_failed (id it) st2)))
                   (snd (convertAll_loop snapshot s rest
                           (convertOne_failed (id it) st2))))
          by (simpl; now rewrite <- surjective_pairing).
        apply (IH (pre ++ [it])%list); [exact Hsnap'|].
        change (files (convertOne_failed (id it) st2))
          with (mapItem (id it) markError
                        (mapItem (id it) (withSize w h) (files st1))).
        rewrite Hf1, attempt_snoc, Hatt.
        rewrite (mapItem_mid oracle pre it rest (withSize w h)) by auto.
        now apply (mapItem_mid oracle pre it rest markError
                     (withSize w h (markConverting it))).
      * cbn [List.app].
        set (st2 := setFiles (mapItem (id it) (withSize w h)) st1).
        destruct (resolveTarget s (JS.of_Z w) (JS.of_Z h)) as [tw th] eqn:Hres.
        set (c' := mkConv (id it) it s (AwaitBlob tw th)).
        rewrite run_cons.
        rewrite (step_ImageSettled_last st1 ths (RunAll c rest snapshot)
                   (Some (w, h)) st2 (RunAll c' rest snapshot))
          by (simpl; rewrite Hres; reflexivity).
        rewrite run_cons.
        rewrite (step_BlobSettled_last st2 ths (RunAll c' rest snapshot)
                   (Some url)
                   (fst (convertAll_loop snapshot s rest
                           (convertOne_done (id it) url st2)))
                   (snd (convertAll_loop snapshot s rest
                           (convertOne_done (id it) url st2))))
          by (simpl; now rewrite <- surjective_pairing).
        apply (IH (pre ++ [it])%list); [exact Hsnap'|].
        change (files (convertOne_done (id it) url st2))
          with (mapItem (id it) (markDone url)
                        (mapItem (id it) (withSize w h) (files st1))).
        rewrite Hf1, attempt_snoc, Hatt.
        rewrite (mapItem_mid oracle pre it rest (withSize w h)) by auto.
        now apply (mapItem_mid oracle pre it rest (markDone url)
                     (withSize w h (markConverting it))).
    + simpl app.
      apply (IH (pre ++ [it])%list); [exact Hsnap'|].
      rewrite Hfiles, attempt_snoc. unfold attempt, hasOutput.
      now rewrite Hp.
Qed.

Lemma attempt_settledAs oracle it : settledAs oracle it (attempt oracle it).
Proof.
  unfold settledAs. rewrite attempt_id. unfold attempt.
  destruct (hasOutput it) eqn:Ho; [repeat split|].
  destruct (oracle it); simpl; repeat split.
  all: unfold hasOutput in Ho; apply negb_false_iff in Ho;
    now apply String.eqb_eq in Ho.
Qed.

Lemma Forall2_map_r {A B} (R : A -> B -> Prop) (f : A -> B) l :
  (forall x, R x (f x)) -> Forall2 R l (map f l).
Proof. intros H. induction l; simpl; constructor; auto. Qed.

Lemma attempt_success oracle it w h url :
  hasOutput it = false -> oracle it = Succeeds w h url -> url <> "" ->
  status (attempt oracle it) = done
  /\ hasOutput (attempt oracle it) = true.
Proof.
  intros Ho Hs Hu. unfold attempt. rewrite Ho, Hs. simpl. split; [reflexivity|].
  unfold hasOutput. simpl. apply negb_true_iff. now apply String.eqb_neq.
Qed.

Lemma attempt_load_failure oracle it :
  hasOutput it = false -> oracle it = LoadFails ->
  status (attempt oracle it) = error
  /\ hasOutput (attempt oracle it) = false.
Proof.
  intros Ho Hs. unfold attempt. rewrite Ho, Hs. simpl. split; [reflexivity|].
  exact Ho.
Qed.

(** C5.  From any state whose items have distinct ids and where Convert
    All can be clicked, the batch run with no other event in between
    terminates, for every way the browser settles the conversions; it
    leaves each item as its own conversion left it (an item whose load or
    encoding failed ends in status [error] with the message
    ["Failed to convert"], an item that converted ends in [done] with its
    output handle, an item that already had an output is untouched), goes
    through every item after a failure, and clears the in-progress flag.
    With five items of which the second fails to load and the others
    convert, the statuses end as done, error, done, done, done and the
    counter shows 4 of 5. *)
Theorem C5_batch_failure_is_local :
  forall (oracle : Item -> Outcome) (w : World),
    NoDup (map id (files (app w))) ->
    anySelected (app w) = true ->
    convertAllDisabled (app w) = false ->
    exists w',
      run w (ClickConvertAll
               :: batchSchedule oracle (List.length (threads w))
                                (files (app w)))
      = Some w'
      /\ files (app w') = map (attempt oracle) (files (app w))
      /\ Forall2 (settledAs oracle) (files (app w)) (files (app w'))
      /\ isConvertingAll (app w') = false
      /\ threads w' = (threads w ++ [Finished])%list
      /\ (forall i1 i2 i3 i4 i5,
            files (app w) = [i1; i2; i3; i4; i5] ->
            Forall (fun it => hasOutput it = false) [i1; i2; i3; i4; i5] ->
            oracle i2 = LoadFails ->
            Forall (fun it => exists sw sh url,
                        oracle it = Succeeds sw sh url /\ url <> "")
                   [i1; i3; i4; i5] ->
            map status (files (app w')) = [done; error; done; done; done]
            /\ convertedCount (app w') = 4%nat
            /\ List.length (files (app w')) = 5%nat).
Proof.
  intros oracle w Hnd Hany Hdis.
  destruct w as [st ths]. cbn [app threads] in *.
  destruct (batch_loop_runs oracle (files st) (settings st) ths Hnd
              (files st) [] (setIsConvertingAll true st) eq_refl eq_refl)
    as (st2 & Hrun & Hfiles & Hflag).
  exists (mkWorld st2 (ths ++ [Finished])%list).
  split.
  { rewrite run_cons. unfold step. cbn [app threads].
    assert (Hc : convertAll st
                 = convertAll_loop (files st) (settings st) (files st)
                                   (setIsConvertingAll true st)).
    { unfold convertAll. unfold anySelected in Hany.
      destruct (files st); [discriminate | reflexivity]. }
    rewrite Hc, (surjective_pairing (convertAll_loop _ _ _ _)).
    rewrite Hany, Hdis. exact Hrun. }
  cbn [app threads]. split; [exact Hfiles|].
  split; [rewrite Hfiles; apply Forall2_map_r, attempt_settledAs|].
  split; [exact Hflag|]. split; [reflexivity|].
  intros i1 i2 i3 i4 i5 Hf Hout Hfail Hok.
  unfold convertedCount. simpl. rewrite Hfiles, Hf.
  repeat match goal with
         | H : Forall _ (_ :: _) |- _ => inversion H; subst; clear H
         end.
  repeat match goal with
         | H : exists _, _ |- _ => destruct H
         | H : _ /\ _ |- _ => destruct H
         end.
  repeat match goal with
         | Ho : hasOutput ?i = false, Hs : oracle ?i = Succeeds _ _ _,
           Hu : _ <> "" |- _ =>
             destruct (attempt_success oracle i _ _ _ Ho Hs Hu) as [? ?];
             clear Hs
         end.
  match goal with
  | Ho : hasOutput i2 = false |- _ =>
      destruct (attempt_load_failure oracle i2 Ho Hfail) as [? ?]
  end.
  simpl.
  repeat match goal with
         | H : status _ = _ |- _ => rewrite H; clear H
         | H : hasOutput (attempt _ _) = _ |- _ => rewrite H; clear H
         end.
  repeat split.
Qed.

Lemma C5_batch_witness :
  exists w',
    run Sample.world5
        (ClickConvertAll
           :: batchSchedule Sample.oracle5 0 (files (app Sample.world5)))
    = Some w'
    /\ map status (files (app w')) = [done; error; done; done; done]
    /\ map errorMsg (files (app w')) = [""; "Failed to convert"; ""; ""; ""]
    /\ convertedCount (app w') = 4%nat
    /\ List.length (files (app w')) = 5%nat.
Proof.
  assert (Hnd : NoDup (map id (files (app Sample.world5)))).
  { vm_compute.
    repeat (constructor; [simpl; intuition discriminate|]). constructor. }
  destruct (C5_batch_failure_is_local Sample.oracle5 Sample.world5
              Hnd eq_refl eq_refl)
    as (w' & Hrun & Hfiles & _).
  exists w'. split; [exact Hrun|].
  unfold convertedCount. rewrite Hfiles. vm_compute. repeat split.
Defined.

(* ================================================================== *)
(** * Conversion triggers and the output handle *)
(* ================================================================== *)

Lemma reachable_run w es w' : reachable w -> run w es = Some w' -> reachable w'.
Proof.
  revert w. induction es as [|e es IH]; intros w Hr; simpl.
  - intros [= <-]. exact Hr.
  - destruct (step w e) as [w1|] eqn:Hs; [|discriminate].
    apply IH. exact (reach_step w e w1 Hr Hs).
Qed.

Lemma reachable_world2 : reachable Sample.world2.
Proof.
  apply (reach_step initialWorld
           (SelectFiles (Sample.fresh "p")
                        (map Sample.jpg ["a.jpg"; "b.jpg"]))).
  - exact reach_init.
  - reflexivity.
Qed.



















(** C6 (what the code does).  While the in-progress flag is set the
    Convert All button is disabled, but the Convert button of an item is
    disabled by that item's own status only, and the Convert & Download
    All button is never disabled.  With two items selected, after a click
    on Convert All the flag is set and the second item's Convert button
    and the Convert & Download All button can both be clicked; after a
    click on that Convert button and the completion of the first item,
    two conversions of the second item are in flight while the flag is
    still set. *)
Theorem C6_item_trigger_enabled_during_batch :
  (forall st, isConvertingAll st = true -> convertAllDisabled st = true)
  /\ exists w1 w2,
       run Sample.world2 [ClickConvertAll] = Some w1
       /\ reachable w1
       /\ isConvertingAll (app w1) = true
       /\ convertEnabled (Sample.idOf "b.jpg") (app w1) = true
       /\ convertDownloadAllShown (app w1) = true
       /\ run Sample.world2 Sample.doubleStart = Some w2
       /\ reachable w2
       /\ isConvertingAll (app w2) = true
       /\ inFlight (Sample.idOf "b.jpg") w2 = 2%nat.
Proof.
  split.
  - intros st H. unfold convertAllDisabled. now rewrite H.
  - destruct (run Sample.world2 [ClickConvertAll]) as [w1|] eqn:H1;
      [|vm_compute in H1; discriminate].
    destruct (run Sample.world2 Sample.doubleStart) as [w2|] eqn:H2;
      [|vm_compute in H2; discriminate].
    exists w1, w2.
    pose proof (reachable_run _ _ _ reachable_world2 H1) as R1.
    pose proof (reachable_run _ _ _ reachable_world2 H2) as R2.
    vm_compute in H1. injection H1 as <-.
    vm_compute in H2. injection H2 as <-.
    repeat split; assumption.
Qed.

(* ================================================================== *)
(** * Binary64 facts behind the geometry *)
(* ================================================================== *)

(** [SpecFloat] gives the operations; what the geometry needs of them is
    derived here: an integer below [2^53] is a normal double, multiplying
    it by [1], rounding it and taking its maximum with [1] give it back,
    and the quotient of two such integers is finite. *)

Module Binary64.

Lemma digits2_pos_size p : digits2_pos p = Pos.size p.
Proof. induction p; simpl; congruence. Qed.

Lemma size_bounds p :
  2 ^ (Zpos (Pos.size p) - 1) <= Zpos p < 2 ^ Zpos (Pos.size p).
Proof.
  split.
  - pose proof (Pos.size_le p) as H2.
    apply Pos2Z.pos_le_pos in H2. rewrite Pos2Z.inj_pow in H2.
    replace (Zpos (Pos.size p)) with (Zpos (Pos.size p) - 1 + 1) in H2 by lia.
    rewrite Z.pow_add_r in H2 by lia.
    change (Zpos p~0) with (2 * Zpos p) in H2. lia.
  - pose proof (Pos.size_gt p) as H.
    apply Pos2Z.pos_lt_pos in H. now rewrite Pos2Z.inj_pow in H.
Qed.

(** [Zdigits2 z] is the number of binary digits of [z >= 0]. *)
Lemma Zdigits2_nonneg z : 0 <= Zdigits2 z.
Proof. destruct z; simpl; lia. Qed.

Lemma Zdigits2_gt z : 0 <= z -> z < 2 ^ Zdigits2 z.
Proof.
  destruct z as [|p|p]; simpl; intros H; [lia| |lia].
  rewrite digits2_pos_size. apply size_bounds.
Qed.

Lemma Zdigits2_le z d : 0 <= z -> 0 <= d -> z < 2 ^ d -> Zdigits2 z <= d.
Proof.
  destruct z as [|p|p]; simpl; intros Hz Hd H; [lia| |lia].
  rewrite digits2_pos_size.
  destruct (Z_le_gt_dec (Zpos (Pos.size p)) d) as [|Hgt]; [assumption|].
  exfalso. pose proof (size_bounds p) as [Hlo _].
  assert (2 ^ d <= 2 ^ (Zpos (Pos.size p) - 1))
    by (apply Z.pow_le_mono_r; lia).
  lia.
Qed.

Lemma Zdigits2_pos_eq p d :
  2 ^ (d - 1) <= Zpos p < 2 ^ d -> Zpos (digits2_pos p) = d.
Proof.
  intros [Hlo Hhi]. rewrite digits2_pos_size.
  pose proof (size_bounds p) as [Slo Shi].
  assert (0 < d).
  { destruct (Z_lt_le_dec 0 d); [assumption|].
    exfalso. assert (2 ^ d <= 2 ^ 0) by (apply Z.pow_le_mono_r; lia).
    change (2 ^ 0) with 1 in *. lia. }
  destruct (Z.lt_trichotomy (Zpos (Pos.size p)) d) as [Hlt|[Heq|Hgt]];
    [exfalso|assumption|exfalso].
  - assert (2 ^ Zpos (Pos.size p) <= 2 ^ (d - 1))
      by (apply Z.pow_le_mono_r; lia). lia.
  - assert (2 ^ d <= 2 ^ (Zpos (Pos.size p) - 1))
      by (apply Z.pow_le_mono_r; lia). lia.
Qed.

Lemma iter_pos_iter {A} (f : A -> A) p x : iter_pos f p x = Pos.iter f x p.
Proof.
  revert x. induction p as [q IH|q IH|]; intros x; simpl.
  - rewrite !IH, <- !Pos.iter_swap. reflexivity.
  - now rewrite !IH.
  - reflexivity.
Qed.

Lemma shr_1_m r : 0 <= shr_m r -> shr_m (shr_1 r) = shr_m r / 2.
Proof.
  destruct r as [m b s]. simpl. intros H. rewrite <- Z.div2_div.
  destruct m as [|[p|p|]|p]; try reflexivity; lia.
Qed.

Lemma shr_iter_m k r :
  0 <= shr_m r -> shr_m (Pos.iter shr_1 r k) = shr_m r / 2 ^ Zpos k.
Proof.
  intros H. induction k as [|k IH] using Pos.peano_ind.
  - simpl. now rewrite shr_1_m.
  - rewrite Pos.iter_succ, shr_1_m.
    + rewrite IH, Pos2Z.inj_succ, Z.pow_succ_r by lia.
      rewrite Z.div_div by lia. f_equal. lia.
    + rewrite IH. apply Z.div_pos; lia.
Qed.

Lemma shr_1_exact m :
  0 <= m -> shr_1 (Build_shr_record (2 * m) false false)
            = Build_shr_record m false false.
Proof.
  intros H. destruct m as [|p|p]; try lia; reflexivity.
Qed.

Lemma shr_iter_exact k m :
  0 <= m ->
  Pos.iter shr_1 (Build_shr_record (m * 2 ^ Zpos k) false false) k
  = Build_shr_record m false false.
Proof.
  revert m. induction k as [|k IH] using Pos.peano_ind; intros m H.
  - change (Pos.iter shr_1 ?r 1) with (shr_1 r).
    replace (m * 2 ^ 1) with (2 * m) by lia. now apply shr_1_exact.
  - rewrite Pos.iter_succ_r, Pos2Z.inj_succ, Z.pow_succ_r by lia.
    replace (m * (2 * 2 ^ Zpos k)) with (2 * (m * 2 ^ Zpos k)) by lia.
    rewrite shr_1_exact by (apply Z.mul_nonneg_nonneg; lia).
    now apply IH.
Qed.

Lemma Zdigits2_eq z d : 2 ^ (d - 1) <= z < 2 ^ d -> Zdigits2 z = d.
Proof.
  intros H. destruct (Z_lt_le_dec d 1) as [Hd|Hd].
  - rewrite (Z.pow_neg_r 2 (d - 1)) in H by lia.
    destruct (Z.eq_dec d 0) as [->|Hn].
    + change (2 ^ 0) with 1 in H. assert (z = 0) as -> by lia. reflexivity.
    + rewrite Z.pow_neg_r in H by lia. lia.
  - assert (0 < 2 ^ (d - 1)) by (apply Z.pow_pos_nonneg; lia).
    destruct z as [|p|p]; try lia. simpl. now apply Zdigits2_pos_eq.
Qed.

Lemma fexp64 x : fexp 53 1024 x = Z.max (x - 53) (-1074).
Proof. reflexivity. Qed.

Lemma digits53_bounds m :
  Zpos (digits2_pos m) = 53 -> 2 ^ 52 <= Zpos m < 2 ^ 53.
Proof.
  intros H. rewrite digits2_pos_size in H.
  pose proof (size_bounds m) as B. rewrite H in B. exact B.
Qed.

Lemma shr_fexp_exact m e k :
  Zpos (digits2_pos m) = 53 -> -1074 <= e -> 0 <= k ->
  shr_fexp 53 1024 (Zpos m * 2 ^ k) (e - k) loc_Exact
  = (Build_shr_record (Zpos m) false false, e).
Proof.
  intros Hd He Hk. pose proof (digits53_bounds m Hd) as [Hlo Hhi].
  unfold shr_fexp.
  assert (Hdig : Zdigits2 (Zpos m * 2 ^ k) = 53 + k).
  { apply Zdigits2_eq.
    replace (53 + k - 1) with (52 + k) by lia.
    rewrite !Z.pow_add_r by lia.
    assert (0 < 2 ^ k) by (apply Z.pow_pos_nonneg; lia).
    split.
    - apply Z.mul_le_mono_nonneg_r; lia.
    - apply Z.mul_lt_mono_pos_r; lia. }
  rewrite Hdig, fexp64.
  replace (Z.max (53 + k + (e - k) - 53) (-1074) - (e - k)) with k by lia.
  unfold shr_record_of_loc, shr.
  destruct k as [|p|p]; [| |lia].
  - rewrite Z.pow_0_r, Z.mul_1_r. f_equal. lia.
  - rewrite iter_pos_iter, shr_iter_exact by lia. f_equal. lia.
Qed.

Lemma binary_round_aux_exact s m e k :
  Zpos (digits2_pos m) = 53 -> -1074 <= e <= 971 -> 0 <= k ->
  binary_round_aux 53 1024 s (Zpos m * 2 ^ k) (e - k) loc_Exact
  = S754_finite s m e.
Proof.
  intros Hd He Hk. unfold binary_round_aux.
  rewrite shr_fexp_exact by lia. simpl shr_m. simpl loc_of_shr_record.
  simpl round_nearest_even.
  pose proof (shr_fexp_exact m e 0 Hd (proj1 He) (Z.le_refl 0)) as H0.
  rewrite Z.pow_0_r, Z.mul_1_r, Z.sub_0_r in H0. rewrite H0. simpl shr_m.
  replace (e <=? 1024 - 53) with true; [reflexivity|].
  symmetry. apply Z.leb_le. lia.
Qed.

Lemma iter_xO_Z p j : Zpos (Pos.iter xO p j) = Zpos p * 2 ^ Zpos j.
Proof.
  induction j as [|j IH] using Pos.peano_ind.
  - simpl. lia.
  - rewrite Pos.iter_succ, Pos2Z.inj_succ, Z.pow_succ_r by lia.
    change (Zpos (Pos.iter xO p j)~0) with (2 * Zpos (Pos.iter xO p j)).
    rewrite IH. lia.
Qed.

Lemma of_Z_shape n :
  1 <= n < 2 ^ 53 ->
  exists m e, JS.of_Z n = S754_finite false m e /\ normalInt n m e.
Proof.
  intros [Hlo Hhi]. destruct n as [|p|p]; try lia.
  pose proof (size_bounds p) as [Slo Shi].
  assert (Hd : 1 <= Zpos (Pos.size p) <= 53).
  { split; [lia|].
    destruct (Z_le_gt_dec (Zpos (Pos.size p)) 53); [assumption|].
    assert (2 ^ 53 <= 2 ^ (Zpos (Pos.size p) - 1))
      by (apply Z.pow_le_mono_r; lia). lia. }
  unfold JS.of_Z, binary_normalize, binary_round, JS.prec, JS.emax.
  rewrite fexp64, digits2_pos_size.
  replace (Z.max (Zpos (Pos.size p) + 0 - 53) (-1074))
    with (Zpos (Pos.size p) - 53) by lia.
  unfold shl_align. rewrite Z.sub_0_r.
  destruct (Zpos (Pos.size p) - 53) as [|j|j] eqn:Ej; try lia.
  - exists p, 0.
    assert (D : Zpos (digits2_pos p) = 53) by (rewrite digits2_pos_size; lia).
    split.
    + pose proof (binary_round_aux_exact false p 0 0 D) as H.
      rewrite Z.pow_0_r, Z.mul_1_r in H. apply H; lia.
    + unfold normalInt. rewrite Z.pow_0_r. repeat split; lia.
  - exists (Pos.iter xO p j), (Zneg j).
    assert (V : Zpos (Pos.iter xO p j) = Zpos p * 2 ^ Zpos j)
      by apply iter_xO_Z.
    assert (D : Zpos (digits2_pos (Pos.iter xO p j)) = 53).
    { apply Zdigits2_pos_eq. rewrite V.
      assert (0 < 2 ^ Zpos j) by (apply Z.pow_pos_nonneg; lia).
      replace 52 with (Zpos (Pos.size p) - 1 + Zpos j) by lia.
      replace 53 with (Zpos (Pos.size p) + Zpos j) at 2 by lia.
      replace (53 - 1) with (Zpos (Pos.size p) - 1 + Zpos j) by lia.
      rewrite !Z.pow_add_r by lia.
      split; [apply Z.mul_le_mono_nonneg_r | apply Z.mul_lt_mono_pos_r]; lia. }
    split.
    + pose proof (binary_round_aux_exact false (Pos.iter xO p j) (Zneg j) 0 D)
        as H.
      rewrite Z.pow_0_r, Z.mul_1_r, Z.sub_0_r in H. apply H; lia.
    + unfold normalInt. change (- Zneg j) with (Zpos j).
      repeat split; lia.
Qed.

Lemma one_shape : JS.one = S754_finite false 4503599627370496 (-52).
Proof. reflexivity. Qed.

Lemma mul_one_normal n m e :
  normalInt n m e -> JS.mul (S754_finite false m e) JS.one = S754_finite false m e.
Proof.
  intros (D & He & V). rewrite one_shape. unfold JS.mul, SFmul.
  change (xorb false false) with false.
  pose proof (binary_round_aux_exact false m e 52 D) as H.
  change (Zpos (m * 4503599627370496)) with (Zpos m * 2 ^ 52).
  replace (e + -52) with (e - 52) by lia. apply H; lia.
Qed.

Lemma mul_one_finite m e :
  Zpos (digits2_pos m) = 53 -> -1074 <= e <= 971 ->
  JS.mul (S754_finite false m e) JS.one = S754_finite false m e.
Proof.
  intros D He. rewrite one_shape. unfold JS.mul, SFmul.
  change (xorb false false) with false.
  pose proof (binary_round_aux_exact false m e 52 D) as H.
  change (Zpos (m * 4503599627370496)) with (Zpos m * 2 ^ 52).
  replace (e + -52) with (e - 52) by lia. apply H; lia.
Qed.

Lemma round_normal n m e :
  1 <= n -> normalInt n m e ->
  JS.of_Z n = S754_finite false m e ->
  JS.Math_round (S754_finite false m e) = S754_finite false m e.
Proof.
  intros Hn (D & He & V) Hshape. unfold JS.Math_round.
  destruct (0 <=? e) eqn:E0; [reflexivity|].
  apply Z.leb_gt in E0. unfold cond_Zopp.
  assert (P : 0 < 2 ^ (- e - 1)) by (apply Z.pow_pos_nonneg; lia).
  assert (Q : 2 ^ (- e) = 2 * 2 ^ (- e - 1)).
  { rewrite <- Z.pow_succ_r by lia. f_equal. lia. }
  rewrite Z.shiftr_div_pow2 by lia.
  assert (Hq : (Zpos m + 2 ^ (- e - 1)) / 2 ^ (- e) = n).
  { symmetry. apply Z.div_unique with (2 ^ (- e - 1)); lia. }
  rewrite Hq. replace (n =? 0) with false by (symmetry; apply Z.eqb_neq; lia).
  exact Hshape.
Qed.

Lemma max_one_normal n m e :
  1 <= n -> normalInt n m e ->
  JS.Math_max JS.one (S754_finite false m e) = S754_finite false m e.
Proof.
  intros Hn (D & He & V). rewrite one_shape. unfold JS.Math_max, SFcompare.
  destruct (Z.compare_spec (-52) e) as [E|E|E]; [|reflexivity|lia].
  subst e. pose proof (digits53_bounds m D) as [Hlo _].
  rewrite Pos.compare_cont_spec. simpl Pos.switch_Eq.
  destruct (Pos.compare_spec 4503599627370496 m) as [E|E|E].
  - now subst m.
  - reflexivity.
  - exfalso. apply Pos2Z.pos_lt_pos in E.
    change (Zpos 4503599627370496) with (2 ^ 52) in E. lia.
Qed.

Lemma gt_zero_finite m e : JS.gt (S754_finite false m e) JS.zero = true.
Proof. reflexivity. Qed.

Lemma shr_m_of_loc m l : shr_m (shr_record_of_loc m l) = m.
Proof. destruct l as [|[ | | ]]; reflexivity. Qed.

Lemma shr_spec r e n r' e' :
  0 <= shr_m r -> shr r e n = (r', e') ->
  shr_m r' = shr_m r / 2 ^ Z.max 0 n /\ e' = e + Z.max 0 n.
Proof.
  intros H. unfold shr. destruct n as [|p|p]; intros [= <- <-].
  - simpl. rewrite Z.div_1_r. lia.
  - rewrite iter_pos_iter, shr_iter_m by assumption.
    rewrite Z.max_r by lia. lia.
  - simpl. rewrite Z.div_1_r. lia.
Qed.

Lemma shr_fexp_spec m e l r' e' :
  0 <= m -> shr_fexp 53 1024 m e l = (r', e') ->
  let k := Z.max 0 (Z.max (Zdigits2 m + e - 53) (-1074) - e) in
  shr_m r' = m / 2 ^ k /\ e' = e + k.
Proof.
  intros Hm H. unfold shr_fexp in H. rewrite fexp64 in H.
  apply shr_spec in H; rewrite shr_m_of_loc in *; assumption.
Qed.

Lemma div_pow2_bound m D k :
  0 <= m < 2 ^ D -> 0 <= D -> 0 <= k ->
  0 <= m / 2 ^ k < 2 ^ Z.max 0 (D - k).
Proof.
  intros [H0 H1] HD Hk.
  assert (P : 0 < 2 ^ k) by (apply Z.pow_pos_nonneg; lia).
  split; [apply Z.div_pos; lia|].
  destruct (Z_le_gt_dec k D).
  - rewrite Z.max_r by lia. apply Z.div_lt_upper_bound; [lia|].
    rewrite <- Z.pow_add_r by lia. now replace (k + (D - k)) with D by lia.
  - rewrite Z.max_l by lia. change (2 ^ 0) with 1.
    assert (2 ^ D <= 2 ^ k) by (apply Z.pow_le_mono_r; lia).
    rewrite Z.div_small; lia.
Qed.

Lemma round_nearest_even_bounds m l :
  m <= round_nearest_even m l <= m + 1.
Proof.
  unfold round_nearest_even.
  destruct l as [|[ | | ]]; try lia. destruct (Z.even m); lia.
Qed.

(** Rounding a non-negative mantissa that is far from the overflow
    threshold gives a zero or a finite double. *)
Lemma binary_round_aux_finite s m e l :
  0 <= m -> Zdigits2 m + e <= 1022 -> e <= 970 ->
  JS.isFinite (binary_round_aux 53 1024 s m e l) = true.
Proof.
  intros Hm Hd He. unfold binary_round_aux.
  destruct (shr_fexp 53 1024 m e l) as [r1 e1] eqn:E1.
  destruct (shr_fexp_spec _ _ _ _ _ Hm E1) as [M1 X1].
  set (k1 := Z.max 0 (Z.max (Zdigits2 m + e - 53) (-1074) - e)) in *.
  pose proof (Zdigits2_nonneg m) as Dn.
  pose proof (Zdigits2_gt m Hm) as Dg.
  assert (B1 : 0 <= shr_m r1 < 2 ^ Z.max 0 (Zdigits2 m - k1)).
  { rewrite M1. apply div_pow2_bound; lia. }
  pose proof (round_nearest_even_bounds (shr_m r1) (loc_of_shr_record r1))
    as Rb.
  set (m1 := round_nearest_even (shr_m r1) (loc_of_shr_record r1)) in *.
  assert (Hm1 : 0 <= m1) by lia.
  assert (D1 : Zdigits2 m1 <= Z.max 0 (Zdigits2 m - k1) + 1).
  { apply Zdigits2_le; [lia|lia|].
    rewrite Z.pow_add_r by lia. change (2 ^ 1) with 2. lia. }
  destruct (shr_fexp 53 1024 m1 e1 loc_Exact) as [r2 e2] eqn:E2.
  destruct (shr_fexp_spec _ _ _ _ _ Hm1 E2) as [M2 X2].
  set (k2 := Z.max 0 (Z.max (Zdigits2 m1 + e1 - 53) (-1074) - e1)) in *.
  assert (B2 : 0 <= shr_m r2).
  { rewrite M2. apply Z.div_pos; [lia|]. apply Z.pow_pos_nonneg; lia. }
  destruct (shr_m r2) as [|p|p]; [reflexivity| |lia].
  replace (e2 <=? 1024 - 53) with true; [reflexivity|].
  symmetry. apply Z.leb_le. lia.
Qed.

Lemma div_normal_finite n1 m1 e1 n2 m2 e2 :
  normalInt n1 m1 e1 -> normalInt n2 m2 e2 ->
  JS.isFinite (JS.div (S754_finite false m1 e1) (S754_finite false m2 e2))
  = true.
Proof.
  intros (D1 & E1 & V1) (D2 & E2 & V2).
  unfold JS.div, SFdiv, SFdiv_core_binary.
  cbv zeta.
  set (e' := Z.min (fexp JS.prec JS.emax
                       (Zdigits2 (Zpos m1) + e1 - (Zdigits2 (Zpos m2) + e2)))
                   (e1 - e2)).
  set (m' := match e1 - e2 - e' with
             | Zpos _ => Z.shiftl (Zpos m1) (e1 - e2 - e')
             | 0 => Zpos m1
             | Zneg _ => 0
             end).
  assert (He' : e' = e1 - e2 - 53).
  { unfold e', JS.prec, JS.emax. rewrite fexp64. simpl Zdigits2.
    rewrite D1, D2. lia. }
  assert (Hm' : m' = Zpos m1 * 2 ^ 53).
  { unfold m'. rewrite He'.
    replace (e1 - e2 - (e1 - e2 - 53)) with 53 by lia.
    now rewrite Z.shiftl_mul_pow2 by lia. }
  pose proof (digits53_bounds m1 D1) as [L1 U1].
  pose proof (digits53_bounds m2 D2) as [L2 U2].
  pose proof (Z_div_mod m' (Zpos m2) eq_refl) as Hdm.
  destruct (Z.div_eucl m' (Zpos m2)) as [q r].
  destruct Hdm as [Hq Hr].
  apply binary_round_aux_finite.
  - assert (0 <= m') by (rewrite Hm'; lia). nia.
  - assert (Hq' : 0 <= q < 2 ^ 106).
    { assert (0 <= m' < 2 ^ 106).
      { rewrite Hm'. change (2 ^ 106) with (2 ^ 53 * 2 ^ 53). nia. }
      nia. }
    assert (Zdigits2 q <= 106) by (apply Zdigits2_le; lia).
    lia.
  - lia.
Qed.

Lemma min_infinity x :
  JS.isFinite x = true -> JS.Math_min x JS.Infinity = x.
Proof. destruct x as [s|s| |s m e]; try discriminate; reflexivity. Qed.

End Binary64.

(* ================================================================== *)
(** * Geometry *)
(* ================================================================== *)

Example scale_is_capped_at_1e6 :
  resolveTarget (mkSettings png JS.one (JS.of_Z 2000000) JS.zero contain true)
                (JS.of_Z 1) (JS.of_Z 1)
  = (JS.of_Z 1000000, JS.of_Z 1000000).
Proof. reflexivity. Qed.

Example tie_is_decided_by_the_double_product :
  resolveTarget (mkSettings png JS.one (JS.of_Z 13) JS.zero contain true)
                (JS.of_Z 6) (JS.of_Z 27)
  = (JS.of_Z 13, JS.of_Z 58).
Proof. reflexivity. Qed.

(** C2 (as the code has it).  For positive integers below [2^53] as
    source width and width limit and any positive integer source height,
    in contain mode with the aspect locked and no height limit, both
    target dimensions are the source dimension times one common factor
    [r], the binary64 quotient limit/width capped at [1e6], each product
    rounded to the nearest integer by [Math.round] and raised to at least
    1.  A 1600x1200 source under a width limit of 800 gives exactly
    800x600. *)
Theorem C2_contain_locked_width_limit :
  forall (f : Format) (q : number) (w h lw : Z),
    1 <= w < 2 ^ 53 -> 1 <= h -> 1 <= lw < 2 ^ 53 ->
    let r := JS.Math_min (JS.div (JS.of_Z lw) (JS.of_Z w)) JS.lit_1e6 in
    resolveTarget (mkSettings f q (JS.of_Z lw) JS.zero contain true)
                  (JS.of_Z w) (JS.of_Z h)
    = (JS.Math_max JS.one (JS.Math_round (JS.mul (JS.of_Z w) r)),
       JS.Math_max JS.one (JS.Math_round (JS.mul (JS.of_Z h) r)))
    /\ resolveTarget (mkSettings f q (JS.of_Z 800) JS.zero contain true)
                     (JS.of_Z 1600) (JS.of_Z 1200)
       = (JS.of_Z 800, JS.of_Z 600).
Proof.
  intros f q w h lw Hw Hh Hlw r. split; [|reflexivity].
  destruct (Binary64.of_Z_shape w Hw) as (mw & ew & Sw & Nw).
  destruct (Binary64.of_Z_shape lw Hlw) as (ml & el & Sl & Nl).
  pose proof (Binary64.div_normal_finite _ _ _ _ _ _ Nl Nw) as Fin.
  unfold r. clear r. unfold resolveTarget. simpl.
  rewrite Sl, Sw in *. simpl JS.or_zero.
  rewrite Binary64.gt_zero_finite. simpl orb. cbv iota.
  change (JS.gt JS.zero JS.zero) with false. cbv iota.
  rewrite (Binary64.min_infinity _ Fin), Fin. reflexivity.
Qed.

(** C10 (as the code has it).  For a positive integer source width below
    [2^53] and any positive integer source height, in contain mode with
    the aspect unlocked and a width limit of 0, the target width is the
    source width and the target height is the height limit rounded to
    the nearest integer by [Math.round] and raised to at least 1: for
    every height limit that is a normal positive double it is
    [Math.max(1, Math.round(limit))].  So a positive integer limit below
    [2^53] is returned exactly, while a limit of 2.5 gives 3 and one of
    0.5 gives 1. *)
Theorem C10_contain_unlocked_height_limit :
  forall (f : Format) (q : number) (w h : Z),
    1 <= w < 2 ^ 53 -> 1 <= h ->
    (forall lh : Z,
        1 <= lh < 2 ^ 53 ->
        resolveTarget (mkSettings f q JS.zero (JS.of_Z lh) contain false)
                      (JS.of_Z w) (JS.of_Z h)
        = (JS.of_Z w, JS.of_Z lh))
    /\ (forall (m : positive) (e : Z),
           Zpos (digits2_pos m) = 53 -> -1074 <= e <= 971 ->
           resolveTarget
             (mkSettings f q JS.zero (S754_finite false m e) contain false)
             (JS.of_Z w) (JS.of_Z h)
           = (JS.of_Z w,
              JS.Math_max JS.one (JS.Math_round (S754_finite false m e))))
    /\ resolveTarget (mkSettings f q JS.zero lit_2_5 contain false)
                     (JS.of_Z w) (JS.of_Z h)
       = (JS.of_Z w, JS.of_Z 3)
    /\ resolveTarget (mkSettings f q JS.zero lit_0_5 contain false)
                     (JS.of_Z w) (JS.of_Z h)
       = (JS.of_Z w, JS.of_Z 1).
Proof.
  intros f q w h Hw Hh.
  destruct (Binary64.of_Z_shape w Hw) as (mw & ew & Sw & Nw).
  assert (G : forall (m : positive) (e : Z),
             Zpos (digits2_pos m) = 53 -> -1074 <= e <= 971 ->
             resolveTarget
               (mkSettings f q JS.zero (S754_finite false m e) contain false)
               (JS.of_Z w) (JS.of_Z h)
             = (JS.of_Z w,
                JS.Math_max JS.one (JS.Math_round (S754_finite false m e)))).
  { intros m e D E.
    assert (G0 : forall lim,
               JS.or_zero lim = lim -> JS.gt lim JS.zero = true ->
               resolveTarget (mkSettings f q JS.zero lim contain false)
                             (JS.of_Z w) (JS.of_Z h)
               = (JS.Math_max JS.one
                    (JS.Math_round (JS.mul (JS.of_Z w) JS.one)),
                  JS.Math_max JS.one
                    (JS.Math_round (JS.mul lim JS.one)))).
    { intros lim H1 H2. unfold resolveTarget.
      cbn [fitMode keepAspect maxWidth maxHeight].
      change (JS.or_zero JS.zero) with JS.zero. cbv zeta.
      rewrite H1, H2.
      change (JS.gt JS.zero JS.zero) with false. reflexivity. }
    rewrite G0 by reflexivity. rewrite Sw.
    rewrite (Binary64.mul_one_normal _ _ _ Nw).
    rewrite (Binary64.round_normal w mw ew) by (try lia; congruence).
    rewrite (Binary64.max_one_normal w mw ew) by (try lia; assumption).
    rewrite (Binary64.mul_one_finite m e D E). reflexivity. }
  split; [|split; [exact G|split]].
  - intros lh Hlh.
    destruct (Binary64.of_Z_shape lh Hlh) as (ml & el & Sl & Nl).
    rewrite Sl.
    rewrite (G ml el) by (destruct Nl as (D & E & _); (exact D || lia)).
    rewrite (Binary64.round_normal lh ml el) by (try lia; congruence).
    rewrite (Binary64.max_one_normal lh ml el) by (try lia; assumption).
    reflexivity.
  - change lit_2_5 with (S754_finite false 5629499534213120 (-51)).
    rewrite G by (reflexivity || lia). f_equal.
  - change lit_0_5 with (S754_finite false 4503599627370496 (-53)).
    rewrite G by (reflexivity || lia). f_equal.
Qed.

(** C10 (the claim as stated fails).  The height field takes any number.
    With a height limit of 2.5 a 640x480 source gets the height 3, not
    2.5. *)
Lemma C10_fractional_limit_counterexample : ~ heightLimitIsTarget.
Proof.
  intros H.
  specialize (H png JS.one 640 480 lit_2_5
                ltac:(lia) ltac:(lia) ltac:(reflexivity)).
  vm_compute in H. discriminate H.
Qed.

(** C2 (the claim as stated fails).  A 4x1 source under a width limit of
    1 is scaled by 0.25: the width becomes 1, and the height, which the
    stated rule rounds to [round 0.25 = 0], is raised to 1 by
    [Math.max(1, ...)]. *)
Lemma C2_min_one_counterexample : ~ widthLimitScalesBoth.
Proof.
  intros H.
  specialize (H png JS.one 4 1 1 ltac:(lia) ltac:(lia) ltac:(lia)).
  vm_compute in H. discriminate H.
Qed.

Lemma C2_width_limit_witness :
  resolveTarget Sample.settings800 (JS.of_Z 1600) (JS.of_Z 1200)
  = (JS.Math_max JS.one
       (JS.Math_round
          (JS.mul (JS.of_Z 1600)
                  (JS.Math_min (JS.div (JS.of_Z 800) (JS.of_Z 1600))
                               JS.lit_1e6))),
     JS.Math_max JS.one
       (JS.Math_round
          (JS.mul (JS.of_Z 1200)
                  (JS.Math_min (JS.div (JS.of_Z 800) (JS.of_Z 1600))
                               JS.lit_1e6)))).
Proof.
  refine (proj1 (C2_contain_locked_width_limit
                   jpeg (JS.div (JS.of_Z 1) (JS.of_Z 2)) 1600 1200 800
                   _ _ _)).
  - split; [discriminate | reflexivity].
  - discriminate.
  - split; [discriminate | reflexivity].
Defined.

Lemma C10_height_limit_witness :
  resolveTarget (mkSettings png JS.one JS.zero (JS.of_Z 300) contain false)
                (JS.of_Z 640) (JS.of_Z 480)
  = (JS.of_Z 640, JS.of_Z 300).
Proof.
  refine (proj1 (C10_contain_unlocked_height_limit png JS.one 640 480 _ _)
                300 _).
  - split; [discriminate | reflexivity].
  - discriminate.
  - split; [discriminate | reflexivity].
Defined.

(* ================================================================== *)
(** * Selecting files: the banner and the new items *)
(* ================================================================== *)

Lemma onSelectFiles_frame fresh lst st :
  isConvertingAll (onSelectFiles fresh lst st) = isConvertingAll st
  /\ settings (onSelectFiles fresh lst st) = settings st
  /\ inputValue (onSelectFiles fresh lst st) = inputValue st
  /\ revoked (onSelectFiles fresh lst st) = revoked st.
Proof.
  unfold onSelectFiles. destruct lst as [|f0 l0]; [repeat split|].
  destruct (valid_of (f0 :: l0)); [repeat split|].
  destruct (_ <? _)%nat; repeat split.
Qed.

(** X1.  The banner after a selection depends on the selection and on the
    room left only: whatever it showed before is overwritten.  An empty
    selection clears it; a selection with no valid file sets the
    JPG/JPEG message and leaves the store as it was; otherwise the
    20-images message is set exactly when there are more valid files
    than free slots, and the banner stays empty when all valid files
    fit, also when other files of the selection were rejected.  The
    other cells (in-progress flag, settings, file input, release log)
    are never touched. *)
Theorem X_select_banner :
  forall (fresh : nat -> Fresh) (lst : list File) (st : App),
    let st' := onSelectFiles fresh lst st in
    (lst = [] -> appError st' = "" /\ files st' = files st)
    /\ (lst <> [] -> valid_of lst = [] ->
        appError st' = "Please choose JPG/JPEG images up to 50 MB each."
        /\ files st' = files st)
    /\ (valid_of lst <> [] ->
        Z.max 0 (20 - storeSize st) < Z.of_nat (List.length (valid_of lst)) ->
        appError st' = "Only 20 images allowed at once.")
    /\ (valid_of lst <> [] ->
        Z.of_nat (List.length (valid_of lst)) <= 20 - storeSize st ->
        appError st' = "")
    /\ isConvertingAll st' = isConvertingAll st
    /\ settings st' = settings st
    /\ inputValue st' = inputValue st
    /\ revoked st' = revoked st.
Proof.
  intros fresh lst st st'.
  split; [|split; [|split; [|split; [|apply onSelectFiles_frame]]]].
  - intros ->. split; reflexivity.
  - intros Hl Hv. unfold st', onSelectFiles.
    destruct lst as [|f0 l0]; [congruence|]. rewrite Hv. split; reflexivity.
  - intros Hv Hlt. unfold st', onSelectFiles.
    destruct lst as [|f0 l0]; [now elim Hv|].
    destruct (valid_of (f0 :: l0)) as [|v vs] eqn:E; [now elim Hv|].
    assert (Hc : (List.length (toAdd_of (files (setError "" st)) (v :: vs))
                  <? List.length (v :: vs))%nat = true).
    { apply Nat.ltb_lt. apply Nat2Z.inj_lt. rewrite toAdd_of_length.
      unfold MAX_FILES. simpl files. fold (storeSize st). lia. }
    rewrite Hc. reflexivity.
  - intros Hv Hle. unfold st', onSelectFiles.
    destruct lst as [|f0 l0]; [now elim Hv|].
    destruct (valid_of (f0 :: l0)) as [|v vs] eqn:E; [now elim Hv|].
    assert (Hc : (List.length (toAdd_of (files (setError "" st)) (v :: vs))
                  <? List.length (v :: vs))%nat = false).
    { apply Nat.ltb_ge. apply Nat2Z.inj_le. rewrite toAdd_of_length.
      unfold MAX_FILES. simpl files. fold (storeSize st). lia. }
    rewrite Hc. reflexivity.
Qed.

Lemma createItems_nth fresh j l k it :
  nth_error (createItems fresh j l) k = Some it ->
  exists f, nth_error l k = Some f /\ it = createItem f (fresh (j + k)%nat).
Proof.
  revert j k. induction l as [|f l IH]; intros j k H.
  - destruct k; discriminate.
  - destruct k as [|k]; simpl in H.
    + injection H as <-. exists f. now rewrite Nat.add_0_r.
    + destruct (IH (S j) k H) as (g & Hg & ->). exists g.
      split; [exact Hg|]. f_equal. f_equal. lia.
Qed.

Lemma createItems_fresh fresh k l :
  Forall (fun it => status it = idle /\ pngUrl it = "" /\ errorMsg it = ""
                    /\ width it = 0 /\ height it = 0)
         (createItems fresh k l)
  /\ map previewUrl (createItems fresh k l)
     = map (fun j => objectUrl (fresh j)) (seq k (List.length l)).
Proof.
  revert k. induction l as [|f l IH]; intros k; simpl.
  - split; [constructor | reflexivity].
  - destruct (IH (S k)) as [H1 H2]. split.
    + constructor; [repeat split | exact H1].
    + now rewrite H2.
Qed.

Lemma In_firstn {A} (x : A) n l : In x (firstn n l) -> In x l.
Proof.
  intros H. rewrite <- (firstn_skipn n l). apply in_or_app. now left.
Qed.

(** X2.  A selection never changes, removes or reorders the items
    already in the store: the new items come after them, one for each of
    the first valid files that fit in the free slots, in the order of
    the selection.  The [k]-th new item is built from the [k]-th of
    those files with the [k]-th object URL and random suffix the
    browser hands out: it is idle, without output, error message or
    decoded size.  When the store is full nothing is added, and when all
    valid files fit there is one new item for each. *)
Theorem X_select_appends_idle_items :
  forall (fresh : nat -> Fresh) (lst : list File) (st : App),
    exists news,
      files (onSelectFiles fresh lst st) = (files st ++ news)%list
      /\ map file news
         = firstn (Z.to_nat (20 - storeSize st)) (valid_of lst)
      /\ Z.of_nat (List.length news)
         = Z.min (Z.of_nat (List.length (valid_of lst)))
                 (Z.max 0 (20 - storeSize st))
      /\ (forall k it,
             nth_error news k = Some it ->
             exists f,
               nth_error (valid_of lst) k = Some f
               /\ it = createItem f (fresh k)
               /\ id it = name f ++ "-" ++ Str.of_Z (size f) ++ "-"
                          ++ Str.of_Z (lastModified f) ++ "-"
                          ++ rnd (fresh k)
               /\ file it = f /\ previewUrl it = objectUrl (fresh k)
               /\ status it = idle /\ pngUrl it = ""
               /\ errorMsg it = "" /\ width it = 0 /\ height it = 0)
      /\ (20 <= storeSize st -> news = [])
      /\ (storeSize st + Z.of_nat (List.length (valid_of lst)) <= 20 ->
          map file news = valid_of lst).
Proof.
  intros fresh lst st.
  exists (createItems fresh 0 (toAdd_of (files st) (valid_of lst))).
  assert (Hadd : toAdd_of (files st) (valid_of lst)
                 = firstn (Z.to_nat (20 - storeSize st)) (valid_of lst)).
  { unfold toAdd_of, MAX_FILES. fold (storeSize st). f_equal. lia. }
  split; [apply files_onSelectFiles|].
  split; [now rewrite createItems_file|].
  split.
  { rewrite createItems_length, Hadd, length_firstn. lia. }
  split.
  { intros k it Hk.
    destruct (createItems_nth fresh 0 _ k it Hk) as (f & Hf & ->).
    exists f. rewrite Hadd, nth_error_firstn in Hf.
    destruct (Nat.ltb k _); [|discriminate].
    repeat split; assumption. }
  split.
  - intros Hfull. rewrite Hadd.
    replace (Z.to_nat (20 - storeSize st)) with 0%nat by lia. reflexivity.
  - intros Hfit. rewrite createItems_file, Hadd.
    apply firstn_all2. lia.
Qed.
(* ================================================================== *)
(** * Reordering *)
(* ================================================================== *)

Lemma findIndex_first i pre x post :
  firstWithId i pre x ->
  findIndex i (pre ++ x :: post) = Some (List.length pre).
Proof.
  intros [Hx Hpre]. induction pre as [|y pre IH]; simpl.
  - unfold id_is. now rewrite Hx, String.eqb_refl.
  - assert (E : id_is i y = false).
    { apply String.eqb_neq. apply Hpre. now left. }
    rewrite E, IH; [reflexivity|]. intros z Hz. apply Hpre. now right.
Qed.

Lemma findIndex_split i l k :
  findIndex i l = Some k ->
  exists pre x post,
    l = (pre ++ x :: post)%list /\ firstWithId i pre x /\ List.length pre = k.
Proof.
  revert k. induction l as [|y l IH]; intros k; simpl; [discriminate|].
  destruct (id_is i y) eqn:E.
  - intros [= <-]. exists [], y, l. repeat split.
    + now apply String.eqb_eq in E.
    + intros z [].
  - destruct (findIndex i l) as [k'|]; [|discriminate]. intros [= <-].
    destruct (IH k' eq_refl) as (pre & x & post & -> & [Hx Hpre] & Hk).
    exists (y :: pre), x, post. repeat split; simpl; try congruence.
    intros z [<-|Hz]; [now apply String.eqb_neq in E | now apply Hpre].
Qed.

Lemma removeAt_middle (pre : list Item) x post :
  removeAt (List.length pre) (pre ++ x :: post) = (pre ++ post)%list.
Proof.
  unfold removeAt.
  rewrite firstn_app, Nat.sub_diag, firstn_all, skipn_app.
  rewrite skipn_all2 by lia.
  replace (S (List.length pre) - List.length pre)%nat with 1%nat by lia.
  simpl. now rewrite app_nil_r.
Qed.

Lemma insertAt_middle (pre : list Item) x post :
  insertAt (List.length pre) x (pre ++ post) = (pre ++ x :: post)%list.
Proof.
  unfold insertAt.
  rewrite firstn_app, Nat.sub_diag, firstn_all, skipn_app.
  rewrite skipn_all2, Nat.sub_diag by lia.
  simpl. now rewrite app_nil_r.
Qed.

(** Where [moveItem] puts the first item with the id. *)
Lemma moveItem_at i delta st pre x post :
  files st = (pre ++ x :: post)%list -> firstWithId i pre x ->
  moveItem i delta st
  = setFiles (fun _ =>
      insertAt (Z.to_nat (Z.min (Z.of_nat (List.length (pre ++ x :: post)) - 1)
                                (Z.max 0 (Z.of_nat (List.length pre) + delta))))
               x (pre ++ post)%list) st.
Proof.
  intros Hf Hfirst. unfold moveItem, setFiles. rewrite Hf.
  rewrite (findIndex_first i pre x post Hfirst).
  rewrite nth_error_app2, Nat.sub_diag by lia. simpl nth_error.
  now rewrite removeAt_middle.
Qed.

Lemma setFiles_files st : setFiles (fun _ => files st) st = st.
Proof. now destruct st. Qed.

Lemma setFiles_setFiles f g st :
  setFiles f (setFiles g st) = setFiles (fun l => f (g l)) st.
Proof. reflexivity. Qed.

(** X3.  The up arrow swaps the first item carrying the id with the item
    before it, the down arrow with the item after it, and nothing else
    in the state changes; up followed by down gives back the state. *)
Theorem X_move_swaps_neighbours :
  forall (i : string) (st : App) (pre : list Item) (a b : Item)
         (post : list Item),
    files st = (pre ++ a :: b :: post)%list ->
    (forall y, In y pre -> id y <> i) ->
    (id b = i -> id a <> i ->
     moveItem i (-1) st = setFiles (fun _ => pre ++ b :: a :: post)%list st
     /\ moveItem i 1 (moveItem i (-1) st) = st)
    /\ (id a = i ->
        moveItem i 1 st = setFiles (fun _ => pre ++ b :: a :: post)%list st).
Proof.
  intros i st pre a b post Hf Hpre.
  assert (Up : id b = i -> id a <> i ->
               moveItem i (-1) st
               = setFiles (fun _ => pre ++ b :: a :: post)%list st).
  { intros Hb Ha.
    assert (F : firstWithId i (pre ++ [a]) b).
    { split; [exact Hb|]. intros y Hy. apply in_app_or in Hy.
      destruct Hy as [Hy|[<-|[]]]; auto. }
    assert (Hf' : files st = ((pre ++ [a]) ++ b :: post)%list)
      by (rewrite <- app_assoc; exact Hf).
    rewrite (moveItem_at i (-1) st (pre ++ [a]) b post Hf' F).
    unfold setFiles. cbv beta. f_equal.
    rewrite !length_app. simpl List.length.
    replace (Z.to_nat _) with (List.length pre) by lia.
    rewrite <- app_assoc. simpl. apply insertAt_middle. }
  assert (Down : forall st0 x y,
             files st0 = (pre ++ x :: y :: post)%list -> id x = i ->
             moveItem i 1 st0
             = setFiles (fun _ => pre ++ y :: x :: post)%list st0).
  { intros st0 x y Hf0 Hx.
    rewrite (moveItem_at i 1 st0 pre x (y :: post) Hf0 (conj Hx Hpre)).
    unfold setFiles. cbv beta. f_equal.
    rewrite !length_app. simpl List.length.
    replace (Z.to_nat _) with (List.length (pre ++ [y])) 
      by (rewrite length_app; simpl; lia).
    replace (pre ++ y :: post)%list with ((pre ++ [y]) ++ post)%list
      by (now rewrite <- app_assoc).
    rewrite insertAt_middle. now rewrite <- app_assoc. }
  split.
  - intros Hb Ha. split; [now apply Up|].
    rewrite (Up Hb Ha).
    rewrite (Down (setFiles (fun _ => pre ++ b :: a :: post)%list st) b a
                  eq_refl Hb).
    rewrite setFiles_setFiles, <- Hf. apply setFiles_files.
  - intros Ha. now apply Down.
Qed.

Lemma X_move_swaps_witness :
  moveItem (Sample.idOf "b.jpg") 1
           (moveItem (Sample.idOf "b.jpg") (-1) (app Sample.world5))
  = app Sample.world5.
Proof.
  refine (proj2 (proj1 (X_move_swaps_neighbours
                   (Sample.idOf "b.jpg") (app Sample.world5) []
                   (Cases.itemOf "a.jpg" 0) (Cases.itemOf "b.jpg" 1)
                   [Cases.itemOf "c.jpg" 2; Cases.itemOf "d.jpg" 3;
                    Cases.itemOf "e.jpg" 4] _ _) _ _)).
  - vm_compute. reflexivity.
  - intros y [].
  - vm_compute. reflexivity.
  - vm_compute. discriminate.
Defined.

Lemma insertAt_perm j (x : Item) l : Permutation (insertAt j x l) (x :: l).
Proof.
  unfold insertAt. rewrite <- (firstn_skipn j l) at 3.
  symmetry. apply Permutation_middle.
Qed.

Lemma moveItem_perm i delta st :
  Permutation (files (moveItem i delta st)) (files st).
Proof.
  destruct (findIndex i (files st)) as [k|] eqn:E.
  - destruct (findIndex_split _ _ _ E) as (pre & x & post & Hf & Hfirst & _).
    rewrite (moveItem_at i delta st pre x post Hf Hfirst). simpl files.
    rewrite Hf, insertAt_perm. apply Permutation_middle.
  - unfold moveItem. simpl. now rewrite E.
Qed.

(** X4.  Whatever the id and the distance, [moveItem] only permutes the
    store: no item is lost, duplicated or changed, and no other cell is
    touched.  The move is clamped to the list: the first item moved up
    and the last item moved down stay where they are. *)
Theorem X_move_permutes_and_clamps :
  forall (i : string) (delta : Z) (st : App),
    Permutation (files (moveItem i delta st)) (files st)
    /\ moveItem i delta st = setFiles (fun _ => files (moveItem i delta st)) st
    /\ (forall x post,
           files st = x :: post -> id x = i -> delta <= 0 ->
           moveItem i delta st = st)
    /\ (forall pre x,
           files st = (pre ++ [x])%list -> firstWithId i pre x ->
           0 <= delta -> moveItem i delta st = st).
Proof.
  intros i delta st. split; [|split; [reflexivity|split]].
  - apply moveItem_perm.
  - intros x post Hf Hx Hd.
    assert (F : firstWithId i [] x) by (split; [exact Hx | intros y []]).
    rewrite (moveItem_at i delta st [] x post Hf F). simpl List.length.
    replace (Z.to_nat _) with 0%nat by lia.
    unfold insertAt. simpl. change (x :: post) with ([] ++ x :: post)%list.
    rewrite <- Hf. apply setFiles_files.
  - intros pre x Hf Hfirst Hd.
    rewrite (moveItem_at i delta st pre x [] Hf Hfirst).
    rewrite length_app. simpl List.length.
    replace (Z.to_nat _) with (List.length pre) by lia.
    rewrite insertAt_middle, <- Hf. apply setFiles_files.
Qed.

(* ================================================================== *)
(** * Removal *)
(* ================================================================== *)

Lemma removeOne_absent i st : absent i (removeOne i st).
Proof.
  intros it Hin. unfold removeOne in Hin.
  destruct (findItem i (files st)); simpl in Hin;
    rewrite ?files_revokeUrls in Hin;
    apply filter_In in Hin; destruct Hin as [_ Hn];
    apply negb_true_iff in Hn; now apply String.eqb_neq in Hn.
Qed.

(** X5.  After [removeOne] no item of the store has the id, and removing
    again changes nothing.  When one item [x] carries the id, the store
    keeps all the other items in their order, the release log grows by
    exactly the handles of [x] (its preview handle and, if it has one,
    its output handle), and no other cell changes. *)
Theorem X_remove_releases_and_forgets :
  forall (i : string) (st : App),
    absent i (removeOne i st)
    /\ removeOne i (removeOne i st) = removeOne i st
    /\ (forall pre x post,
           files st = (pre ++ x :: post)%list -> id x = i ->
           (forall y, In y (pre ++ post) -> id y <> i) ->
           removeOne i st
           = mkApp (pre ++ post) (isConvertingAll st) (appError st)
                   (settings st) (inputValue st)
                   (rev (handlesOf x) ++ revoked st)).
Proof.
  intros i st. split; [apply removeOne_absent|]. split.
  - pose proof (removeOne_absent i st) as Ha.
    unfold removeOne at 1. rewrite (findItem_absent _ _ Ha).
    apply setFiles_same. now apply filter_absent.
  - intros pre x post Hf Hx Hothers.
    assert (Hpre : forall y, In y pre -> id y <> i)
      by (intros y Hy; apply Hothers, in_or_app; now left).
    assert (Hpost : forall y, In y post -> id y <> i)
      by (intros y Hy; apply Hothers, in_or_app; now right).
    unfold removeOne. rewrite Hf, (findItem_first i pre x post Hx Hpre).
    rewrite revokeUrls_spec. unfold setFiles. simpl. f_equal.
    rewrite Hf, filter_app. simpl.
    assert (E : id_is i x = true) by (apply String.eqb_eq; exact Hx).
    rewrite E. simpl.
    assert (K : forall l, (forall y, In y l -> id y <> i) ->
                          filter (fun f => negb (id_is i f)) l = l).
    { intros l Hl. apply forallb_filter_id, forallb_forall.
      intros y Hy. apply negb_true_iff, String.eqb_neq. now apply Hl. }
    now rewrite (K pre Hpre), (K post Hpost).
Qed.

(* ================================================================== *)
(** * What events release, and what conversions keep *)
(* ================================================================== *)

Lemma convertAll_loop_revoked snapshot s rest st :
  revoked (fst (convertAll_loop snapshot s rest st)) = revoked st.
Proof.
  revert st. induction rest as [|it rest IH]; intros st; simpl.
  - reflexivity.
  - destruct (String.eqb (pngUrl it) ""); [|apply IH].
    destruct (findItem (id it) snapshot); simpl; [reflexivity|].
    now rewrite IH.
Qed.

Lemma convertAll_revoked st : revoked (fst (convertAll st)) = revoked st.
Proof.
  unfold convertAll. destruct (files st); [reflexivity|].
  now rewrite convertAll_loop_revoked.
Qed.

Lemma conv_loaded_revoked c r st :
  revoked (fst (conv_loaded c r st)) = revoked st.
Proof.
  unfold conv_loaded. destruct r as [[w h]|]; [|reflexivity].
  now destruct (resolveTarget _ _ _).
Qed.

Lemma conv_blob_revoked c r st : revoked (conv_blob c r st) = revoked st.
Proof. now destruct r. Qed.

Lemma resumeLoaded_revoked t r st st' t' :
  resumeLoaded t r st = Some (st', t') -> revoked st' = revoked st.
Proof.
  destruct t as [c|c rest snap|]; simpl; [| |discriminate];
    destruct (conv_phase c); try discriminate;
    pose proof (conv_loaded_revoked c r st) as H;
    destruct (conv_loaded c r st) as [s1 [c'|]];
    try (intros [= <- <-]; exact H).
  pose proof (convertAll_loop_revoked snap (conv_settings c) rest s1) as H2.
  destruct (convertAll_loop _ _ _ _). intros [= <- <-]. simpl in *. congruence.
Qed.

Lemma resumeBlob_revoked t r st st' t' :
  resumeBlob t r st = Some (st', t') -> revoked st' = revoked st.
Proof.
  destruct t as [c|c rest snap|]; simpl; [| |discriminate];
    destruct (conv_phase c); try discriminate.
  - intros [= <- <-]. apply conv_blob_revoked.
  - pose proof (convertAll_loop_revoked snap (conv_settings c) rest
                  (conv_blob c r st)) as H2.
    destruct (convertAll_loop _ _ _ _). intros [= <- <-].
    simpl in H2. rewrite H2. apply conv_blob_revoked.
Qed.

Lemma removeOne_revoked i st :
  revoked (removeOne i st)
  = (match findItem i (files st) with
     | Some target => rev (handlesOf target)
     | None => []
     end ++ revoked st)%list.
Proof.
  unfold removeOne. destruct (findItem i (files st)); [|reflexivity].
  simpl. now rewrite revokeUrls_spec.
Qed.

Lemma clearAll_revoked st :
  revoked (clearAll st)
  = (rev (flat_map handlesOf (files st)) ++ revoked st)%list.
Proof. unfold clearAll, reset. simpl. now rewrite revokeAll_spec. Qed.

Lemma step_revoked :
  forall (w : World) (e : Event) (w' : World),
    step w e = Some w' ->
    revoked (app w') = (releasedBy e (app w) ++ revoked (app w))%list.
Proof.
  unfold step, guarded. intros w e w' H.
  destruct e as [fresh lst|i| | |i|i delta| | |s| |k r|k r]; simpl releasedBy.
  - injection H as <-. simpl. apply onSelectFiles_frame.
  - simpl in H. pass_guard H. reflexivity.
  - pose proof (convertAll_revoked (app w)) as P.
    destruct (convertAll (app w)). pass_guard H. exact P.
  - pose proof (convertAll_revoked (app w)) as P.
    destruct (convertAll (app w)). pass_guard H. exact P.
  - pass_guard H. apply removeOne_revoked.
  - pass_guard H. reflexivity.
  - pass_guard H. apply clearAll_revoked.
  - pass_guard H. reflexivity.
  - injection H as <-. reflexivity.
  - pass_guard H. simpl. apply clearAll_revoked.
  - destruct (nth_error _ _) as [t|]; [|discriminate].
    destruct (resumeLoaded t r (app w)) as [[s1 t1]|] eqn:E; [|discriminate].
    injection H as <-. simpl. exact (resumeLoaded_revoked _ _ _ _ _ E).
  - destruct (nth_error _ _) as [t|]; [|discriminate].
    destruct (resumeBlob t r (app w)) as [[s1 t1]|] eqn:E; [|discriminate].
    injection H as <-. simpl. exact (resumeBlob_revoked _ _ _ _ _ E).
Qed.

Lemma deskStep_revoked d e d' :
  deskStep d e = Some d' ->
  revoked (app (world d'))
  = (releasedAt e (app (world d)) ++ revoked (app (world d)))%list.
Proof.
  unfold deskStep. intros H.
  destruct e as [e| |j ok|j|j url]; simpl releasedAt.
  - destruct (step (world d) e) as [w'|] eqn:Hs; [|discriminate].
    destruct (settleDownloads _ _) as [aw' started].
    injection H as <-. exact (step_revoked _ _ _ Hs).
  - destruct (allConverted _); [|discriminate]. now injection H as <-.
  - destruct (nth_error (downloads d) j) as [[snap|it rest calls|calls|]|];
      try discriminate. now injection H as <-.
  - destruct (nth_error (downloads d) j) as [[snap|it rest calls|calls|]|];
      try discriminate. now injection H as <-.
  - destruct (nth_error (downloads d) j) as [[snap|it rest calls|calls|]|];
      try discriminate. now injection H as <-.
Qed.

(** X6.  Every [URL.revokeObjectURL] call of the component.  The handles
    of items are released by Remove (those of the removed item), by
    Clear all and by the 60-minute timer (those of every item), and by
    nothing else: no conversion event releases a handle, also not the
    output handle it overwrites, and New conversion empties the store
    without releasing the handles of its items.  A download releases one
    handle, the object URL the browser made for the archive it saves,
    when [generateAsync] has resolved; clicking Download All, the import
    and the fetches release nothing. *)
Theorem X_release_log :
  forall (d : Desk) (e : DeskEvent) (d' : Desk),
    deskStep d e = Some d' ->
    revoked (app (world d'))
    = (releasedAt e (app (world d)) ++ revoked (app (world d)))%list.
Proof. exact deskStep_revoked. Qed.

Lemma X_release_log_witness :
  exists d',
    deskStep (mkDesk Sample.world5 [] [] [])
             (Ev (ClickRemove (Sample.idOf "c.jpg"))) = Some d'
    /\ revoked (app (world d')) = ["blob:p2"].
Proof.
  destruct (deskStep (mkDesk Sample.world5 [] [] [])
                     (Ev (ClickRemove (Sample.idOf "c.jpg"))))
    as [d'|] eqn:H; [|vm_compute in H; discriminate].
  exists d'. split; [reflexivity|].
  exact (X_release_log _ _ d' H).
Defined.

Lemma mapItem_identity i f l :
  (forall it, identity (f it) = identity it) ->
  map identity (mapItem i f l) = map identity l.
Proof.
  intros H. unfold mapItem. rewrite map_map. apply map_ext.
  intros it. destruct (id_is i it); auto.
Qed.

Lemma convertAll_loop_identity snapshot s rest st :
  map identity (files (fst (convertAll_loop snapshot s rest st)))
  = map identity (files st).
Proof.
  revert st. induction rest as [|it rest IH]; intros st; simpl.
  - reflexivity.
  - destruct (String.eqb (pngUrl it) ""); [|apply IH].
    destruct (findItem (id it) snapshot); simpl.
    + now apply mapItem_identity.
    + rewrite IH. simpl. now apply mapItem_identity.
Qed.

Lemma convertAll_identity st :
  map identity (files (fst (convertAll st))) = map identity (files st).
Proof.
  unfold convertAll. destruct (files st) eqn:E; [simpl; now rewrite E|].
  rewrite <- E. now rewrite convertAll_loop_identity.
Qed.

Lemma conv_loaded_identity c r st :
  map identity (files (fst (conv_loaded c r st))) = map identity (files st).
Proof.
  unfold conv_loaded. destruct r as [[w h]|].
  - destruct (resolveTarget _ _ _). simpl. now apply mapItem_identity.
  - simpl. now apply mapItem_identity.
Qed.

Lemma conv_blob_identity c r st :
  map identity (files (conv_blob c r st)) = map identity (files st).
Proof. destruct r; simpl; now apply mapItem_identity. Qed.

Lemma resumeLoaded_identity t r st st' t' :
  resumeLoaded t r st = Some (st', t') ->
  map identity (files st') = map identity (files st).
Proof.
  destruct t as [c|c rest snap|]; simpl; [| |discriminate];
    destruct (conv_phase c); try discriminate;
    pose proof (conv_loaded_identity c r st) as H;
    destruct (conv_loaded c r st) as [s1 [c'|]];
    try (intros [= <- <-]; exact H).
  pose proof (convertAll_loop_identity snap (conv_settings c) rest s1) as H2.
  destruct (convertAll_loop _ _ _ _). intros [= <- <-]. simpl in *. congruence.
Qed.

Lemma resumeBlob_identity t r st st' t' :
  resumeBlob t r st = Some (st', t') ->
  map identity (files st') = map identity (files st).
Proof.
  destruct t as [c|c rest snap|]; simpl; [| |discriminate];
    destruct (conv_phase c); try discriminate.
  - intros [= <- <-]. apply conv_blob_identity.
  - pose proof (convertAll_loop_identity snap (conv_settings c) rest
                  (conv_blob c r st)) as H2.
    destruct (convertAll_loop _ _ _ _). intros [= <- <-].
    simpl in H2. rewrite H2. apply conv_blob_identity.
Qed.

(** X7.  Conversions act on the items in place: a click on Convert, Convert
    All or Convert & Download All, and every settled image or blob,
    leave the store with the same items in the same order, each with its
    id, file and preview handle.  So a conversion that completes after
    its item was removed, or after the store was cleared, brings nothing
    back. *)
Theorem X_conversions_keep_the_items :
  forall (w : World) (e : Event) (w' : World),
    step w e = Some w' ->
    match e with
    | ClickConvert _ | ClickConvertAll | ClickConvertDownloadAll
    | ImageSettled _ _ | BlobSettled _ _ => True
    | _ => False
    end ->
    map identity (files (app w')) = map identity (files (app w))
    /\ (files (app w) = [] -> files (app w') = []).
Proof.
  intros w e w' H He.
  assert (K : map identity (files (app w')) = map identity (files (app w))).
  { unfold step, guarded in H.
    destruct e as [fresh lst|i| | |i|i delta| | |s| |k r|k r];
      try contradiction.
    - simpl in H. pass_guard H. simpl. now apply mapItem_identity.
    - pose proof (convertAll_identity (app w)) as P.
      destruct (convertAll (app w)). pass_guard H. exact P.
    - pose proof (convertAll_identity (app w)) as P.
      destruct (convertAll (app w)). pass_guard H. exact P.
    - destruct (nth_error _ _) as [t|]; [|discriminate].
      destruct (resumeLoaded t r (app w)) as [[s1 t1]|] eqn:E; [|discriminate].
      injection H as <-. simpl. exact (resumeLoaded_identity _ _ _ _ _ E).
    - destruct (nth_error _ _) as [t|]; [|discriminate].
      destruct (resumeBlob t r (app w)) as [[s1 t1]|] eqn:E; [|discriminate].
      injection H as <-. simpl. exact (resumeBlob_identity _ _ _ _ _ E). }
  split; [exact K|].
  intros E0. rewrite E0 in K. simpl in K.
  destruct (files (app w')); [reflexivity | discriminate].
Qed.

Lemma X_conversions_keep_witness :
  exists w',
    step Sample.world2 ClickConvertAll = Some w'
    /\ map identity (files (app w'))
       = map identity (files (app Sample.world2)).
Proof.
  destruct (step Sample.world2 ClickConvertAll) as [w'|] eqn:H;
    [|vm_compute in H; discriminate].
  exists w'. split; [reflexivity|].
  exact (proj1 (X_conversions_keep_the_items Sample.world2 ClickConvertAll
                  w' H I)).
Defined.

(* ================================================================== *)
(** * Status, message and output handle go together *)
(* ================================================================== *)

Lemma Forall_mapItem (P : Item -> Prop) i f l :
  (forall it, P it -> P (f it)) -> Forall P l -> Forall P (mapItem i f l).
Proof.
  intros Hf H. unfold mapItem. induction H as [|it l Hit Hl IH]; simpl.
  - constructor.
  - constructor; [destruct (id_is i it); auto | exact IH].
Qed.

Lemma coherent_markConverting it : coherent it -> coherent (markConverting it).
Proof. intros _. reflexivity. Qed.

Lemma coherent_withSize w h it : coherent it -> coherent (withSize w h it).
Proof. intros H. exact H. Qed.

Lemma coherent_markDone url it : coherent it -> coherent (markDone url it).
Proof. intros _. exact I. Qed.

Lemma coherent_markError it : coherent it -> coherent (markError it).
Proof. intros _. reflexivity. Qed.

Lemma coherent_createItems fresh k l : Forall coherent (createItems fresh k l).
Proof.
  revert k. induction l as [|f l IH]; intros k; simpl; constructor.
  - split; reflexivity.
  - apply IH.
Qed.

Lemma coherent_convertAll_loop snapshot s rest st :
  Forall coherent (files st) ->
  Forall coherent (files (fst (convertAll_loop snapshot s rest st))).
Proof.
  revert st. induction rest as [|it rest IH]; intros st H; simpl.
  - exact H.
  - destruct (String.eqb (pngUrl it) ""); [|now apply IH].
    destruct (findItem (id it) snapshot); simpl.
    + apply Forall_mapItem; [apply coherent_markConverting | exact H].
    + apply IH. simpl.
      apply Forall_mapItem; [apply coherent_markConverting | exact H].
Qed.

Lemma coherent_convertAll st :
  Forall coherent (files st) -> Forall coherent (files (fst (convertAll st))).
Proof.
  intros H. unfold convertAll. destruct (files st) eqn:E.
  - simpl. rewrite E. constructor.
  - apply coherent_convertAll_loop. simpl. rewrite E. exact H.
Qed.

Lemma coherent_conv_loaded c r st :
  Forall coherent (files st) ->
  Forall coherent (files (fst (conv_loaded c r st))).
Proof.
  intros H. unfold conv_loaded. destruct r as [[w h]|].
  - destruct (resolveTarget _ _ _). simpl.
    apply Forall_mapItem; [apply coherent_withSize | exact H].
  - simpl. apply Forall_mapItem; [apply coherent_markError | exact H].
Qed.

Lemma coherent_conv_blob c r st :
  Forall coherent (files st) -> Forall coherent (files (conv_blob c r st)).
Proof.
  intros H. destruct r; simpl; apply Forall_mapItem; auto.
  - apply coherent_markDone.
  - apply coherent_markError.
Qed.

Lemma coherent_step w e w' :
  step w e = Some w' ->
  Forall coherent (files (app w)) -> Forall coherent (files (app w')).
Proof.
  unfold step, guarded. intros H Hc.
  destruct e as [fresh lst|i| | |i|i delta| | |s| |k r|k r].
  - injection H as <-. simpl. rewrite files_onSelectFiles.
    apply Forall_app. split; [exact Hc | apply coherent_createItems].
  - simpl in H. pass_guard H. simpl.
    apply Forall_mapItem; [apply coherent_markConverting | exact Hc].
  - pose proof (coherent_convertAll (app w) Hc) as P.
    destruct (convertAll (app w)). pass_guard H. exact P.
  - pose proof (coherent_convertAll (app w) Hc) as P.
    destruct (convertAll (app w)). pass_guard H. exact P.
  - pass_guard H. simpl. unfold removeOne.
    destruct (findItem i (files (app w))); simpl;
      rewrite ?files_revokeUrls; apply incl_Forall with (l1 := files (app w));
      try exact Hc; apply incl_filter.
  - pass_guard H. simpl.
    eapply Permutation_Forall; [symmetry; apply moveItem_perm | exact Hc].
  - pass_guard H. constructor.
  - pass_guard H. constructor.
  - injection H as <-. exact Hc.
  - pass_guard H. constructor.
  - destruct (nth_error _ _) as [t|]; [|discriminate].
    destruct (resumeLoaded t r (app w)) as [[s1 t1]|] eqn:E; [|discriminate].
    injection H as <-. simpl.
    destruct t as [c|c rest snap|]; simpl in E; [| |discriminate];
      destruct (conv_phase c); try discriminate;
      pose proof (coherent_conv_loaded c r (app w) Hc) as Q;
      destruct (conv_loaded c r (app w)) as [s2 [c'|]];
      try (injection E as <- <-; exact Q).
    pose proof (coherent_convertAll_loop snap (conv_settings c) rest s2 Q) as Q2.
    destruct (convertAll_loop _ _ _ _). injection E as <- <-. exact Q2.
  - destruct (nth_error _ _) as [t|]; [|discriminate].
    destruct (resumeBlob t r (app w)) as [[s1 t1]|] eqn:E; [|discriminate].
    injection H as <-. simpl.
    destruct t as [c|c rest snap|]; simpl in E; [| |discriminate];
      destruct (conv_phase c); try discriminate;
      pose proof (coherent_conv_blob c r (app w) Hc) as Q.
    + injection E as <- <-. exact Q.
    + pose proof (coherent_convertAll_loop snap (conv_settings c) rest _ Q)
        as Q2.
      destruct (convertAll_loop _ _ _ _). injection E as <- <-. exact Q2.
Qed.

(** X8.  In every reachable state, whatever the interleaving of clicks and
    conversions: an idle item has neither output handle nor error
    message, a converting item shows no error message, and an item in
    error carries the message ["Failed to convert"]. *)
Theorem X_status_and_message_agree :
  forall w : World, reachable w -> Forall coherent (files (app w)).
Proof.
  induction 1 as [|w e w' _ IH Hs].
  - constructor.
  - exact (coherent_step _ _ _ Hs IH).
Qed.

Lemma X_status_and_message_witness :
  Forall coherent (files (app Cases.restarted)).
Proof.
  apply X_status_and_message_agree.
  apply (reachable_run Sample.world2
           (Sample.staleRestart ++ [BlobSettled 0 (Some "blob:a1")])).
  - exact reachable_world2.
  - vm_compute. reflexivity.
Defined.

(* ================================================================== *)
(** * File names *)
(* ================================================================== *)

Lemma length_append_str (s x : string) :
  String.length (s ++ x) = (String.length s + String.length x)%nat.
Proof. induction s as [|c s IH]; simpl; congruence. Qed.

Lemma length_lowercase s : String.length (Str.lowercase s) = String.length s.
Proof. induction s as [|c s IH]; simpl; congruence. Qed.

Lemma substring_all x : substring 0 (String.length x) x = x.
Proof. induction x as [|c x IH]; simpl; congruence. Qed.

Lemma substring_app_r s x k n :
  substring (String.length s + k) n (s ++ x) = substring k n x.
Proof. induction s as [|c s IH]; simpl; auto. Qed.

Lemma substring_app_l s x : substring 0 (String.length s) (s ++ x) = s.
Proof.
  induction s as [|c s IH]; simpl.
  - now destruct x.
  - now rewrite IH.
Qed.

Lemma drop_app s x k :
  (k <= String.length x)%nat ->
  Str.drop (String.length (s ++ x) - (String.length x - k)) (s ++ x)
  = Str.drop k x.
Proof.
  intros Hk. unfold Str.drop. rewrite length_append_str.
  replace (String.length s + String.length x - (String.length x - k))%nat
    with (String.length s + k)%nat by lia.
  rewrite substring_app_r. f_equal. lia.
Qed.

Lemma ends_ci_suffix p s x :
  Str.lowercase x = p -> Str.ends_ci p (s ++ x) = true.
Proof.
  intros <-. unfold Str.ends_ci. rewrite length_lowercase.
  assert (H : (String.length x <=? String.length (s ++ x))%nat = true)
    by (apply Nat.leb_le; rewrite length_append_str; lia).
  rewrite H. simpl.
  pose proof (drop_app s x 0 (Nat.le_0_l _)) as D.
  rewrite Nat.sub_0_r in D. rewrite D.
  unfold Str.drop, Str.eqb_ci. rewrite Nat.sub_0_r, substring_all.
  apply String.eqb_refl.
Qed.

Lemma take_suffix s x :
  Str.take (String.length (s ++ x) - String.length x) (s ++ x) = s.
Proof.
  unfold Str.take. rewrite length_append_str.
  replace (String.length s + String.length x - String.length x)%nat
    with (String.length s) by lia.
  apply substring_app_l.
Qed.

Lemma jpeg_not_jpg s x :
  Str.lowercase x = ".jpeg" -> Str.ends_ci ".jpg" (s ++ x) = false.
Proof.
  intros H.
  assert (L : String.length x = 5%nat)
    by (rewrite <- length_lowercase, H; reflexivity).
  unfold Str.ends_ci. apply andb_false_iff. right.
  replace (String.length (s ++ x) - String.length ".jpg")%nat
    with (String.length (s ++ x) - (String.length x - 1))%nat
    by (rewrite L; reflexivity).
  rewrite (drop_app s x 1) by lia.
  destruct x as [|c1 [|c2 [|c3 [|c4 [|c5 [|c6 x]]]]]]; try discriminate L.
  simpl in H. injection H as _ H2 H3 H4 H5.
  unfold Str.drop, Str.eqb_ci. simpl. rewrite H2. reflexivity.
Qed.

(** X9.  A file name that ends in [.jpg] or [.jpeg], in any mix of upper and
    lower case, passes the extension test and loses exactly that suffix;
    its download name is the stem with the extension of the selected
    format and its archive name the stem with [.png], the word [image]
    standing in for an empty stem.  A name that fails the test (a file
    admitted by its media type) is kept whole, so the new extension is
    appended to it. *)
Theorem X_names_lose_the_jpeg_suffix :
  forall (s x : string),
    Str.lowercase x = ".jpg" \/ Str.lowercase x = ".jpeg" ->
    test_jpeg_ext (s ++ x) = true
    /\ strip_jpeg_ext (s ++ x) = s
    /\ (forall f it,
           name (file it) = s ++ x ->
           downloadName f it = or_image s ++ "." ++ ext_of f
           /\ zipEntryName it = or_image s ++ ".png")
    /\ (forall n f it,
           test_jpeg_ext n = false -> name (file it) = n ->
           strip_jpeg_ext n = n
           /\ downloadName f it = or_image n ++ "." ++ ext_of f).
Proof.
  intros s x Hx.
  assert (T : test_jpeg_ext (s ++ x) = true).
  { unfold test_jpeg_ext. destruct Hx as [H|H];
      rewrite (ends_ci_suffix _ s x H); [reflexivity | apply orb_true_r]. }
  assert (S : strip_jpeg_ext (s ++ x) = s).
  { unfold strip_jpeg_ext. destruct Hx as [H|H].
    - rewrite (ends_ci_suffix _ s x H).
      replace 4%nat with (String.length x)
        by (rewrite <- length_lowercase, H; reflexivity).
      apply take_suffix.
    - rewrite (jpeg_not_jpg s x H), (ends_ci_suffix _ s x H).
      replace 5%nat with (String.length x)
        by (rewrite <- length_lowercase, H; reflexivity).
      apply take_suffix. }
  split; [exact T|]. split; [exact S|]. split.
  - intros f it Hn. unfold downloadName, zipEntryName. now rewrite Hn, S.
  - intros n f it Hn Hname.
    assert (S' : strip_jpeg_ext n = n).
    { unfold strip_jpeg_ext. unfold test_jpeg_ext in Hn.
      apply orb_false_iff in Hn. destruct Hn as [-> ->]. reflexivity. }
    split; [exact S'|]. unfold downloadName. now rewrite Hname, S'.
Qed.

Lemma X_names_witness :
  test_jpeg_ext "holiday.JPG" = true
  /\ strip_jpeg_ext "holiday.JPG" = "holiday".
Proof.
  pose proof (X_names_lose_the_jpeg_suffix "holiday" ".JPG"
                (or_introl eq_refl)) as H.
  split; [exact (proj1 H) | exact (proj1 (proj2 H))].
Defined.

(* ================================================================== *)
(** * After a batch in which every conversion succeeds *)
(* ================================================================== *)

Lemma attempt_all_output oracle l :
  allSucceed oracle l -> forallb hasOutput (map (attempt oracle) l) = true.
Proof.
  intros H. apply forallb_forall. intros y Hy.
  apply in_map_iff in Hy. destruct Hy as (it & <- & Hin).
  destruct (hasOutput it) eqn:Ho.
  - unfold attempt. now rewrite Ho.
  - destruct (H it Hin Ho) as (sw & sh & url & Hs & Hu).
    now destruct (attempt_success oracle it sw sh url Ho Hs Hu).
Qed.

Lemma click_convertAll_runs oracle w :
  NoDup (map id (files (app w))) ->
  anySelected (app w) = true ->
  convertAllDisabled (app w) = false ->
  exists w',
    run w (ClickConvertAll
             :: batchSchedule oracle (List.length (threads w)) (files (app w)))
    = Some w'
    /\ files (app w') = map (attempt oracle) (files (app w))
    /\ isConvertingAll (app w') = false.
Proof.
  intros Hnd Hany Hdis. destruct w as [st ths]. cbn [app threads] in *.
  destruct (batch_loop_runs oracle (files st) (settings st) ths Hnd
              (files st) [] (setIsConvertingAll true st) eq_refl eq_refl)
    as (st2 & Hrun & Hfiles & Hflag).
  exists (mkWorld st2 (ths ++ [Finished])%list). split; [|split; assumption].
  rewrite run_cons. unfold step. cbn [app threads].
  assert (Hc : convertAll st
               = convertAll_loop (files st) (settings st) (files st)
                                 (setIsConvertingAll true st)).
  { unfold convertAll. unfold anySelected in Hany.
    destruct (files st); [discriminate | reflexivity]. }
  rewrite Hc, (surjective_pairing (convertAll_loop _ _ _ _)).
  rewrite Hany, Hdis. exact Hrun.
Qed.

(* ================================================================== *)
(** * The archive of Convert & Download All *)
(* ================================================================== *)

Lemma batchSchedule_settles oracle k l :
  forallb isSettle (batchSchedule oracle k l) = true.
Proof.
  unfold batchSchedule. induction l as [|it l IH]; simpl; [reflexivity|].
  rewrite forallb_app, IH, andb_true_r.
  destruct (hasOutput it); [reflexivity|]. now destruct (oracle it).
Qed.

Lemma run_settles_revoked es :
  forallb isSettle es = true ->
  forall w w', run w es = Some w' -> revoked (app w') = revoked (app w).
Proof.
  induction es as [|e es IH]; intros Hs w w' Hrun.
  - now injection Hrun as <-.
  - simpl in Hs. apply andb_true_iff in Hs. destruct Hs as [He Hs].
    rewrite run_cons in Hrun.
    destruct (step w e) as [w1|] eqn:Hstep; [|discriminate].
    rewrite (IH Hs w1 w' Hrun).
    pose proof (step_revoked _ _ _ Hstep) as R.
    destruct e; try discriminate He; exact R.
Qed.

Lemma settle_pending k snapshot dls w aw0 dl0 ar :
  (aw0 = [(k, snapshot)] /\ dl0 = dls) \/
  (aw0 = [] /\ dl0 = (dls ++ [downloadAllZip snapshot])%list) ->
  downloadPending k snapshot dls
    (mkDesk w (fst (settleDownloads w aw0))
              (dl0 ++ snd (settleDownloads w aw0)) ar).
Proof.
  intros [[-> ->]|[-> ->]]; unfold downloadPending; simpl.
  - destruct (threadFinished w k) eqn:E; simpl.
    + right. auto.
    + left. rewrite app_nil_r. auto.
  - right. rewrite app_nil_r. auto.
Qed.

Lemma deskStep_Ev d e w' :
  step (world d) e = Some w' ->
  deskStep d (Ev e)
  = Some (let aw := match e with
                    | ClickConvertDownloadAll =>
                        (awaiting d
                         ++ [(List.length (threads (world d)),
                              files (app (world d)))])%list
                    | _ => awaiting d
                    end in
          mkDesk w' (fst (settleDownloads w' aw))
                    (downloads d ++ snd (settleDownloads w' aw))
                    (archives d)).
Proof.
  intros H. unfold deskStep. rewrite H. cbv zeta.
  now destruct (settleDownloads _ _).
Qed.

Lemma deskRun_cons d e es :
  deskRun d (e :: es)
  = match deskStep d e with
    | Some d' => deskRun d' es
    | None => None
    end.
Proof. reflexivity. Qed.

Lemma deskRun_app d es1 es2 :
  deskRun d (es1 ++ es2)
  = match deskRun d es1 with
    | Some d' => deskRun d' es2
    | None => None
    end.
Proof.
  revert d. induction es1 as [|e es1 IH]; intros d; simpl; [reflexivity|].
  destruct (deskStep d e); [apply IH | reflexivity].
Qed.

Lemma deskRun_settles k snapshot dls es :
  forallb isSettle es = true ->
  forall d w',
    run (world d) es = Some w' ->
    downloadPending k snapshot dls d ->
    exists d',
      deskRun d (map Ev es) = Some d' /\ world d' = w'
      /\ archives d' = archives d
      /\ downloadPending k snapshot dls d'.
Proof.
  induction es as [|e es IH]; intros Hs d w' Hrun Hp.
  - simpl in Hrun. injection Hrun as <-. exists d. auto.
  - simpl in Hs. apply andb_true_iff in Hs. destruct Hs as [He Hs].
    rewrite run_cons in Hrun.
    destruct (step (world d) e) as [w1|] eqn:Hstep; [|discriminate].
    simpl map. rewrite deskRun_cons, (deskStep_Ev d e w1 Hstep).
    assert (Haw : match e with
                  | ClickConvertDownloadAll =>
                      (awaiting d
                       ++ [(List.length (threads (world d)),
                            files (app (world d)))])%list
                  | _ => awaiting d
                  end = awaiting d)
      by (destruct e; try discriminate He; reflexivity).
    cbv zeta. rewrite Haw.
    match goal with
    | |- exists d', deskRun ?d1 _ = _ /\ _ =>
        destruct (IH Hs d1 w' Hrun) as (d' & R & W & A & P)
    end.
    + apply settle_pending.
      destruct Hp as [(-> & -> & _)|[-> ->]]; auto.
    + exists d'. auto.
Qed.

Lemma setDownload_last dls dl dl' :
  setDownload (List.length dls) dl' (dls ++ [dl]) = (dls ++ [dl'])%list.
Proof.
  unfold setDownload.
  rewrite firstn_app, Nat.sub_diag, firstn_all, skipn_app.
  rewrite skipn_all2 by lia.
  replace (S (List.length dls) - List.length dls)%nat with 1%nat by lia.
  simpl. now rewrite app_nil_r.
Qed.

(** While its outputs are live the loop stops at each of them in turn. *)
Lemma zipLoop_live rest calls st :
  outputsLive rest st = true ->
  match filter hasOutput rest with
  | [] => zipLoop rest calls st = AwaitGenerate calls
  | it :: more =>
      exists rest',
        zipLoop rest calls st = AwaitFetch it rest' calls
        /\ filter hasOutput rest' = more
        /\ outputsLive rest' st = true
  end.
Proof.
  unfold outputsLive. induction rest as [|x rest IH]; simpl; intros H.
  - reflexivity.
  - destruct (hasOutput x) eqn:Hx.
    + simpl in H. apply andb_true_iff in H. destruct H as [H1 H2].
      apply negb_true_iff in H1. rewrite H1. exists rest. auto.
    + apply IH. exact H.
Qed.

Lemma fetches_run more :
  forall rest calls d dls,
    filter hasOutput rest = more ->
    outputsLive rest (app (world d)) = true ->
    downloads d = (dls ++ [zipLoop rest calls (app (world d))])%list ->
    exists d',
      deskRun d (repeat (FetchSettled (List.length dls)) (List.length more))
      = Some d'
      /\ world d' = world d /\ awaiting d' = awaiting d
      /\ archives d' = archives d
      /\ downloads d'
         = (dls ++ [AwaitGenerate
                      (calls ++ map (fun it => (zipEntryName it, pngUrl it))
                                    more)])%list.
Proof.
  induction more as [|it more IH]; intros rest calls d dls Hf Hl Hd.
  - exists d. pose proof (zipLoop_live rest calls _ Hl) as Z.
    rewrite Hf in Z. rewrite Z in Hd. simpl. rewrite app_nil_r. auto.
  - pose proof (zipLoop_live rest calls _ Hl) as Z. rewrite Hf in Z.
    destruct Z as (rest' & Z & Hf' & Hl'). rewrite Z in Hd.
    cbn [List.length repeat]. rewrite deskRun_cons.
    unfold deskStep. rewrite Hd, nth_error_last, setDownload_last.
    match goal with
    | |- exists d', deskRun ?d1 _ = _ /\ _ =>
        destruct (IH rest' (calls ++ [(zipEntryName it, pngUrl it)])%list
                     d1 dls Hf' Hl' eq_refl)
          as (d' & R & W & A & Ar & D)
    end.
    exists d'. split; [exact R|]. cbn [world awaiting archives] in *.
    repeat (split; [assumption|]).
    rewrite D, <- app_assoc. reflexivity.
Qed.

(** A download whose outputs are live and which nothing interrupts saves
    the archive of its [files] and releases the archive's handle. *)
Lemma download_runs snapshot url d dls :
  outputsLive snapshot (app (world d)) = true ->
  downloads d = (dls ++ [downloadAllZip snapshot])%list ->
  exists d',
    deskRun d (downloadSchedule (List.length dls) snapshot url) = Some d'
    /\ world d'
       = mkWorld (logRevoke url (app (world d))) (threads (world d))
    /\ awaiting d' = awaiting d
    /\ downloads d' = (dls ++ [Ended])%list
    /\ archives d' = zipEntries snapshot :: archives d.
Proof.
  intros Hl Hd. unfold downloadSchedule.
  rewrite deskRun_cons. unfold deskStep at 1.
  rewrite Hd. unfold downloadAllZip at 1.
  rewrite nth_error_last, setDownload_last.
  rewrite deskRun_app.
  match goal with
  | |- exists d', match deskRun ?d1 _ with _ => _ end = _ /\ _ =>
      destruct (fetches_run (filter hasOutput snapshot) snapshot [] d1 dls
                  eq_refl Hl eq_refl)
        as (d2 & R & W & A & Ar & D)
  end.
  rewrite R. cbn [world awaiting archives downloads] in *.
  rewrite deskRun_cons. unfold deskStep.
  rewrite D, nth_error_last, setDownload_last, W, A, Ar.
  eexists. split; [reflexivity|]. cbn [world awaiting archives downloads].
  auto.
Qed.

(** X11.  Convert & Download All saves the archive of the [files] its
    handler closed over at the click.  After an uninterrupted batch and
    an uninterrupted download over a store with distinct ids whose
    output handles are still live, exactly one archive has been saved
    and its handle released, and the archive was built from the items
    that already had an output when the button was clicked: none of the
    items this batch converted is in it, so it always has fewer entries
    than the store has items, also when every conversion succeeded and
    every item now has an output. *)
Theorem X_convert_and_download_archives_the_old_files :
  forall (oracle : Item -> Outcome) (d : Desk) (url : string),
    awaiting d = [] ->
    NoDup (map id (files (app (world d)))) ->
    convertDownloadAllShown (app (world d)) = true ->
    outputsLive (files (app (world d))) (app (world d)) = true ->
    exists d',
      deskRun d ((Ev ClickConvertDownloadAll
                    :: map Ev (batchSchedule oracle
                                 (List.length (threads (world d)))
                                 (files (app (world d)))))
                 ++ downloadSchedule (List.length (downloads d))
                                     (files (app (world d))) url)
      = Some d'
      /\ files (app (world d'))
         = map (attempt oracle) (files (app (world d)))
      /\ awaiting d' = []
      /\ downloads d' = (downloads d ++ [Ended])%list
      /\ archives d' = zipEntries (files (app (world d))) :: archives d
      /\ revoked (app (world d')) = url :: revoked (app (world d))
      /\ (List.length (zipEntries (files (app (world d))))
          < List.length (files (app (world d))))%nat
      /\ (allSucceed oracle (files (app (world d))) ->
          allConverted (app (world d')) = true).
Proof.
  intros oracle d url Haw Hnd Hshown Hlive.
  destruct d as [[st ths] aw dls ar].
  cbn [world app threads awaiting archives downloads] in *.
  subst aw.
  assert (Hany : anySelected st = true).
  { unfold convertDownloadAllShown in Hshown.
    now apply andb_true_iff in Hshown. }
  assert (Hnot : allConverted st = false).
  { unfold convertDownloadAllShown in Hshown.
    apply andb_true_iff in Hshown. now apply negb_true_iff. }
  destruct (batch_loop_runs oracle (files st) (settings st) ths Hnd
              (files st) [] (setIsConvertingAll true st) eq_refl eq_refl)
    as (st2 & Hrun & Hfiles & Hflag).
  set (lp := convertAll_loop (files st) (settings st) (files st)
                             (setIsConvertingAll true st)) in *.
  set (w1 := mkWorld (fst lp) (ths ++ [snd lp])%list) in *.
  assert (Hstep : step (mkWorld st ths) ClickConvertDownloadAll = Some w1).
  { unfold step. cbn [app threads].
    assert (Hc : convertAll st = lp).
    { unfold convertAll, lp. unfold anySelected in Hany.
      destruct (files st); [discriminate | reflexivity]. }
    rewrite Hc, (surjective_pairing lp), Hshown. reflexivity. }
  assert (Hrev1 : revoked (app w1) = revoked st)
    by exact (step_revoked _ _ _ Hstep).
  assert (Hrev2 : revoked st2 = revoked st).
  { rewrite <- Hrev1.
    exact (run_settles_revoked _ (batchSchedule_settles _ _ _) _ _ Hrun). }
  rewrite deskRun_app, deskRun_cons.
  rewrite (deskStep_Ev (mkDesk (mkWorld st ths) [] dls ar) _ w1 Hstep).
  cbv zeta. cbn [world app threads awaiting archives downloads].
  change ([] ++ [(List.length ths, files st)])%list
    with [(List.length ths, files st)].
  destruct (deskRun_settles (List.length ths) (files st) dls
              (batchSchedule oracle (List.length ths) (files st))
              (batchSchedule_settles _ _ _)
              (mkDesk w1
                 (fst (settleDownloads w1 [(List.length ths, files st)]))
                 (dls ++ snd (settleDownloads w1
                                [(List.length ths, files st)]))
                 ar)
              (mkWorld st2 (ths ++ [Finished])%list) Hrun)
    as (d1 & Hd1 & Hw1 & Har1 & Hp1).
  { apply settle_pending. left. auto. }
  rewrite Hd1.
  assert (Hfin : threadFinished (world d1) (List.length ths) = true).
  { rewrite Hw1. unfold threadFinished. cbn [threads].
    now rewrite nth_error_last. }
  destruct Hp1 as [(_ & _ & Hf)|[Ha1 Hdl1]]; [congruence|].
  assert (Hlive1 : outputsLive (files st) (app (world d1)) = true).
  { rewrite Hw1. cbn [app]. unfold outputsLive in *. now rewrite Hrev2. }
  destruct (download_runs (files st) url d1 dls Hlive1 Hdl1)
    as (d' & Hd' & Hw' & Ha' & Hdl' & Har').
  exists d'. split; [exact Hd'|].
  rewrite Hw', Hw1. cbn [app threads files revoked logRevoke].
  split; [exact Hfiles|].
  split; [congruence|]. split; [exact Hdl'|].
  split; [cbn [archives] in Har1; congruence|].
  split; [now rewrite Hrev2|].
  split.
  - unfold zipEntries. rewrite length_map.
    unfold allConverted in Hnot. rewrite Hany in Hnot. simpl in Hnot.
    clear - Hnot. induction (files st) as [|it l IH]; [discriminate|].
    simpl in *. destruct (hasOutput it); simpl in *.
    + specialize (IH Hnot). lia.
    + pose proof (filter_length_le hasOutput l). lia.
  - intros Hall. pose proof (attempt_all_output oracle _ Hall) as Hout.
    unfold allConverted, logRevoke. cbn [files]. rewrite Hfiles, Hout.
    unfold anySelected in *. cbn [files].
    destruct (files st); [discriminate | reflexivity].
Qed.

Lemma X_convert_and_download_witness :
  exists d',
    deskRun Cases.desk
            ((Ev ClickConvertDownloadAll
                :: map Ev (batchSchedule Cases.oracleOk 1
                             (files (app Cases.firstConverted))))
             ++ downloadSchedule 0 (files (app Cases.firstConverted))
                                 "blob:zip")
    = Some d'
    /\ archives d' = [[("a.png", "blob:a1")]]
    /\ revoked (app (world d')) = ["blob:zip"]
    /\ allConverted (app (world d')) = true.
Proof.
  destruct (X_convert_and_download_archives_the_old_files
              Cases.oracleOk Cases.desk "blob:zip")
    as (d' & Hr & _ & _ & _ & Ha & Hv & _ & Hc).
  - reflexivity.
  - vm_compute. repeat constructor; simpl; intuition discriminate.
  - vm_compute. reflexivity.
  - vm_compute. reflexivity.
  - exists d'. split; [exact Hr|]. split; [exact Ha|]. split; [exact Hv|].
    apply Hc. intros it _ _. exists 640, 480, ("blob:out-" ++ name (file it)).
    split; [reflexivity | discriminate].
Defined.

(* ================================================================== *)
(** * Download All after a batch in which every conversion succeeds *)
(* ================================================================== *)

(** X10.  When every conversion of an uninterrupted batch succeeds,
    every item ends with an output: the counter shows all items, Convert
    All is disabled and cannot be clicked again, Convert & Download All
    and the items' Convert buttons are gone.  A Download All (ZIP) that
    nothing interrupts and whose outputs are live then saves an archive
    for which [folder.file] was called once for every item, in the
    order of the store, with the item's entry name and output. *)
Theorem X_successful_batch_converts_all :
  forall (oracle : Item -> Outcome) (w : World),
    NoDup (map id (files (app w))) ->
    anySelected (app w) = true ->
    convertAllDisabled (app w) = false ->
    allSucceed oracle (files (app w)) ->
    exists w',
      run w (ClickConvertAll
               :: batchSchedule oracle (List.length (threads w))
                                (files (app w)))
      = Some w'
      /\ allConverted (app w') = true
      /\ convertedCount (app w') = List.length (files (app w))
      /\ List.length (files (app w')) = List.length (files (app w))
      /\ convertAllDisabled (app w') = true
      /\ step w' ClickConvertAll = None
      /\ convertDownloadAllShown (app w') = false
      /\ Forall (fun it => convertButton it = None) (files (app w'))
      /\ zipEntries (files (app w'))
         = map (fun it => (zipEntryName it, pngUrl it)) (files (app w'))
      /\ (outputsLive (files (app w')) (app w') = true ->
          forall aw dls ar url,
          exists d',
            deskRun (mkDesk w' aw dls ar)
                    (ClickDownloadAll
                       :: downloadSchedule (List.length dls)
                                           (files (app w')) url)
            = Some d'
            /\ archives d'
               = map (fun it => (zipEntryName it, pngUrl it))
                     (files (app w')) :: ar).
Proof.
  intros oracle w Hnd Hany Hdis Hall.
  destruct (click_convertAll_runs oracle w Hnd Hany Hdis)
    as (w' & Hrun & Hfiles & Hflag).
  exists w'. split; [exact Hrun|].
  pose proof (attempt_all_output oracle _ Hall) as Hout.
  rewrite <- Hfiles in Hout.
  assert (Hlen : List.length (files (app w')) = List.length (files (app w)))
    by (rewrite Hfiles; apply length_map).
  assert (Hany' : anySelected (app w') = true).
  { unfold anySelected in *. destruct (files (app w)); [discriminate|].
    destruct (files (app w')); [discriminate | reflexivity]. }
  assert (Hac : allConverted (app w') = true).
  { unfold allConverted. now rewrite Hany', Hout. }
  assert (Hfil : filter hasOutput (files (app w')) = files (app w'))
    by (now apply forallb_filter_id).
  split; [exact Hac|].
  split; [unfold convertedCount; now rewrite Hfil|].
  split; [exact Hlen|].
  assert (Hd : convertAllDisabled (app w') = true).
  { unfold convertAllDisabled. rewrite Hac. apply orb_true_r. }
  split; [exact Hd|].
  split.
  { unfold step. destruct (convertAll (app w')). rewrite Hd, Hany'.
    reflexivity. }
  split; [unfold convertDownloadAllShown; now rewrite Hac|].
  split.
  - apply Forall_forall. intros it Hin. unfold convertButton.
    rewrite forallb_forall in Hout. now rewrite (Hout it Hin).
  - assert (Hz : zipEntries (files (app w'))
                 = map (fun it => (zipEntryName it, pngUrl it))
                       (files (app w')))
      by (unfold zipEntries; now rewrite Hfil).
    split; [exact Hz|].
    intros Hlive aw dls ar url. rewrite deskRun_cons.
    unfold deskStep at 1. cbn [world awaiting downloads archives].
    rewrite Hac.
    destruct (download_runs (files (app w')) url
                (mkDesk w' aw (dls ++ [downloadAllZip (files (app w'))]) ar)
                dls Hlive eq_refl)
      as (d' & R & _ & _ & _ & Ar).
    exists d'. split; [exact R|]. now rewrite Ar, Hz.
Qed.

Lemma X_successful_batch_witness :
  exists w',
    run Sample.world5
        (ClickConvertAll
           :: batchSchedule Cases.oracleOk 0 (files (app Sample.world5)))
    = Some w'
    /\ allConverted (app w') = true.
Proof.
  destruct (X_successful_batch_converts_all Cases.oracleOk Sample.world5)
    as (w' & Hr & Ha & _).
  - vm_compute. repeat constructor; simpl; intuition discriminate.
  - vm_compute. reflexivity.
  - vm_compute. reflexivity.
  - intros it _ _. exists 640, 480, ("blob:out-" ++ name (file it)).
    split; [reflexivity | discriminate].
  - exists w'. split; [exact Hr | exact Ha].
Defined.


(* ================================================================== *)
(** * Limits that do not count, stretch mode, and the encoder quality *)
(* ================================================================== *)

Lemma gt_or_zero x : JS.gt (JS.or_zero x) JS.zero = JS.gt x JS.zero.
Proof. destruct x as [s|s| |s m e]; try reflexivity; now destruct s. Qed.

Lemma or_zero_gt x : JS.gt x JS.zero = true -> JS.or_zero x = x.
Proof. destruct x as [s|s| |s m e]; try reflexivity; discriminate. Qed.

(** X12.  A limit counts only when it is greater than zero: with limits that
    are [0], [-0], [NaN] or negative on both axes the target size is the
    source size, in either fit mode and whatever the aspect lock.  In
    stretch mode a limit that counts is taken as it is on its axis, not
    scaled, not rounded and not raised to 1, and the other axis is
    decided on its own, whatever the aspect lock. *)
Theorem X_limits_that_count :
  forall (s : Settings) (srcW srcH : number),
    (JS.gt (maxWidth s) JS.zero = false ->
     JS.gt (maxHeight s) JS.zero = false ->
     resolveTarget s srcW srcH = (srcW, srcH))
    /\ (fitMode s = stretch ->
        resolveTarget s srcW srcH
        = (if JS.gt (maxWidth s) JS.zero then maxWidth s else srcW,
           if JS.gt (maxHeight s) JS.zero then maxHeight s else srcH)).
Proof.
  intros s srcW srcH. split.
  - intros Hw Hh. unfold resolveTarget.
    rewrite !gt_or_zero, Hw, Hh. now destruct (fitMode s).
  - intros Hm. unfold resolveTarget. rewrite Hm, !gt_or_zero.
    destruct (JS.gt (maxWidth s) JS.zero) eqn:Ew;
      destruct (JS.gt (maxHeight s) JS.zero) eqn:Eh;
      rewrite ?(or_zero_gt _ Ew), ?(or_zero_gt _ Eh); reflexivity.
Qed.




(* ================================================================== *)
(** * Rounding bounds for the resize arithmetic *)
(* ================================================================== *)

Module Rounding.
Import Binary64.

Lemma Zdigits2_lower z : 0 < z -> 2 ^ (Zdigits2 z - 1) <= z.
Proof.
  destruct z as [|p|p]; try lia. intros _. simpl.
  rewrite digits2_pos_size. apply size_bounds.
Qed.

Lemma Zdigits2_ge z d : 0 <= d -> 2 ^ d <= z -> d < Zdigits2 z.
Proof.
  intros Hd H.
  assert (0 < 2 ^ d) by (apply Z.pow_pos_nonneg; lia).
  pose proof (Zdigits2_gt z ltac:(lia)) as G.
  pose proof (Zdigits2_nonneg z).
  destruct (Z_lt_le_dec d (Zdigits2 z)); [assumption|].
  assert (2 ^ Zdigits2 z <= 2 ^ d) by (apply Z.pow_le_mono_r; lia). lia.
Qed.

(** Rounding a mantissa of at least 53 digits: the result is a normal
    double above the input by at most one part in [2^52]. *)
Lemma binary_round_aux_upper m e l :
  2 ^ 52 <= m -> -1074 <= e -> Zdigits2 m + e <= 1022 ->
  exists m' e',
    binary_round_aux 53 1024 false m e l = S754_finite false m' e'
    /\ Zpos (digits2_pos m') = 53
    /\ e + (Zdigits2 m - 53) <= e' <= e + (Zdigits2 m - 53) + 1
    /\ Zpos m' * 2 ^ (e' - e) * 2 ^ 52 <= m * (2 ^ 52 + 1).
Proof.
  intros Hm He Hd.
  assert (Hm0 : 0 <= m) by lia.
  pose proof (Zdigits2_ge m 52 ltac:(lia) Hm) as Dge.
  pose proof (Zdigits2_gt m Hm0) as Dgt.
  pose proof (Zdigits2_lower m ltac:(lia)) as Dlo.
  set (d := Zdigits2 m) in *.
  unfold binary_round_aux.
  destruct (shr_fexp 53 1024 m e l) as [r1 e1] eqn:E1.
  destruct (shr_fexp_spec _ _ _ _ _ Hm0 E1) as [M1 X1].
  fold d in M1, X1.
  replace (Z.max 0 (Z.max (d + e - 53) (-1074) - e)) with (d - 53)
    in M1, X1 by lia.
  set (k := d - 53) in *.
  assert (Pk : 0 < 2 ^ k) by (apply Z.pow_pos_nonneg; lia).
  assert (Hd1 : 2 ^ (d - 1) = 2 ^ 52 * 2 ^ k).
  { rewrite <- Z.pow_add_r by lia. f_equal. lia. }
  assert (Hd2 : 2 ^ d = 2 ^ 53 * 2 ^ k).
  { rewrite <- Z.pow_add_r by lia. f_equal. lia. }
  assert (B1 : 2 ^ 52 <= shr_m r1 < 2 ^ 53).
  { rewrite M1. split.
    - apply Z.div_le_lower_bound; lia.
    - apply Z.div_lt_upper_bound; lia. }
  assert (T1 : shr_m r1 * 2 ^ k <= m).
  { rewrite M1. pose proof (Z.mul_div_le m (2 ^ k) Pk). lia. }
  pose proof (round_nearest_even_bounds (shr_m r1) (loc_of_shr_record r1))
    as Rb.
  set (m1 := round_nearest_even (shr_m r1) (loc_of_shr_record r1)) in *.
  assert (Hm1 : 0 <= m1) by lia.
  destruct (shr_fexp 53 1024 m1 e1 loc_Exact) as [r2 e2] eqn:E2.
  destruct (shr_fexp_spec _ _ _ _ _ Hm1 E2) as [M2 X2].
  destruct (Z_lt_le_dec m1 (2 ^ 53)) as [Lt|Ge].
  - assert (D1 : Zdigits2 m1 = 53) by (apply Zdigits2_eq; simpl; lia).
    rewrite D1 in M2, X2.
    replace (Z.max 0 (Z.max (53 + e1 - 53) (-1074) - e1)) with 0
      in M2, X2 by lia.
    rewrite Z.pow_0_r, Z.div_1_r in M2. rewrite M2.
    destruct m1 as [|p|p]; try lia.
    exists p, e2.
    replace (e2 <=? 1024 - 53) with true by (symmetry; apply Z.leb_le; lia).
    split; [reflexivity|].
    split; [apply Zdigits2_pos_eq; simpl; lia|].
    split; [lia|].
    replace (e2 - e) with k by lia. nia.
  - assert (Em : m1 = 2 ^ 53) by lia.
    assert (D1 : Zdigits2 m1 = 54) by (rewrite Em; reflexivity).
    rewrite D1 in M2, X2.
    replace (Z.max 0 (Z.max (54 + e1 - 53) (-1074) - e1)) with 1
      in M2, X2 by lia.
    rewrite Em in M2. change (2 ^ 53 / 2 ^ 1) with (2 ^ 52) in M2.
    rewrite M2. change (2 ^ 52) with (Zpos 4503599627370496).
    exists 4503599627370496%positive, e2.
    replace (e2 <=? 1024 - 53) with true by (symmetry; apply Z.leb_le; lia).
    split; [reflexivity|].
    split; [reflexivity|].
    split; [lia|].
    replace (e2 - e) with (k + 1) by lia.
    rewrite Z.pow_add_r by lia. change (2 ^ 1) with 2.
    change (Zpos 4503599627370496) with (2 ^ 52).
    change (2 ^ 53) with (2 * 2 ^ 52) in *. nia.
Qed.


(** The quotient of two integers below [2^53] is a normal double, above
    the exact quotient by at most one part in [2^52]. *)
Lemma div_upper n1 m1 e1 n2 m2 e2 :
  normalInt n1 m1 e1 -> normalInt n2 m2 e2 ->
  exists mq eq,
    JS.div (S754_finite false m1 e1) (S754_finite false m2 e2)
    = S754_finite false mq eq
    /\ Zpos (digits2_pos mq) = 53
    /\ -105 <= eq <= 1
    /\ mag mq eq * n2 * 2 ^ 52 <= n1 * 2 ^ 200 * (2 ^ 52 + 1).
Proof.
  intros (D1 & E1 & V1) (D2 & E2 & V2).
  unfold JS.div, SFdiv, SFdiv_core_binary.
  cbv zeta.
  set (e' := Z.min (fexp JS.prec JS.emax
                       (Zdigits2 (Zpos m1) + e1 - (Zdigits2 (Zpos m2) + e2)))
                   (e1 - e2)).
  set (m' := match e1 - e2 - e' with
             | Zpos _ => Z.shiftl (Zpos m1) (e1 - e2 - e')
             | 0 => Zpos m1
             | Zneg _ => 0
             end).
  assert (He' : e' = e1 - e2 - 53).
  { unfold e', JS.prec, JS.emax. rewrite fexp64. simpl Zdigits2.
    rewrite D1, D2. lia. }
  assert (Hm' : m' = Zpos m1 * 2 ^ 53).
  { unfold m'. rewrite He'.
    replace (e1 - e2 - (e1 - e2 - 53)) with 53 by lia.
    now rewrite Z.shiftl_mul_pow2 by lia. }
  pose proof (digits53_bounds m1 D1) as [L1 U1].
  pose proof (digits53_bounds m2 D2) as [L2 U2].
  pose proof (Z_div_mod m' (Zpos m2) eq_refl) as Hdm.
  destruct (Z.div_eucl m' (Zpos m2)) as [q r].
  destruct Hdm as [Hq Hr].
  change (xorb false false) with false.
  assert (Q1 : 2 ^ 52 <= q).
  { change (2 ^ 53) with (2 * 2 ^ 52) in *. nia. }
  assert (Q2 : q < 2 ^ 54).
  { change (2 ^ 54) with (2 * 2 ^ 53). nia. }
  assert (Dq : 53 <= Zdigits2 q <= 54).
  { split.
    - pose proof (Zdigits2_ge q 52 ltac:(lia) Q1). lia.
    - apply Zdigits2_le; lia. }
  match goal with
  | |- context [binary_round_aux _ _ _ _ _ ?l] =>
      destruct (binary_round_aux_upper q e' l)
        as (mq & eq & R & Dm & Eq & B); [lia|lia|lia|]
  end.
  exists mq, eq. split; [exact R|]. split; [exact Dm|]. split; [lia|].
  unfold mag.
  set (a := - e1) in *. set (b := - e2) in *.
  set (j := eq - e') in *.
  replace (eq + 200) with (j + b + (52 - a) + 95) by lia.
  rewrite !Z.pow_add_r by lia.
  assert (Hac : 2 ^ a * 2 ^ (52 - a) = 2 ^ 52).
  { rewrite <- Z.pow_add_r by lia. f_equal. lia. }
  assert (S1 : Zpos mq * 2 ^ j * 2 ^ 52 * Zpos m2
               <= Zpos m1 * 2 ^ 53 * (2 ^ 52 + 1)).
  { apply Z.le_trans with (q * (2 ^ 52 + 1) * Zpos m2).
    - apply Z.mul_le_mono_nonneg_r; lia.
    - assert (q * Zpos m2 <= Zpos m1 * 2 ^ 53) by lia.
      nia. }
  rewrite V1, V2 in S1.
  assert (PF : 0 <= 2 ^ (52 - a) * 2 ^ 95).
  { apply Z.mul_nonneg_nonneg; apply Z.pow_nonneg; lia. }
  pose proof (Z.mul_le_mono_nonneg_r _ _ _ PF S1) as S2.
  replace (n1 * 2 ^ 200 * (2 ^ 52 + 1))
    with (n1 * 2 ^ a * 2 ^ 53 * (2 ^ 52 + 1) * (2 ^ (52 - a) * 2 ^ 95)).
  - etransitivity; [|exact S2]. apply Z.eq_le_incl. ring.
  - change (2 ^ 200) with (2 ^ 52 * 2 ^ 53 * 2 ^ 95). rewrite <- Hac. ring.
Qed.

(** [Math.min] of two normal positive doubles is one of them and is
    above neither. *)
Lemma min_normal ma ea mb eb :
  Zpos (digits2_pos ma) = 53 -> Zpos (digits2_pos mb) = 53 ->
  -200 <= ea -> -200 <= eb ->
  exists m e,
    JS.Math_min (S754_finite false ma ea) (S754_finite false mb eb)
    = S754_finite false m e
    /\ ((m = ma /\ e = ea) \/ (m = mb /\ e = eb))
    /\ mag m e <= mag ma ea /\ mag m e <= mag mb eb.
Proof.
  intros Da Db Ha Hb.
  pose proof (digits53_bounds ma Da) as [La Ua].
  pose proof (digits53_bounds mb Db) as [Lb Ub].
  assert (Step : forall m1 e1 m2 e2,
             2 ^ 52 <= Zpos m1 < 2 ^ 53 -> 2 ^ 52 <= Zpos m2 < 2 ^ 53 ->
             -200 <= e1 -> e1 < e2 -> mag m1 e1 <= mag m2 e2).
  { intros m1 e1 m2 e2 B1 B2 H1 H12. unfold mag.
    assert (0 < 2 ^ (e1 + 200)) by (apply Z.pow_pos_nonneg; lia).
    assert (1 <= 2 ^ (e2 - e1 - 1)).
    { assert (0 < 2 ^ (e2 - e1 - 1)) by (apply Z.pow_pos_nonneg; lia). lia. }
    replace (2 ^ (e2 + 200))
      with (2 ^ (e2 - e1 - 1) * 2 * 2 ^ (e1 + 200)).
    2:{ change 2 with (2 ^ 1) at 2. rewrite <- !Z.pow_add_r by lia.
        f_equal. lia. }
    set (P := 2 ^ (e1 + 200)) in *. set (K := 2 ^ (e2 - e1 - 1)) in *.
    apply Z.le_trans with (2 ^ 53 * P); [nia|].
    apply Z.le_trans with (Zpos m2 * (2 * P)).
    - change (2 ^ 53) with (2 * 2 ^ 52). nia.
    - replace (Zpos m2 * (K * 2 * P)) with (K * (Zpos m2 * (2 * P))) by ring.
      nia. }
  unfold JS.Math_min, SFcompare.
  destruct (Z.compare_spec ea eb) as [E|E|E].
  - subst eb. rewrite Pos.compare_cont_spec. simpl Pos.switch_Eq.
    assert (0 <= 2 ^ (ea + 200)) by (apply Z.pow_nonneg; lia).
    destruct (Pos.compare_spec ma mb) as [E|E|E].
    + subst mb. exists ma, ea. repeat split; lia.
    + exists ma, ea. apply Pos2Z.pos_lt_pos in E.
      repeat split; try lia. unfold mag. nia.
    + exists mb, ea. apply Pos2Z.pos_lt_pos in E.
      repeat split; try lia. unfold mag. nia.
  - exists ma, ea. repeat split; try lia. apply Step; lia.
  - exists mb, eb. repeat split; try lia. apply Step; lia.
Qed.

(** A source dimension [n] times a normal scale that is above [L / n]
    by at most one part in [2^52] rounds to an integer between 1 and
    [L]. *)
Lemma scaled_axis_fits n msw esw ms es L :
  normalInt n msw esw -> 1 <= n ->
  Zpos (digits2_pos ms) = 53 -> -105 <= es <= 1 ->
  1 <= L < 2 ^ 48 ->
  mag ms es * n * 2 ^ 52 <= L * 2 ^ 200 * (2 ^ 52 + 1) ->
  fitsLimit
    (JS.Math_max JS.one
       (JS.Math_round
          (JS.mul (S754_finite false msw esw) (S754_finite false ms es))))
    L.
Proof.
  intros (Dw & Ew & Vw) Hn Ds Es HL Hs.
  pose proof (digits53_bounds msw Dw) as [Lw Uw].
  pose proof (digits53_bounds ms Ds) as [Ls Us].
  unfold JS.mul, SFmul. change (xorb false false) with false.
  rewrite Pos2Z.inj_mul.
  assert (P1 : 2 ^ 104 <= Zpos msw * Zpos ms).
  { change (2 ^ 104) with (2 ^ 52 * 2 ^ 52). nia. }
  assert (P2 : Zpos msw * Zpos ms < 2 ^ 106).
  { change (2 ^ 106) with (2 ^ 53 * 2 ^ 53). nia. }
  assert (Dp : 105 <= Zdigits2 (Zpos msw * Zpos ms) <= 106).
  { split.
    - pose proof (Zdigits2_ge _ 104 ltac:(lia) P1). lia.
    - apply Zdigits2_le; lia. }
  destruct (binary_round_aux_upper (Zpos msw * Zpos ms) (esw + es) loc_Exact)
    as (m' & e' & R & D' & E' & B).
  { change (2 ^ 104) with (2 ^ 52 * 2 ^ 52) in P1. lia. }
  { lia. }
  { lia. }
  unfold JS.prec, JS.emax. rewrite R. clear R.
  pose proof (digits53_bounds m' D') as [L' U'].
  set (c := - esw) in *.
  set (u := e' - (esw + es) - c) in *.
  assert (Hu : 0 <= u) by lia.
  assert (Pc : 0 < 2 ^ c) by (apply Z.pow_pos_nonneg; lia).
  assert (Pu : 0 < 2 ^ u) by (apply Z.pow_pos_nonneg; lia).
  replace (e' - (esw + es)) with (u + c) in B by lia.
  rewrite Z.pow_add_r in B by lia. rewrite Vw in B.
  assert (B1 : Zpos m' * 2 ^ u * 2 ^ 52 <= n * Zpos ms * (2 ^ 52 + 1)).
  { apply Z.mul_le_mono_pos_r with (2 ^ c); [exact Pc|].
    etransitivity; [|etransitivity; [exact B|]]; apply Z.eq_le_incl; ring. }
  clear B.
  set (G := 2 ^ (es + 200)) in *.
  assert (PG : 0 < G) by (apply Z.pow_pos_nonneg; lia).
  set (W := Zpos m' * 2 ^ (e' + 200)).
  assert (HW : W = Zpos m' * 2 ^ u * G).
  { unfold W, G. rewrite <- Z.mul_assoc, <- Z.pow_add_r by lia.
    do 2 f_equal. lia. }
  unfold mag in Hs. fold G in Hs.
  assert (B2 : W * 2 ^ 104 <= L * 2 ^ 200 * ((2 ^ 52 + 1) * (2 ^ 52 + 1))).
  { apply Z.le_trans with (Zpos ms * G * n * 2 ^ 52 * (2 ^ 52 + 1)).
    - rewrite HW. change (2 ^ 104) with (2 ^ 52 * 2 ^ 52).
      replace (Zpos m' * 2 ^ u * G * (2 ^ 52 * 2 ^ 52))
        with (Zpos m' * 2 ^ u * 2 ^ 52 * (G * 2 ^ 52)) by ring.
      replace (Zpos ms * G * n * 2 ^ 52 * (2 ^ 52 + 1))
        with (n * Zpos ms * (2 ^ 52 + 1) * (G * 2 ^ 52)) by ring.
      apply Z.mul_le_mono_nonneg_r; [|exact B1].
      apply Z.mul_nonneg_nonneg; lia.
    - replace (L * 2 ^ 200 * ((2 ^ 52 + 1) * (2 ^ 52 + 1)))
        with (L * 2 ^ 200 * (2 ^ 52 + 1) * (2 ^ 52 + 1)) by ring.
      apply Z.mul_le_mono_nonneg_r; [lia|exact Hs]. }
  assert (B3 : W < L * 2 ^ 200 + 2 ^ 198).
  { apply Z.mul_lt_mono_pos_r with (2 ^ 104); [lia|].
    assert (X : L * 2 ^ 200 * (2 ^ 53 + 1) < 2 ^ 198 * 2 ^ 104).
    { apply Z.le_lt_trans with (2 ^ 48 * 2 ^ 200 * (2 ^ 53 + 1)).
      - apply Z.mul_le_mono_nonneg_r; [lia|].
        apply Z.mul_le_mono_nonneg_r; lia.
      - reflexivity. }
    change ((2 ^ 52 + 1) * (2 ^ 52 + 1)) with (2 ^ 104 + (2 ^ 53 + 1)) in B2.
    rewrite Z.mul_add_distr_l in B2. rewrite Z.mul_add_distr_r.
    set (K := L * 2 ^ 200 * 2 ^ 104) in *.
    set (K1 := L * 2 ^ 200 * (2 ^ 53 + 1)) in *.
    set (K2 := 2 ^ 198 * 2 ^ 104) in *.
    set (K3 := W * 2 ^ 104) in *. clearbody K K1 K2 K3. lia. }
  assert (He' : e' <= -2).
  { destruct (Z_le_gt_dec e' (-2)) as [|Hgt]; [assumption|exfalso].
    assert (2 ^ 199 <= 2 ^ (e' + 200)) by (apply Z.pow_le_mono_r; lia).
    assert (2 ^ 52 * 2 ^ 199 <= W).
    { unfold W. apply Z.mul_le_mono_nonneg; lia. }
    assert (L * 2 ^ 200 + 2 ^ 198 <= 2 ^ 48 * 2 ^ 200 + 2 ^ 198) by lia.
    assert (2 ^ 48 * 2 ^ 200 + 2 ^ 198 < 2 ^ 52 * 2 ^ 199) by reflexivity.
    lia. }
  set (j := - e') in *.
  assert (Hj : 2 <= j <= 200) by lia.
  set (T := 2 ^ (200 - j)).
  assert (PT : 0 < T) by (apply Z.pow_pos_nonneg; lia).
  assert (Pj2 : 0 < 2 ^ (j - 2)) by (apply Z.pow_pos_nonneg; lia).
  assert (J1 : 2 ^ (j - 1) = 2 * 2 ^ (j - 2)).
  { rewrite <- Z.pow_succ_r by lia. f_equal. lia. }
  assert (J0 : 2 ^ j = 4 * 2 ^ (j - 2)).
  { change 4 with (2 ^ 2). rewrite <- Z.pow_add_r by lia. f_equal. lia. }
  assert (T200 : 2 ^ 200 = 2 ^ j * T).
  { unfold T. rewrite <- Z.pow_add_r by lia. f_equal. lia. }
  assert (T198 : 2 ^ 198 = 2 ^ (j - 2) * T).
  { unfold T. rewrite <- Z.pow_add_r by lia. f_equal. lia. }
  assert (B4 : Zpos m' < L * 2 ^ j + 2 ^ (j - 2)).
  { apply Z.mul_lt_mono_pos_r with T; [exact PT|].
    replace ((L * 2 ^ j + 2 ^ (j - 2)) * T)
      with (L * (2 ^ j * T) + 2 ^ (j - 2) * T) by ring.
    rewrite <- T200, <- T198.
    unfold W in B3. replace (e' + 200) with (200 - j) in B3 by lia.
    exact B3. }
  unfold JS.Math_round.
  replace (0 <=? e') with false by (symmetry; apply Z.leb_gt; lia).
  unfold cond_Zopp. fold j.
  rewrite Z.shiftr_div_pow2 by lia.
  set (r := (Zpos m' + 2 ^ (j - 1)) / 2 ^ j).
  assert (Hr : 0 <= r <= L).
  { unfold r. split.
    - apply Z.div_pos; lia.
    - assert ((Zpos m' + 2 ^ (j - 1)) / 2 ^ j < L + 1); [|lia].
      apply Z.div_lt_upper_bound; lia. }
  cbv zeta.
  destruct (Z.eqb_spec r 0) as [E0|N0].
  - exists 1. split; [reflexivity|lia].
  - exists r. split; [|lia].
    destruct (of_Z_shape r) as (mr & er & Sr & Nr).
    { split; [lia|]. apply Z.le_lt_trans with L; [lia|].
      apply Z.lt_trans with (2 ^ 48); [lia|reflexivity]. }
    rewrite Sr. apply (max_one_normal r); [lia|exact Nr].
Qed.

Lemma lit_1e6_shape :
  JS.lit_1e6 = S754_finite false 8589934592000000 (-33).
Proof. reflexivity. Qed.

(** The same with the scale capped at [1e6]. *)
Lemma capped_axis_fits n mn en ms es L :
  normalInt n mn en -> 1 <= n ->
  Zpos (digits2_pos ms) = 53 -> -105 <= es <= 1 ->
  1 <= L < 2 ^ 48 ->
  mag ms es * n * 2 ^ 52 <= L * 2 ^ 200 * (2 ^ 52 + 1) ->
  fitsLimit
    (JS.Math_max JS.one
       (JS.Math_round
          (JS.mul (S754_finite false mn en)
                  (JS.Math_min (S754_finite false ms es) JS.lit_1e6))))
    L.
Proof.
  intros Nn Hn Ds Es HL Hs. rewrite lit_1e6_shape.
  destruct (min_normal ms es 8589934592000000 (-33) Ds eq_refl)
    as (m & e & -> & Which & Le1 & _); [lia|lia|].
  assert (Dm : Zpos (digits2_pos m) = 53 /\ -105 <= e <= 1).
  { destruct Which as [[-> ->]|[-> ->]]; [split; assumption|split; [reflexivity|lia]]. }
  apply (scaled_axis_fits n); try tauto; try assumption.
  apply Z.le_trans with (mag ms es * n * 2 ^ 52); [|exact Hs].
  apply Z.mul_le_mono_nonneg_r; [lia|].
  apply Z.mul_le_mono_nonneg_r; [lia|exact Le1].
Qed.

Lemma resolveTarget_locked f q LW LH SW SH :
  resolveTarget (mkSettings f q LW LH contain true) SW SH
  = let limitW := JS.or_zero LW in
    let limitH := JS.or_zero LH in
    if (JS.gt limitW JS.zero || JS.gt limitH JS.zero)%bool then
      let scaleW :=
        if JS.gt limitW JS.zero then JS.div limitW SW else JS.Infinity in
      let scaleH :=
        if JS.gt limitH JS.zero then JS.div limitH SH else JS.Infinity in
      let scale := JS.Math_min scaleW scaleH in
      let finalScale :=
        if JS.isFinite scale then JS.Math_min scale JS.lit_1e6
        else JS.one in
      (JS.Math_max JS.one (JS.Math_round (JS.mul SW finalScale)),
       JS.Math_max JS.one (JS.Math_round (JS.mul SH finalScale)))
    else (SW, SH).
Proof. reflexivity. Qed.

End Rounding.

(** X14.  In contain mode with the aspect locked, for integer source
    dimensions below [2^53] and integer limits below [2^48], each target
    dimension whose axis has a limit is an integer between 1 and that
    limit, whichever of the two limits decides the scale: the roundings
    of the quotient and of the product never carry the result past the
    limit. *)
Theorem X_locked_contain_fits_the_limits :
  forall (f : Format) (q : number) (sw sh lw lh : Z),
    1 <= sw < 2 ^ 53 -> 1 <= sh < 2 ^ 53 ->
    0 <= lw < 2 ^ 48 -> 0 <= lh < 2 ^ 48 ->
    let t := resolveTarget
               (mkSettings f q (JS.of_Z lw) (JS.of_Z lh) contain true)
               (JS.of_Z sw) (JS.of_Z sh) in
    (0 < lw -> fitsLimit (fst t) lw) /\ (0 < lh -> fitsLimit (snd t) lh).
Proof.
  intros f q sw sh lw lh Hsw Hsh Hlw Hlh t. unfold t. clear t.
  rewrite Rounding.resolveTarget_locked.
  destruct (Binary64.of_Z_shape sw Hsw) as (mw & ew & Sw & Nw).
  destruct (Binary64.of_Z_shape sh Hsh) as (mh & eh & Sh & Nh).
  rewrite Sw, Sh.
  assert (Pw : 0 <= sw * 2 ^ 52) by lia.
  assert (Ph : 0 <= sh * 2 ^ 52) by lia.
  destruct (Z.eq_dec lw 0) as [Zw|Zw]; destruct (Z.eq_dec lh 0) as [Zh|Zh].
  - subst. split; lia.
  - subst lw. split; [lia|intros _].
    destruct (Binary64.of_Z_shape lh ltac:(lia)) as (ml & el & Sl & Nl).
    destruct (Rounding.div_upper _ _ _ _ _ _ Nl Nh)
      as (mq & eq & Rq & Dq & Eq & Bq).
    rewrite Sl. change (JS.of_Z 0) with (S754_zero false).
    cbv zeta. simpl JS.or_zero. rewrite Binary64.gt_zero_finite.
    change (JS.gt JS.zero JS.zero) with false. cbv iota. simpl orb. cbv iota.
    rewrite Rq.
    change (JS.Math_min JS.Infinity (S754_finite false mq eq))
      with (S754_finite false mq eq).
    simpl JS.isFinite. cbv iota. simpl snd.
    apply (Rounding.capped_axis_fits sh); try assumption; lia.
  - subst lh. split; [intros _|lia].
    destruct (Binary64.of_Z_shape lw ltac:(lia)) as (ml & el & Sl & Nl).
    destruct (Rounding.div_upper _ _ _ _ _ _ Nl Nw)
      as (mq & eq & Rq & Dq & Eq & Bq).
    rewrite Sl. change (JS.of_Z 0) with (S754_zero false).
    cbv zeta. simpl JS.or_zero. rewrite Binary64.gt_zero_finite.
    change (JS.gt JS.zero JS.zero) with false. cbv iota. simpl orb. cbv iota.
    rewrite Rq.
    change (JS.Math_min (S754_finite false mq eq) JS.Infinity)
      with (S754_finite false mq eq).
    simpl JS.isFinite. cbv iota. simpl fst.
    apply (Rounding.capped_axis_fits sw); try assumption; lia.
  - destruct (Binary64.of_Z_shape lw ltac:(lia)) as (mlw & elw & Slw & Nlw).
    destruct (Binary64.of_Z_shape lh ltac:(lia)) as (mlh & elh & Slh & Nlh).
    destruct (Rounding.div_upper _ _ _ _ _ _ Nlw Nw)
      as (mqw & eqw & Rw & Dw & Ew & Bw).
    destruct (Rounding.div_upper _ _ _ _ _ _ Nlh Nh)
      as (mqh & eqh & Rh & Dh & Eh & Bh).
    rewrite Slw, Slh.
    cbv zeta. simpl JS.or_zero. rewrite !Binary64.gt_zero_finite.
    simpl orb. cbv iota. rewrite Rw, Rh.
    destruct (Rounding.min_normal mqw eqw mqh eqh Dw Dh)
      as (m & e & -> & Which & Le1 & Le2); [lia|lia|].
    assert (Dm : Zpos (digits2_pos m) = 53 /\ -105 <= e <= 1).
    { destruct Which as [[-> ->]|[-> ->]]; split; assumption. }
    destruct Dm as [Dm Em].
    simpl JS.isFinite. cbv iota. simpl fst. simpl snd.
    split; intros _.
    + apply (Rounding.capped_axis_fits sw); try assumption; try lia.
      apply Z.le_trans with (mag mqw eqw * sw * 2 ^ 52); [|exact Bw].
      rewrite <- !Z.mul_assoc. apply Z.mul_le_mono_nonneg_r; assumption.
    + apply (Rounding.capped_axis_fits sh); try assumption; try lia.
      apply Z.le_trans with (mag mqh eqh * sh * 2 ^ 52); [|exact Bh].
      rewrite <- !Z.mul_assoc. apply Z.mul_le_mono_nonneg_r; assumption.
Qed.

Lemma X_locked_contain_witness :
  fitsLimit
    (fst (resolveTarget
            (mkSettings png JS.one (JS.of_Z 800) (JS.of_Z 500) contain true)
            (JS.of_Z 1600) (JS.of_Z 1200))) 800
  /\ fitsLimit
       (snd (resolveTarget
               (mkSettings png JS.one (JS.of_Z 800) (JS.of_Z 500) contain true)
               (JS.of_Z 1600) (JS.of_Z 1200))) 500.
Proof.
  destruct (X_locked_contain_fits_the_limits png JS.one 1600 1200 800 500)
    as [A B]; try lia.
  split; [apply A | apply B]; lia.
Defined.

(* ================================================================== *)
(** * The in-progress flag *)
(* ================================================================== *)

Lemma convertAll_loop_flag snapshot s rest st :
  let r := convertAll_loop snapshot s rest st in
  (isRunAll (snd r) = true
   /\ isConvertingAll (fst r) = isConvertingAll st)
  \/ isConvertingAll (fst r) = false.
Proof.
  revert st. induction rest as [|it rest IH]; intros st; simpl.
  - right. reflexivity.
  - destruct (String.eqb (pngUrl it) ""); [|apply IH].
    destruct (findItem (id it) snapshot).
    + left. split; reflexivity.
    + destruct (IH (convertOne_start (id it) st)) as [[R F]|F];
        [left|right]; [split|]; assumption.
Qed.

Lemma convertAll_flag st :
  let r := convertAll st in
  isRunAll (snd r) = true
  \/ isConvertingAll (fst r) = false
  \/ isConvertingAll (fst r) = isConvertingAll st.
Proof.
  unfold convertAll. destruct (files st) as [|x l] eqn:E.
  - right. right. reflexivity.
  - destruct (convertAll_loop_flag (x :: l) (settings st) (x :: l)
                (setIsConvertingAll true st)) as [[R _]|F]; tauto.
Qed.

Lemma conv_loaded_flag c r st :
  isConvertingAll (fst (conv_loaded c r st)) = isConvertingAll st.
Proof.
  unfold conv_loaded. destruct r as [[sw sh]|]; [|reflexivity].
  destruct (resolveTarget _ _ _). reflexivity.
Qed.

Lemma conv_blob_flag c r st :
  isConvertingAll (conv_blob c r st) = isConvertingAll st.
Proof. destruct r; reflexivity. Qed.

Lemma revokeUrls_flag it st :
  isConvertingAll (revokeUrls it st) = isConvertingAll st.
Proof.
  unfold revokeUrls, revokeIfSet.
  destruct (String.eqb (pngUrl it) ""), (String.eqb (previewUrl it) "");
    reflexivity.
Qed.

Lemma revokeAll_flag l st :
  isConvertingAll (revokeAll l st) = isConvertingAll st.
Proof.
  unfold revokeAll. revert st. induction l as [|x l IH]; intros st; simpl.
  - reflexivity.
  - rewrite IH. apply revokeUrls_flag.
Qed.

Lemma removeOne_flag i st :
  isConvertingAll (removeOne i st) = isConvertingAll st.
Proof.
  unfold removeOne. destruct (findItem i (files st)); simpl;
    [apply revokeUrls_flag|reflexivity].
Qed.

Lemma clearAll_flag st :
  isConvertingAll (clearAll st) = isConvertingAll st.
Proof. unfold clearAll, reset. simpl. apply revokeAll_flag. Qed.

Lemma moveItem_flag i d st :
  isConvertingAll (moveItem i d st) = isConvertingAll st.
Proof.
  unfold moveItem. destruct (findIndex i (files st)); reflexivity.
Qed.

Lemma existsb_setThread (f : Thread -> bool) k t t' ths :
  nth_error ths k = Some t ->
  existsb f ths
  = (existsb f (firstn k ths) || f t || existsb f (skipn (S k) ths))%bool
  /\ existsb f (setThread k t' ths)
     = (existsb f (firstn k ths) || f t' || existsb f (skipn (S k) ths))%bool.
Proof.
  intros H. unfold setThread. split.
  - rewrite <- (firstn_skipn k ths) at 1.
    rewrite existsb_app.
    assert (S : skipn k ths = t :: skipn (S k) ths).
    { clear t'. revert ths H. induction k as [|k IH]; intros [|x l] H;
        try discriminate.
      - injection H as ->. reflexivity.
      - simpl in H. simpl. now apply IH. }
    rewrite S. simpl. now rewrite orb_assoc.
  - rewrite existsb_app. simpl. now rewrite orb_assoc.
Qed.

Lemma running_setThread k t t' ths :
  nth_error ths k = Some t ->
  (isRunAll t = true -> isRunAll t' = true) ->
  existsb isRunAll ths = true ->
  existsb isRunAll (setThread k t' ths) = true.
Proof.
  intros H Ht E.
  destruct (existsb_setThread isRunAll k t t' ths H) as [E1 E2].
  rewrite E2. rewrite E1 in E.
  destruct (existsb isRunAll (firstn k ths)); [reflexivity|].
  destruct (existsb isRunAll (skipn (S k) ths));
    [now rewrite orb_true_r|].
  simpl in *. rewrite orb_false_r in *. auto.
Qed.

Lemma started_setThread k t t' ths :
  nth_error ths k = Some t -> isRunAll t' = true ->
  existsb isRunAll (setThread k t' ths) = true.
Proof.
  intros H Ht.
  destruct (existsb_setThread isRunAll k t t' ths H) as [_ E2].
  rewrite E2, Ht. now rewrite orb_true_r.
Qed.

Lemma flag_step w e w' :
  step w e = Some w' ->
  (isConvertingAll (app w) = true -> batchRunning w = true) ->
  isConvertingAll (app w') = true -> batchRunning w' = true.
Proof.
  unfold step, guarded, batchRunning. intros H Inv.
  destruct e as [fresh lst|i| | |i|i delta| | |s| |k r|k r].
  - injection H as <-. simpl.
    destruct (onSelectFiles_frame fresh lst (app w)) as [-> _]. exact Inv.
  - simpl in H. pass_guard H. simpl. intros F.
    rewrite existsb_app, (Inv F). reflexivity.
  - pose proof (convertAll_flag (app w)) as P.
    destruct (convertAll (app w)) as [st' t]. pass_guard H. simpl in *.
    intros F. rewrite existsb_app. simpl.
    destruct P as [R|[F'|F']].
    + rewrite R. now rewrite orb_true_r.
    + congruence.
    + rewrite Inv by congruence. reflexivity.
  - pose proof (convertAll_flag (app w)) as P.
    destruct (convertAll (app w)) as [st' t]. pass_guard H. simpl in *.
    intros F. rewrite existsb_app. simpl.
    destruct P as [R|[F'|F']].
    + rewrite R. now rewrite orb_true_r.
    + congruence.
    + rewrite Inv by congruence. reflexivity.
  - pass_guard H. cbn [app threads]. rewrite removeOne_flag. exact Inv.
  - pass_guard H. cbn [app threads]. rewrite moveItem_flag. exact Inv.
  - pass_guard H. cbn [app threads]. rewrite clearAll_flag. exact Inv.
  - pass_guard H. simpl. exact Inv.
  - injection H as <-. simpl. exact Inv.
  - pass_guard H. cbn [app threads].
    change (isConvertingAll (setError _ (clearAll (app w))))
      with (isConvertingAll (clearAll (app w))).
    rewrite clearAll_flag. exact Inv.
  - destruct (nth_error (threads w) k) as [t|] eqn:N; [|discriminate].
    destruct t as [c|c rest snap|]; simpl in H; try discriminate.
    + destruct (conv_phase c); [|discriminate].
      pose proof (conv_loaded_flag c r (app w)) as F.
      destruct (conv_loaded c r (app w)) as [st' oc]. simpl in F.
      injection H as <-. simpl. rewrite F. intros F1.
      apply (running_setThread k (RunOne c)); auto; discriminate.
    + destruct (conv_phase c); [|discriminate].
      pose proof (conv_loaded_flag c r (app w)) as F.
      destruct (conv_loaded c r (app w)) as [st' [c'|]]; simpl in F.
      * injection H as <-. simpl. intros _.
        now apply (started_setThread k (RunAll c rest snap)).
      * pose proof (convertAll_loop_flag snap (conv_settings c) rest st')
          as P.
        destruct (convertAll_loop snap (conv_settings c) rest st')
          as [st2 t2]. simpl in P.
        injection H as <-. simpl. intros F2.
        destruct P as [[R _]|F']; [|congruence].
        now apply (started_setThread k (RunAll c rest snap)).
  - destruct (nth_error (threads w) k) as [t|] eqn:N; [|discriminate].
    destruct t as [c|c rest snap|]; simpl in H; try discriminate.
    + destruct (conv_phase c); [discriminate|].
      injection H as <-. simpl. rewrite conv_blob_flag. intros F1.
      apply (running_setThread k (RunOne c)); auto; discriminate.
    + destruct (conv_phase c); [discriminate|].
      pose proof (convertAll_loop_flag snap (conv_settings c) rest
                    (conv_blob c r (app w))) as P.
      destruct (convertAll_loop snap (conv_settings c) rest
                                (conv_blob c r (app w))) as [st2 t2].
      simpl in P. injection H as <-. simpl. intros F2.
      destruct P as [[R _]|F']; [|congruence].
      now apply (started_setThread k (RunAll c rest snap)).
Qed.

Lemma flag_reachable w :
  reachable w -> isConvertingAll (app w) = true -> batchRunning w = true.
Proof.
  induction 1 as [|w e w' _ IH Hs].
  - discriminate.
  - exact (flag_step w e w' Hs IH).
Qed.

(** X15.  The in-progress flag is never left on: in every reachable
    state in which it is set, some [convertAll] call has not returned
    yet.  The converse fails.  Convert & Download All is rendered
    whenever an item lacks an output, also while a batch runs, so a
    second batch can be started; when the first one returns it clears
    the flag, and Convert All is enabled again while the second batch is
    still converting. *)
Theorem X_in_progress_flag :
  (forall w, reachable w ->
             isConvertingAll (app w) = true -> batchRunning w = true)
  /\ (forall w, convertDownloadAllShown (app w) = true ->
                step w ClickConvertDownloadAll <> None)
  /\ exists w,
       run Sample.world2 Cases.twoBatches = Some w
       /\ reachable w
       /\ batchRunning w = true
       /\ isConvertingAll (app w) = false
       /\ convertAllDisabled (app w) = false.
Proof.
  split; [exact flag_reachable|]. split.
  - intros w H. unfold step, guarded.
    destruct (convertAll (app w)). rewrite H. discriminate.
  - destruct (run Sample.world2 Cases.twoBatches) as [w|] eqn:R;
      [|vm_compute in R; discriminate].
    exists w. split; [reflexivity|].
    split; [exact (reachable_run _ _ _ reachable_world2 R)|].
    vm_compute in R. injection R as <-. repeat split.
Qed.

(* ================================================================== *)
(** * Contain mode with the aspect unlocked *)
(* ================================================================== *)

Lemma resolveTarget_unlocked f q LW LH SW SH :
  resolveTarget (mkSettings f q LW LH contain false) SW SH
  = let limitW := JS.or_zero LW in
    let limitH := JS.or_zero LH in
    if (JS.gt limitW JS.zero || JS.gt limitH JS.zero)%bool then
      let scale :=
        if JS.gt limitW JS.zero then JS.div limitW SW else JS.Infinity in
      let finalScale :=
        if JS.isFinite scale then JS.Math_min scale JS.lit_1e6
        else JS.one in
      (JS.Math_max JS.one
         (JS.Math_round
            (JS.mul (if JS.gt limitW JS.zero then limitW else SW)
                    finalScale)),
       JS.Math_max JS.one
         (JS.Math_round
            (JS.mul (if JS.gt limitH JS.zero then limitH else SH)
                    finalScale)))
    else (SW, SH).
Proof. reflexivity. Qed.

(** X16.  In contain mode with the aspect unlocked and a width limit,
    the scale is the ratio of the width limit to the source width, and
    it is the limits, not the source dimensions, that are multiplied by
    it.  For integers, when the width limit does not exceed the source
    width, the target width is an integer between 1 and the width limit
    and, with a height limit, the target height is an integer between 1
    and the height limit.  When the width limit exceeds the source
    width the targets can exceed the limits: a 100x100 source under
    limits of 200x150 gives 400x300. *)
Theorem X_unlocked_width_limit :
  forall (f : Format) (q : number) (sw sh lw lh : Z),
    1 <= sh < 2 ^ 53 -> 0 <= lh < 2 ^ 48 ->
    1 <= lw < 2 ^ 48 -> lw <= sw < 2 ^ 53 ->
    let t := resolveTarget
               (mkSettings f q (JS.of_Z lw) (JS.of_Z lh) contain false)
               (JS.of_Z sw) (JS.of_Z sh) in
    fitsLimit (fst t) lw
    /\ (0 < lh -> fitsLimit (snd t) lh)
    /\ resolveTarget
         (mkSettings f q (JS.of_Z 200) (JS.of_Z 150) contain false)
         (JS.of_Z 100) (JS.of_Z 100)
       = (JS.of_Z 400, JS.of_Z 300).
Proof.
  intros f q sw sh lw lh Hsh Hlh Hlw Hsw t. unfold t. clear t.
  split; [|split; [|reflexivity]].
  - rewrite resolveTarget_unlocked.
    destruct (Binary64.of_Z_shape sw ltac:(lia)) as (mw & ew & Sw & Nw).
    destruct (Binary64.of_Z_shape lw ltac:(lia)) as (ml & el & Sl & Nl).
    destruct (Rounding.div_upper _ _ _ _ _ _ Nl Nw)
      as (mq & eq & Rq & Dq & Eq & Bq).
    rewrite Sw, Sl. cbv zeta. simpl JS.or_zero.
    rewrite !Binary64.gt_zero_finite. simpl orb. cbv iota.
    rewrite Rq. simpl JS.isFinite. cbv iota. simpl fst.
    apply (Rounding.capped_axis_fits lw); try assumption; try lia.
    apply Z.le_trans with (mag mq eq * sw * 2 ^ 52); [|exact Bq].
    apply Z.mul_le_mono_nonneg_r; [lia|].
    apply Z.mul_le_mono_nonneg_l; [|lia].
    unfold mag. apply Z.mul_nonneg_nonneg; [lia|].
    apply Z.pow_nonneg; lia.
  - intros Pl. rewrite resolveTarget_unlocked.
    destruct (Binary64.of_Z_shape sw ltac:(lia)) as (mw & ew & Sw & Nw).
    destruct (Binary64.of_Z_shape lw ltac:(lia)) as (ml & el & Sl & Nl).
    destruct (Binary64.of_Z_shape lh ltac:(lia)) as (mh & eh & Sh & Nh).
    destruct (Rounding.div_upper _ _ _ _ _ _ Nl Nw)
      as (mq & eq & Rq & Dq & Eq & Bq).
    rewrite Sw, Sl, Sh. cbv zeta. simpl JS.or_zero.
    rewrite !Binary64.gt_zero_finite. simpl orb. cbv iota.
    rewrite Rq. simpl JS.isFinite. cbv iota. simpl snd.
    apply (Rounding.capped_axis_fits lh); try assumption; try lia.
    assert (M0 : 0 <= mag mq eq).
    { unfold mag. apply Z.mul_nonneg_nonneg; [lia|].
      apply Z.pow_nonneg; lia. }
    assert (B1 : mag mq eq * 2 ^ 52 <= 2 ^ 200 * (2 ^ 52 + 1)).
    { apply Z.mul_le_mono_pos_r with sw; [lia|].
      apply Z.le_trans with (lw * 2 ^ 200 * (2 ^ 52 + 1)).
      - etransitivity; [|exact Bq]. apply Z.eq_le_incl. ring.
      - replace (2 ^ 200 * (2 ^ 52 + 1) * sw)
          with (sw * 2 ^ 200 * (2 ^ 52 + 1)) by ring.
        apply Z.mul_le_mono_nonneg_r; [lia|].
        apply Z.mul_le_mono_nonneg_r; lia. }
    replace (mag mq eq * lh * 2 ^ 52) with (lh * (mag mq eq * 2 ^ 52)) by ring.
    replace (lh * 2 ^ 200 * (2 ^ 52 + 1))
      with (lh * (2 ^ 200 * (2 ^ 52 + 1))) by ring.
    apply Z.mul_le_mono_nonneg_l; [lia|exact B1].
Qed.

Lemma X_unlocked_witness :
  fitsLimit
    (fst (resolveTarget
            (mkSettings png JS.one (JS.of_Z 800) (JS.of_Z 500) contain false)
            (JS.of_Z 1600) (JS.of_Z 1200))) 800.
Proof.
  apply (X_unlocked_width_limit png JS.one 1600 1200 800 500); lia.
Defined.
